(** * Investera CSE market-data module ([cseApi.js]): a shallow embedding

    The JavaScript module consists of the class [CSEApi] (remote calls, a
    thirty-second cache and three formatting helpers) and the class [CSEUI]
    (six update operations that write into the page, and [initialize], which
    runs them under [Promise.all]).

    Numbers are IEEE 754 binary64 values ([spec_float] with precision 53 and
    maximal exponent 1024), strings are byte strings holding the UTF-8
    encoding of the JavaScript text, JSON payloads are an inductive type, and
    asynchronous functions are resumption trees that suspend at every
    [await]. *)

From Stdlib Require Import ZArith String Ascii List Lia DecimalString.
From Stdlib Require Import Floats.SpecFloat.
From stdpp Require Import gmap strings.

Local Open Scope Z_scope.

(* ================================================================== *)
(** ** Numbers *)

Abbreviation float := spec_float.

Definition prec : Z := 53.
Definition emax : Z := 1024.

(** The double nearest to an integer; exact for the integer literals of the
    source ([0], [1e3], [1e6], [1e9], ...). *)
Definition of_Z (z : Z) : float := binary_normalize prec emax z 0 false.

Definition fdiv (x y : float) : float := SFdiv prec emax x y.
(** [x >= y] of JavaScript: false as soon as one side is NaN. *)
Definition fge (x y : float) : bool := SFleb y x.
(** [x > y]. *)
Definition fgt (x y : float) : bool := SFltb y x.
(** [x < y]. *)
Definition flt (x y : float) : bool := SFltb x y.
(** [x === y] on numbers. *)
Definition feq (x y : float) : bool := SFeqb x y.

Definition is_finite (x : float) : bool :=
  match x with
  | S754_zero _ | S754_finite _ _ _ => true
  | _ => false
  end.

(** The real value of a finite double is [m * 2^e]; the two comparisons below
    are exact comparisons of that magnitude with an integer. *)
Definition mag_ge (m : positive) (e : Z) (bound : Z) : bool :=
  if 0 <=? e then bound <=? Z.pos m * 2 ^ e
  else bound * 2 ^ (- e) <=? Z.pos m.

(** [round_scaled f m e] is the integer [n] for which [n / 10^f] is nearest to
    [m * 2^e], the larger one when two are equally near (step 11.a of
    [Number.prototype.toFixed]). *)
Definition round_scaled (f : nat) (m : positive) (e : Z) : Z :=
  let n := Z.pos m * 10 ^ Z.of_nat f in
  if 0 <=? e then n * 2 ^ e
  else (2 * n + 2 ^ (- e)) / 2 ^ (1 - e).

Definition decimal_digits (n : Z) : string :=
  NilZero.string_of_uint (N.to_uint (Z.to_N n)).

Fixpoint zeros (k : nat) : string :=
  match k with
  | O => EmptyString
  | S k' => String "0" (zeros k')
  end.

(** Steps 11.b-11.c of [toFixed]: the digits of [n] with a decimal point
    before the last [f] of them, padded with zeros on the left so that at
    least one digit stands before the point. *)
Definition fixed_digits (f : nat) (n : Z) : string :=
  let m := decimal_digits n in
  match f with
  | O => m
  | S _ =>
      let m := if (String.length m <=? f)%nat
               then zeros (f + 1 - String.length m) +:+ m else m in
      let k := String.length m in
      substring 0 (k - f) m +:+ "." +:+ substring (k - f) f m
  end.

#[local] Set Warnings "-register-all".

(* ================================================================== *)
(** ** JavaScript values

    The values the module handles are what [response.json()] can produce,
    plus [undefined] (a missing property).  An object is the list of its own
    properties; a lookup takes the first binding of a name. *)

Inductive JSValue : Type :=
| JUndefined
| JNull
| JBool (b : bool)
| JNum (x : float)
| JStr (s : string)
| JArr (items : list JSValue)
| JObj (props : list (string * JSValue)).

(** A thrown value: the error's name and its message. *)
Record JSError := { err_name : string; err_message : string }.

Definition TypeError (msg : string) : JSError :=
  {| err_name := "TypeError"; err_message := msg |}.
Definition Error (msg : string) : JSError :=
  {| err_name := "Error"; err_message := msg |}.

(** How an evaluation ends: with a value, or with a thrown error. *)
Inductive Completion (A : Type) : Type :=
| Normal (a : A)
| Abrupt (e : JSError).
Arguments Normal {A} a.
Arguments Abrupt {A} e.

(** Built-ins of the host that the module calls and whose algorithms are not
    part of this repository. *)
Class Host := {
  (** [Number::toString] on a finite, non-zero double: the shortest decimal
      that reads back as the same double. *)
  finiteToString : float -> string;
  (** [StringToNumber], used by [ToNumber] on strings. *)
  stringToNumber : string -> float;
  (** [parseFloat] on a string: the longest numeric prefix, else NaN. *)
  parseFloatString : string -> float;
  (** [new Intl.NumberFormat('en-LK', {style: 'currency', currency: 'LKR',
      minimumFractionDigits: 2}).format]. *)
  intlFormatCurrency : float -> string
}.

Section Conversions.
Context {host : Host}.

Definition numberToString (x : float) : string :=
  match x with
  | S754_nan => "NaN"
  | S754_infinity s => if s then "-Infinity" else "Infinity"
  | S754_zero _ => "0"
  | S754_finite s m e =>
      (if s then "-" else EmptyString)
        +:+ finiteToString (S754_finite false m e)
  end.

(** [Number.prototype.toFixed(f)]. *)
Definition toFixed (f : nat) (x : float) : string :=
  match x with
  | S754_nan | S754_infinity _ => numberToString x
  | S754_zero _ => fixed_digits f 0
  | S754_finite s m e =>
      (if s then "-" else EmptyString)
        +:+ (if mag_ge m e (10 ^ 21)
             then finiteToString (S754_finite false m e)
             else fixed_digits f (round_scaled f m e))
  end.

(** *** Conversions and property access *)

Definition ToBoolean (v : JSValue) : bool :=
  match v with
  | JUndefined | JNull => false
  | JBool b => b
  | JNum (S754_zero _) | JNum S754_nan => false
  | JNum _ => true
  | JStr s => negb (String.eqb s EmptyString)
  | JArr _ | JObj _ => true
  end.

Fixpoint ToString (v : JSValue) : string :=
  match v with
  | JUndefined => "undefined"
  | JNull => "null"
  | JBool b => if b then "true" else "false"
  | JNum x => numberToString x
  | JStr s => s
  | JArr items =>
      (* Array.prototype.join with a comma; null and undefined print empty *)
      let item v :=
        match v with
        | JUndefined | JNull => EmptyString
        | _ => ToString v
        end in
      (fix join (vs : list JSValue) : string :=
         match vs with
         | [] => EmptyString
         | [v] => item v
         | v :: rest => item v +:+ "," +:+ join rest
         end) items
  | JObj _ => "[object Object]"
  end.

Definition ToNumber (v : JSValue) : float :=
  match v with
  | JUndefined => S754_nan
  | JNull => S754_zero false
  | JBool b => if b then of_Z 1 else S754_zero false
  | JNum x => x
  | JStr s => stringToNumber s
  | JArr _ | JObj _ => stringToNumber (ToString v)
  end.

(** The global [parseFloat]: its argument is converted to a string and the
    longest numeric prefix is read back.  On a number the round trip through
    [Number::toString] returns the number itself, except that the sign of a
    negative zero is lost (its string is ["0"]). *)
Definition parseFloat (v : JSValue) : float :=
  match v with
  | JNum (S754_zero _) => S754_zero false
  | JNum x => x
  | _ => parseFloatString (ToString v)
  end.

(** [a || b]. *)
Definition js_or (a b : JSValue) : JSValue := if ToBoolean a then a else b.

Fixpoint lookup_prop (name : string) (props : list (string * JSValue))
  : JSValue :=
  match props with
  | [] => JUndefined
  | (k, v) :: rest => if String.eqb k name then v else lookup_prop name rest
  end.

(** [v.name] for a data property [name]: a [TypeError] on [null] and
    [undefined]; [length] of arrays and strings; no other property exists on a
    primitive or an array of JSON data under the names the module reads. *)
Definition get_prop (v : JSValue) (name : string) : Completion JSValue :=
  match v with
  | JUndefined | JNull =>
      Abrupt (TypeError ("Cannot read properties of " +:+ ToString v))
  | JObj props => Normal (lookup_prop name props)
  | JArr items =>
      Normal (if String.eqb name "length"
              then JNum (of_Z (Z.of_nat (List.length items))) else JUndefined)
  | JStr s =>
      Normal (if String.eqb name "length"
              then JNum (of_Z (Z.of_nat (String.length s))) else JUndefined)
  | JBool _ | JNum _ => Normal JUndefined
  end.

(** [v.toFixed(2)]: only numbers have the method. *)
Definition call_toFixed (v : JSValue) (digits : nat) : Completion string :=
  match v with
  | JNum x => Normal (toFixed digits x)
  | JUndefined | JNull =>
      Abrupt (TypeError ("Cannot read properties of " +:+ ToString v))
  | _ => Abrupt (TypeError "toFixed is not a function")
  end.

(** [v.slice(0, n)]: arrays and strings have the method. *)
Definition call_slice (v : JSValue) (n : nat) : Completion JSValue :=
  match v with
  | JArr items => Normal (JArr (firstn n items))
  | JStr s => Normal (JStr (substring 0 n s))
  | JUndefined | JNull =>
      Abrupt (TypeError ("Cannot read properties of " +:+ ToString v))
  | _ => Abrupt (TypeError "slice is not a function")
  end.

Definition lower_ascii (c : ascii) : ascii :=
  let n := nat_of_ascii c in
  if ((65 <=? n) && (n <=? 90))%nat then ascii_of_nat (n + 32) else c.

(** [String.prototype.toLowerCase] on the ASCII letters; the titles the module
    passes are ASCII, other bytes are kept. *)
Fixpoint toLowerCase (s : string) : string :=
  match s with
  | EmptyString => EmptyString
  | String c rest => String (lower_ascii c) (toLowerCase rest)
  end.

(** *** [CSEApi]: the formatting helpers *)

Record FormattedChange := {
  value : string;
  isPositive : bool;
  color : string
}.

Definition formatPercentageChange (change : JSValue) : FormattedChange :=
  let num := parseFloat change in
  let formatted := toFixed 2 num in
  {| value := formatted;
     isPositive := fge num (of_Z 0);
     color := if fge num (of_Z 0) then "positive" else "negative" |}.

Definition formatCurrency (v : JSValue) : string :=
  intlFormatCurrency (ToNumber v).

Definition formatLargeNumber (v : JSValue) : string :=
  let num := parseFloat v in
  if fge num (of_Z (10 ^ 9)) then
    toFixed 2 (fdiv num (of_Z (10 ^ 9))) +:+ "B"
  else if fge num (of_Z (10 ^ 6)) then
    toFixed 2 (fdiv num (of_Z (10 ^ 6))) +:+ "M"
  else if fge num (of_Z (10 ^ 3)) then
    toFixed 2 (fdiv num (of_Z (10 ^ 3))) +:+ "K"
  else toFixed 2 num.

End Conversions.

(* ================================================================== *)
(** ** The page, the cache and the effects of synchronous code *)

(** One entry of [CSEApi.cache].  [Date.now()] is an integral number of
    milliseconds, far below 2^53, so timestamps are integers. *)
Record CacheEntry := { data : JSValue; timestamp : Z }.

(** What an element holds after [textContent = s] (one text node) or
    [innerHTML = s] (the parsed markup). *)
Inductive NodeContent : Type :=
| TextContent (s : string)
| InnerHTML (s : string).

Record Element := { content : NodeContent; className : string }.

(** A call of [console.error]: the message and the error object passed after
    it, when there is one. *)
Record LogEntry := { log_message : string; log_error : option JSError }.

(** The mutable state the module works on: the cache of its one [CSEApi]
    instance, the elements of the page by id (the page itself is not part of
    this module; no element contains another placeholder), the console, and
    the clock read by [Date.now()].

    The markup assigned to [innerHTML] is kept as the text it is: the
    elements a browser makes of it are not entered in [document].  The module
    puts texts of the response into that markup as they come, so a text that
    is itself markup with an [id] would add an element that
    [getElementById] can find; the state describes the runs in which no
    assigned markup holds an element with an id. *)
Record World := {
  cache : gmap string CacheEntry;
  document : gmap string Element;
  console : list LogEntry;
  clock : Z
}.

Definition set_cache (f : gmap string CacheEntry -> gmap string CacheEntry)
  (w : World) : World :=
  {| cache := f (cache w); document := document w;
     console := console w; clock := clock w |}.
Definition set_document (f : gmap string Element -> gmap string Element)
  (w : World) : World :=
  {| cache := cache w; document := f (document w);
     console := console w; clock := clock w |}.
Definition set_console (f : list LogEntry -> list LogEntry) (w : World)
  : World :=
  {| cache := cache w; document := document w;
     console := f (console w); clock := clock w |}.
Definition set_clock (t : Z) (w : World) : World :=
  {| cache := cache w; document := document w;
     console := console w; clock := t |}.

(** An element obtained from [document.getElementById] is named by its id. *)
Definition ElementRef : Type := string.

(** The primitive effects of synchronous code, each with the type of its
    result. *)
Inductive Op : Type -> Type :=
| CacheGet (key : string) : Op (option CacheEntry)
| CacheSet (key : string) (entry : CacheEntry) : Op unit
| DateNow : Op Z
| GetElementById (id : string) : Op (option ElementRef)
| SetTextContent (el : ElementRef) (text : string) : Op unit
| SetInnerHTML (el : ElementRef) (html : string) : Op unit
| SetClassName (el : ElementRef) (cls : string) : Op unit
| ConsoleError (msg : string) (err : option JSError) : Op unit.

Definition perform {X : Type} (op : Op X) (w : World) : X * World :=
  match op in Op X return X * World with
  | CacheGet key => (cache w !! key, w)
  | CacheSet key entry => (tt, set_cache (insert key entry) w)
  | DateNow => (clock w, w)
  | GetElementById id =>
      (match document w !! id with Some _ => Some id | None => None end, w)
  | SetTextContent el text =>
      (tt, set_document
             (alter (fun e => {| content := TextContent text;
                                 className := className e |}) el) w)
  | SetInnerHTML el html =>
      (tt, set_document
             (alter (fun e => {| content := InnerHTML html;
                                 className := className e |}) el) w)
  | SetClassName el cls =>
      (tt, set_document
             (alter (fun e => {| content := content e;
                                 className := cls |}) el) w)
  | ConsoleError msg err =>
      (tt, set_console
             (fun l => l ++ [{| log_message := msg; log_error := err |}]) w)
  end.

(* ================================================================== *)
(** ** Asynchronous functions as resumption trees *)

(** What [fetch] resolves to, as far as the module reads it. *)
Record Response := { ok : bool; status : Z }.

(** An [async] function body.  [Act] is a synchronous effect; the other
    constructors are the points where the function is suspended:
    - [Yield]: an [await] whose continuation waits for its turn in the job
      queue;
    - [Fetch]: the request has been sent, the function awaits the response;
    - [ReadJson]: the function awaits [response.json()];
    - [All]: a call of [Promise.all] on functions that have yet to be
      started; [Joining] is the same once they have been, while no child has
      failed and some child is still running;
    - [Bg]: the children of a settled [Promise.all] (some may still run, their
      results are dropped) beside the function that awaited them. *)
Inductive Async (A : Type) : Type :=
| Ret (a : A)
| Throw (e : JSError)
| Act {X : Type} (op : Op X) (k : X -> Async A)
| Yield (next : Async A)
| Fetch (url method : string) (headers : list (string * string))
    (k : Completion Response -> Async A)
| ReadJson (resp : Response) (k : Completion JSValue -> Async A)
| All (children : list (Async JSValue))
    (k : Completion (list JSValue) -> Async A)
| Joining (children : list (Async JSValue))
    (k : Completion (list JSValue) -> Async A)
| Bg (children : list (Async JSValue)) (main : Async A).
Arguments Ret {A} a.
Arguments Throw {A} e.
Arguments Act {A X} op k.
Arguments Yield {A} next.
Arguments Fetch {A} url method headers k.
Arguments ReadJson {A} resp k.
Arguments All {A} children k.
Arguments Joining {A} children k.
Arguments Bg {A} children main.

(** [on_completion t f] runs [f] on the way [t] ends. *)
Fixpoint on_completion {A B : Type} (t : Async A)
  (f : Completion A -> Async B) : Async B :=
  match t with
  | Ret a => f (Normal a)
  | Throw e => f (Abrupt e)
  | Act op k => Act op (fun x => on_completion (k x) f)
  | Yield next => Yield (on_completion next f)
  | Fetch url method headers k =>
      Fetch url method headers (fun r => on_completion (k r) f)
  | ReadJson resp k => ReadJson resp (fun r => on_completion (k r) f)
  | All cs k => All cs (fun r => on_completion (k r) f)
  | Joining cs k => Joining cs (fun r => on_completion (k r) f)
  | Bg cs main => Bg cs (on_completion main f)
  end.

Definition complete {A : Type} (c : Completion A) : Async A :=
  match c with
  | Normal a => Ret a
  | Abrupt e => Throw e
  end.

Definition bind {A B : Type} (t : Async A) (f : A -> Async B) : Async B :=
  on_completion t (fun c =>
    match c with
    | Normal a => f a
    | Abrupt e => Throw e
    end).

(** [try { body } catch (error) { handler }]. *)
Definition try_catch {A : Type} (body : Async A) (handler : JSError -> Async A)
  : Async A :=
  on_completion body (fun c =>
    match c with
    | Normal a => Ret a
    | Abrupt e => handler e
    end).

(** [await p] for the promise of an asynchronous call [p]: the caller resumes
    in a later job, with the value or with the exception. *)
Definition await {A : Type} (p : Async A) : Async A :=
  on_completion p (fun c => Yield (complete c)).

Definition await_fetch (url method : string) (headers : list (string * string))
  : Async Response :=
  Fetch url method headers complete.

Definition await_json (resp : Response) : Async JSValue :=
  ReadJson resp complete.

Definition Promise_all (ps : list (Async JSValue)) : Async (list JSValue) :=
  All ps complete.

Definition act {X : Type} (op : Op X) : Async X := Act op Ret.

Declare Scope async_scope.
Delimit Scope async_scope with async.
Notation "'let*' x ':=' m 'in' k" := (bind m (fun x => k))
  (at level 10, x binder, m at level 100, k at level 200) : async_scope.
Notation "m ';;' k" := (bind m (fun _ => k))
  (at level 100, k at level 200, right associativity) : async_scope.

Definition bind_completion {A B : Type} (c : Completion A)
  (f : A -> Completion B) : Completion B :=
  match c with
  | Normal a => f a
  | Abrupt e => Abrupt e
  end.

Notation "'let?' x ':=' c 'in' k" := (bind_completion c (fun x => k))
  (at level 10, x binder, c at level 100, k at level 200).

(** *** Running a tree *)

(** How a tree has ended, if it has. *)
Fixpoint outcome {A : Type} (t : Async A) : option (Completion A) :=
  match t with
  | Ret a => Some (Normal a)
  | Throw e => Some (Abrupt e)
  | Bg _ main => outcome main
  | _ => None
  end.

Fixpoint first_rejection (cs : list (Async JSValue)) : option JSError :=
  match cs with
  | [] => None
  | c :: rest =>
      match outcome c with
      | Some (Abrupt e) => Some e
      | _ => first_rejection rest
      end
  end.

Fixpoint all_fulfilled (cs : list (Async JSValue)) : option (list JSValue) :=
  match cs with
  | [] => Some []
  | c :: rest =>
      match outcome c, all_fulfilled rest with
      | Some (Normal v), Some vs => Some (v :: vs)
      | _, _ => None
      end
  end.

(** [Promise.all] over started children: rejected with the first rejection,
    fulfilled with all the values once every child has one, pending
    otherwise.  The awaiting function resumes in a later job. *)
Definition join {A : Type} (cs : list (Async JSValue))
  (k : Completion (list JSValue) -> Async A) : Async A :=
  match first_rejection cs with
  | Some e => Bg cs (Yield (k (Abrupt e)))
  | None =>
      match all_fulfilled cs with
      | Some vs => Bg cs (Yield (k (Normal vs)))
      | None => Joining cs k
      end
  end.

(** [thread f ts w] applies [f] to each element in turn, passing the state
    along. *)
Definition thread {T : Type} (f : T -> World -> T * World)
  : list T -> World -> list T * World :=
  fix go (ts : list T) (w : World) : list T * World :=
    match ts with
    | [] => ([], w)
    | t :: rest =>
        let (t', w1) := f t w in
        let (rest', w2) := go rest w1 in
        (t' :: rest', w2)
    end.

(** [run_sync t w] runs [t] in [w] up to its next suspension: JavaScript runs
    a job to completion.  Calling the functions given to [Promise.all] starts
    each of them in turn, up to its first suspension. *)
Fixpoint run_sync {A : Type} (t : Async A) (w : World) {struct t}
  : Async A * World :=
  match t with
  | Act op k => let (x, w') := perform op w in run_sync (k x) w'
  | All cs k =>
      let (cs', w') := thread (@run_sync JSValue) cs w in
      (join cs' k, w')
  | _ => (t, w)
  end.

(** *** The event loop *)

(** What the host delivers to a suspended function. *)
Inductive Payload : Type :=
| Tick
| FetchSettled (r : Completion Response)
| JsonSettled (r : Completion JSValue).

(** Where in a tree a suspended function sits. *)
Inductive Dir : Type :=
| Child (i : nat)
| Main.

Record Event := { target : list Dir; payload : Payload; at_time : Z }.

(** [deliver p pl t w] resumes the function suspended at [p] in [t] with
    [pl] and runs it to its next suspension.  A payload that does not fit
    what is awaited at [p], or a path to nothing suspended, changes
    nothing. *)
Fixpoint deliver {A : Type} (p : list Dir) (pl : Payload) (t : Async A)
  (w : World) {struct p} : Async A * World :=
  match p with
  | [] =>
      match t, pl with
      | Yield next, Tick => run_sync next w
      | Fetch _ _ _ k, FetchSettled r => run_sync (k r) w
      | ReadJson _ k, JsonSettled r => run_sync (k r) w
      | _, _ => (t, w)
      end
  | Child i :: p' =>
      match t with
      | Joining cs k =>
          match cs !! i with
          | Some c =>
              let (c', w') := deliver p' pl c w in (join (<[i:=c']> cs) k, w')
          | None => (t, w)
          end
      | Bg cs main =>
          match cs !! i with
          | Some c =>
              let (c', w') := deliver p' pl c w in (Bg (<[i:=c']> cs) main, w')
          | None => (t, w)
          end
      | _ => (t, w)
      end
  | Main :: p' =>
      match t with
      | Bg cs main =>
          let (main', w') := deliver p' pl main w in (Bg cs main', w')
      | _ => (t, w)
      end
  end.

Definition handle {A : Type} (st : Async A * World) (ev : Event)
  : Async A * World :=
  deliver (target ev) (payload ev) (fst st) (set_clock (at_time ev) (snd st)).

(** The state after the events of a schedule, in order. *)
Definition exec {A : Type} (schedule : list Event) (st : Async A * World)
  : Async A * World :=
  fold_left handle schedule st.

(* ================================================================== *)
(** ** The module *)

Section Program.
Context {host : Host}.
Local Open Scope async_scope.

(** A double quote, for the attribute values of the markup. *)
Definition dq : string := String (ascii_of_nat 34) EmptyString.

(** *** [class CSEApi] *)

(** The fields set by the constructor; none is assigned again. *)
Definition baseUrl : string := "https://www.cse.lk/api".
Definition cacheTimeout : Z := 30000.

(** [makeApiCall(endpoint)]; every caller leaves [options] at its default
    [{}], so the request is always the POST with the JSON content type. *)
Definition makeApiCall (endpoint : string) : Async JSValue :=
  try_catch
    (let* response :=
       await_fetch (baseUrl +:+ endpoint) "POST"
         [("Content-Type", "application/json")] in
     if negb (ok response) then
       Throw (Error ("API call failed: " +:+ decimal_digits (status response)))
     else
       let* data := await_json response in
       Ret data)
    (fun error =>
       act (ConsoleError ("Error calling CSE API " +:+ endpoint +:+ ":")
              (Some error));;
       Ret JNull).

Definition getCachedData (key : string) : Async JSValue :=
  let* cached := act (CacheGet key) in
  match cached with
  | Some entry =>
      let* now := act DateNow in
      if now - timestamp entry <? cacheTimeout then Ret (data entry)
      else Ret JNull
  | None => Ret JNull
  end.

Definition setCachedData (key : string) (payload : JSValue) : Async unit :=
  let* now := act DateNow in
  act (CacheSet key {| data := payload; timestamp := now |}).

Definition getMarketSummary : Async JSValue :=
  let cacheKey := "marketSummary" in
  let* cached := getCachedData cacheKey in
  if ToBoolean cached then Ret cached
  else
    let* data := await (makeApiCall "/marketSummery") in
    (if ToBoolean data then setCachedData cacheKey data else Ret tt);;
    Ret data.

Definition getTopGainers : Async JSValue :=
  let cacheKey := "topGainers" in
  let* cached := getCachedData cacheKey in
  if ToBoolean cached then Ret cached
  else
    let* data := await (makeApiCall "/topGainers") in
    (if ToBoolean data then setCachedData cacheKey data else Ret tt);;
    Ret data.

Definition getTopLosers : Async JSValue :=
  let cacheKey := "topLosers" in
  let* cached := getCachedData cacheKey in
  if ToBoolean cached then Ret cached
  else
    let* data := await (makeApiCall "/topLosers") in
    (if ToBoolean data then setCachedData cacheKey data else Ret tt);;
    Ret data.

Definition getMostActive : Async JSValue :=
  let cacheKey := "mostActive" in
  let* cached := getCachedData cacheKey in
  if ToBoolean cached then Ret cached
  else
    let* data := await (makeApiCall "/mostActive") in
    (if ToBoolean data then setCachedData cacheKey data else Ret tt);;
    Ret data.

(** The one pattern the four getters are written on. *)
Definition cached_getter (cacheKey endpoint : string) : Async JSValue :=
  let* cached := getCachedData cacheKey in
  if ToBoolean cached then Ret cached
  else
    let* data := await (makeApiCall endpoint) in
    (if ToBoolean data then setCachedData cacheKey data else Ret tt);;
    Ret data.

(** *** [class CSEUI] *)

Definition showError (elementId message : string) : Async unit :=
  let* element := act (GetElementById elementId) in
  match element with
  | Some el =>
      act (SetInnerHTML el
             ("<div class=" +:+ dq +:+ "text-center text-danger" +:+ dq
                +:+ ">" +:+ message +:+ "</div>"))
  | None => Ret tt
  end;;
  act (ConsoleError ("CSE UI Error: " +:+ message) None).

Definition updateASPI : Async JSValue :=
  let* data := await getMarketSummary in
  if negb (ToBoolean data) then
    showError "ASPI" "Unable to fetch ASPI data";;
    Ret JUndefined
  else
    let* aspiElement := act (GetElementById "aspi-index") in
    let* changeElement := act (GetElementById "aspi-change") in
    match aspiElement with
    | Some el =>
        let* aspi := complete (get_prop data "ASPI") in
        if ToBoolean aspi then
          let* text := complete (call_toFixed aspi 2) in
          act (SetTextContent el text)
        else Ret tt
    | None => Ret tt
    end;;
    match changeElement with
    | Some el =>
        let* aspiChange := complete (get_prop data "ASPIChange") in
        if ToBoolean aspiChange then
          let change := formatPercentageChange aspiChange in
          act (SetTextContent el (value change +:+ "%"));;
          act (SetClassName el ("cse-change " +:+ color change))
        else Ret tt
    | None => Ret tt
    end;;
    Ret JUndefined.

(** [stocks.forEach(f)] threading the string that [f] appends to; only an
    array has the method. *)
Fixpoint forEach_items {S : Type} (items : list JSValue)
  (f : S -> JSValue -> Completion S) (acc : S) : Completion S :=
  match items with
  | [] => Normal acc
  | item :: rest => let? acc' := f acc item in forEach_items rest f acc'
  end.

Definition forEach {S : Type} (v : JSValue)
  (f : S -> JSValue -> Completion S) (acc : S) : Completion S :=
  match v with
  | JArr items => forEach_items items f acc
  | JUndefined | JNull =>
      Abrupt (TypeError ("Cannot read properties of " +:+ ToString v))
  | _ => Abrupt (TypeError "forEach is not a function")
  end.

(** [v === 0]. *)
Definition is_strictly_zero (v : JSValue) : bool :=
  match v with
  | JNum x => feq x (of_Z 0)
  | _ => false
  end.

(** [v > 0]. *)
Definition is_greater_than_zero (v : JSValue) : bool :=
  fgt (ToNumber v) (of_Z 0).

Definition table_head (title : string) : string :=
  "
      <div class=" +:+ dq +:+ "card-custom" +:+ dq +:+ ">
        <div class=" +:+ dq +:+ "card-header-custom" +:+ dq +:+ ">
          <h5 class=" +:+ dq +:+ "mb-0" +:+ dq +:+ ">Top " +:+ title +:+ "</h5>
        </div>
        <div class=" +:+ dq +:+ "card-body p-0" +:+ dq +:+ ">
          <div class=" +:+ dq +:+ "table-responsive" +:+ dq +:+ ">
            <table class=" +:+ dq +:+ "table table-hover mb-0" +:+ dq +:+ ">
              <thead>
                <tr>
                  <th>Symbol</th>
                  <th>Price</th>
                  <th>Change</th>
                  <th>% Change</th>
                </tr>
              </thead>
              <tbody>
    ".

Definition table_foot : string :=
  "
              </tbody>
            </table>
          </div>
        </div>
      </div>
    ".

Definition table_row (html : string) (stock : JSValue) : Completion string :=
  let? c := get_prop stock "change" in
  let? pc := get_prop stock "percentageChange" in
  let change := formatPercentageChange (js_or (js_or c pc) (JNum (of_Z 0))) in
  let? symbol := get_prop stock "symbol" in
  let? name := get_prop stock "name" in
  let? price := get_prop stock "price" in
  let? lastPrice := get_prop stock "lastPrice" in
  Normal (html +:+ "
        <tr>
          <td><strong>"
    +:+ ToString (js_or (js_or symbol name) (JStr "N/A"))
    +:+ "</strong></td>
          <td>"
    +:+ formatCurrency (js_or (js_or price lastPrice) (JNum (of_Z 0)))
    +:+ "</td>
          <td class=" +:+ dq +:+ color change +:+ dq +:+ ">"
    +:+ formatCurrency (js_or c (JNum (of_Z 0)))
    +:+ "</td>
          <td class=" +:+ dq +:+ color change +:+ dq +:+ ">"
    +:+ value change +:+ "%</td>
        </tr>
      ").

Definition createStocksTable (stocks : JSValue) (title : string)
  : Completion string :=
  let? no_rows :=
    (if negb (ToBoolean stocks) then Normal true
     else let? len := get_prop stocks "length" in
          Normal (is_strictly_zero len)) in
  if (no_rows : bool) then
    Normal ("<div class=" +:+ dq +:+ "text-center text-muted" +:+ dq
              +:+ ">No " +:+ toLowerCase title +:+ " data available</div>")
  else
    let html := table_head title in
    let? html := forEach stocks table_row html in
    Normal (html +:+ table_foot).

Definition updateTopGainers : Async JSValue :=
  let* data := await getTopGainers in
  if negb (ToBoolean data) then
    showError "gainers" "Unable to fetch top gainers data";;
    Ret JUndefined
  else
    let* container := act (GetElementById "top-gainers") in
    match container with
    | None => Ret JUndefined
    | Some el =>
        let* rows := complete (call_slice data 5) in
        let* html := complete (createStocksTable rows "Gainers") in
        act (SetInnerHTML el html);;
        Ret JUndefined
    end.

Definition updateTopLosers : Async JSValue :=
  let* data := await getTopLosers in
  if negb (ToBoolean data) then
    showError "losers" "Unable to fetch top losers data";;
    Ret JUndefined
  else
    let* container := act (GetElementById "top-losers") in
    match container with
    | None => Ret JUndefined
    | Some el =>
        let* rows := complete (call_slice data 5) in
        let* html := complete (createStocksTable rows "Losers") in
        act (SetInnerHTML el html);;
        Ret JUndefined
    end.

Definition updateMostActive : Async JSValue :=
  let* data := await getMostActive in
  if negb (ToBoolean data) then
    showError "active" "Unable to fetch most active data";;
    Ret JUndefined
  else
    let* container := act (GetElementById "most-active") in
    match container with
    | None => Ret JUndefined
    | Some el =>
        let* rows := complete (call_slice data 5) in
        let* html := complete (createStocksTable rows "Most Active") in
        act (SetInnerHTML el html);;
        Ret JUndefined
    end.

Definition updateMarketSummary : Async JSValue :=
  let* data := await getMarketSummary in
  if negb (ToBoolean data) then
    showError "summary" "Unable to fetch market summary";;
    Ret JUndefined
  else
    let* aspiElement := act (GetElementById "market-aspi") in
    match aspiElement with
    | Some el =>
        let* aspi := complete (get_prop data "ASPI") in
        let* text :=
          (if ToBoolean aspi then complete (call_toFixed aspi 2)
           else Ret "N/A") in
        act (SetTextContent el text)
    | None => Ret tt
    end;;
    let* turnoverElement := act (GetElementById "market-turnover") in
    match turnoverElement with
    | Some el =>
        let* turnover := complete (get_prop data "turnover") in
        if ToBoolean turnover then
          act (SetTextContent el (formatLargeNumber turnover))
        else Ret tt
    | None => Ret tt
    end;;
    let* marketCapElement := act (GetElementById "market-cap") in
    match marketCapElement with
    | Some el =>
        let* marketCap := complete (get_prop data "marketCap") in
        if ToBoolean marketCap then
          act (SetTextContent el (formatLargeNumber marketCap))
        else Ret tt
    | None => Ret tt
    end;;
    let* changeElement := act (GetElementById "market-change") in
    match changeElement with
    | Some el =>
        let* aspiChange := complete (get_prop data "ASPIChange") in
        if ToBoolean aspiChange then
          let change := formatPercentageChange aspiChange in
          act (SetTextContent el (value change +:+ "%"));;
          act (SetClassName el ("cse-change " +:+ color change))
        else Ret tt
    | None => Ret tt
    end;;
    Ret JUndefined.

(** One ticker item; [sign] is the text put before the percentage. *)
Definition ticker_item (sign : string) (tickerItems : list string)
  (stock : JSValue) : Completion (list string) :=
  let? c := get_prop stock "change" in
  let? pc := get_prop stock "percentageChange" in
  let change := formatPercentageChange (js_or (js_or c pc) (JNum (of_Z 0))) in
  let? symbol := get_prop stock "symbol" in
  let? name := get_prop stock "name" in
  let? price := get_prop stock "price" in
  let? lastPrice := get_prop stock "lastPrice" in
  Normal (tickerItems ++
            [ToString (js_or symbol name) +:+ ": "
               +:+ formatCurrency (js_or (js_or price lastPrice)
                                     (JNum (of_Z 0)))
               +:+ " (" +:+ sign +:+ value change +:+ "%)"]).

(** [items.join(sep)] on strings. *)
Fixpoint join_strings (sep : string) (items : list string) : string :=
  match items with
  | [] => EmptyString
  | [s] => s
  | s :: rest => s +:+ sep +:+ join_strings sep rest
  end.

(** The separator of the ticker: a bullet (U+2022) between two spaces. *)
Definition ticker_separator : string := " • ".

(** The part of [createTickerContent] after the two results have arrived. *)
Definition ticker_text (gainers losers : JSValue) : Completion string :=
  let tickerItems := [] in
  let? tickerItems :=
    (let? some :=
       (if ToBoolean gainers
        then let? len := get_prop gainers "length" in
             Normal (is_greater_than_zero len)
        else Normal false) in
     if (some : bool) then
       let? top := call_slice gainers 3 in
       forEach top (ticker_item "+") tickerItems
     else Normal tickerItems) in
  let? tickerItems :=
    (let? some :=
       (if ToBoolean losers
        then let? len := get_prop losers "length" in
             Normal (is_greater_than_zero len)
        else Normal false) in
     if (some : bool) then
       let? top := call_slice losers 3 in
       forEach top (ticker_item EmptyString) tickerItems
     else Normal tickerItems) in
  Normal (join_strings ticker_separator tickerItems).

Definition createTickerContent : Async string :=
  let* results := await (Promise_all [getTopGainers; getTopLosers]) in
  let gainers := nth 0 results JUndefined in
  let losers := nth 1 results JUndefined in
  complete (ticker_text gainers losers).

Definition ticker_placeholder : string :=
  "CSE Market Data • Live Updates • Real-time Trading".

Definition updateTicker : Async JSValue :=
  let* tickerElement := act (GetElementById "ticker-content") in
  match tickerElement with
  | None => Ret JUndefined
  | Some el =>
      let* content := await createTickerContent in
      if negb (String.eqb content EmptyString) then
        act (SetTextContent el content);;
        Ret JUndefined
      else
        act (SetTextContent el ticker_placeholder);;
        Ret JUndefined
  end.

Definition initialize : Async JSValue :=
  try_catch
    (await (Promise_all
              [updateASPI; updateTopGainers; updateTopLosers;
               updateMostActive; updateMarketSummary; updateTicker]);;
     Ret JUndefined)
    (fun error =>
       act (ConsoleError "Error initializing CSE data:" (Some error));;
       Ret JUndefined).

(** The four getters with their cache keys and endpoints. *)
Definition getters : list (Async JSValue * string * string) :=
  [(getMarketSummary, "marketSummary", "/marketSummery");
   (getTopGainers, "topGainers", "/topGainers");
   (getTopLosers, "topLosers", "/topLosers");
   (getMostActive, "mostActive", "/mostActive")].

(** What [initialize] does once [Promise.all] has settled with [r]. *)
Definition initialize_rest (r : Completion (list JSValue)) : Async JSValue :=
  try_catch (await (complete r);; Ret JUndefined)
    (fun error =>
       act (ConsoleError "Error initializing CSE data:" (Some error));;
       Ret JUndefined).

End Program.

(* ================================================================== *)
(** ** Vocabulary of the specification *)

Definition is_digit (c : ascii) : bool :=
  ((48 <=? nat_of_ascii c) && (nat_of_ascii c <=? 57))%nat.

Fixpoint all_digits (s : string) : bool :=
  match s with
  | EmptyString => true
  | String c rest => is_digit c && all_digits rest
  end.

(** Digits, at least one before the point when [seen] is false, then a point
    and exactly two digits. *)
Fixpoint int_then_frac (s : string) (seen : bool) : bool :=
  match s with
  | EmptyString => false
  | String c rest =>
      if is_digit c then int_then_frac rest true
      else if Ascii.eqb c "." then
        seen && (String.length rest =? 2)%nat && all_digits rest
      else false
  end.

(** The text is a decimal numeral with exactly two fraction digits, with or
    without a minus sign. *)
Definition two_fraction_digits (s : string) : bool :=
  match s with
  | EmptyString => false
  | String c rest =>
      if Ascii.eqb c "-" then int_then_frac rest false
      else int_then_frac s false
  end.

(** A finite double of magnitude below 10^21, the range in which [toFixed]
    prints digits rather than the exponent form. *)
Definition prints_fixed (x : float) : bool :=
  match x with
  | S754_zero _ => true
  | S754_finite _ m e => negb (mag_ge m e (10 ^ 21))
  | _ => false
  end.

(** The thresholds of [formatLargeNumber] with their suffixes, smallest
    first. *)
Definition thresholds : list (float * string) :=
  [(of_Z (10 ^ 3), "K"); (of_Z (10 ^ 6), "M"); (of_Z (10 ^ 9), "B")].

(** The largest threshold that [x] meets or exceeds, if there is one. *)
Definition largest_met (x : float) : option (float * string) :=
  fold_left (fun best th => if fge x (fst th) then Some th else best)
    thresholds None.

(** A host for the closed examples below.  Its [Number::toString] is exact on
    the doubles that are integers of magnitude below 10^21, the only numbers
    the examples print that way; it reads no strings; its currency format is
    the currency code, a space and the amount with two fraction digits. *)
Definition sample_host : Host :=
  {| finiteToString := fun x =>
       match x with
       | S754_finite _ m e => fixed_digits 0 (round_scaled 0 m e)
       | _ => "0"
       end;
     stringToNumber := fun _ => S754_nan;
     parseFloatString := fun _ => S754_nan;
     intlFormatCurrency := fun x =>
       match x with
       | S754_finite s m e =>
           "LKR " +:+ (if s then "-" else EmptyString)
             +:+ fixed_digits 2 (round_scaled 2 m e)
       | S754_zero _ => "LKR 0.00"
       | _ => "LKR NaN"
       end |}.

(** [needle] occurs in [hay]. *)
Fixpoint contains (needle hay : string) : bool :=
  String.prefix needle hay ||
  match hay with
  | EmptyString => false
  | String _ rest => contains needle rest
  end.

Section Specification.
Context {host : Host}.

(** Modelled on the words of the specification: the magnitude is compared
    through its absolute value. *)
Definition spec_formatLargeNumber (x : float) : string :=
  if fge (SFabs x) (of_Z (10 ^ 9)) then
    toFixed 2 (fdiv x (of_Z (10 ^ 9))) +:+ "B"
  else if fge (SFabs x) (of_Z (10 ^ 6)) then
    toFixed 2 (fdiv x (of_Z (10 ^ 6))) +:+ "M"
  else if fge (SFabs x) (of_Z (10 ^ 3)) then
    toFixed 2 (fdiv x (of_Z (10 ^ 3))) +:+ "K"
  else toFixed 2 x.

(** [stock.name] where reading it does not throw. *)
Definition field (stock : JSValue) (name : string) : JSValue :=
  match get_prop stock name with
  | Normal v => v
  | Abrupt _ => JUndefined
  end.


End Specification.


(** A value whose properties can be read. *)
Definition is_row (v : JSValue) : bool :=
  match v with
  | JUndefined | JNull => false
  | _ => true
  end.


(** *** Disciplines on effects

    A predicate on effects, and what it means for a function to keep to one
    discipline until its first suspension and to another from then on. *)

Definition OpPred : Type := forall X : Type, Op X -> Prop.

Definition all_of {T : Type} (f : T -> Prop) : list T -> Prop :=
  fix go (ts : list T) : Prop :=
    match ts with
    | [] => True
    | t :: rest => f t /\ go rest
    end.

(** The results an effect can have, whatever the state: [getElementById(id)]
    gives the element of that id or nothing. *)
Definition possible {X : Type} (op : Op X) : X -> Prop :=
  match op in Op X return X -> Prop with
  | GetElementById id => fun x => x = None \/ x = Some id
  | _ => fun _ => True
  end.

Section Discipline.
Variables (before after : OpPred) (thrown : JSError -> Prop).

Definition allowed (started : bool) : OpPred :=
  fun X op => if started then after X op else before X op.

(** [obeys started t]: every effect of [t] before its first suspension is
    allowed by [before] (by [after] when [started]), every later one by
    [after], and every error it can end with satisfies [thrown]. *)
Fixpoint obeys (started : bool) {A : Type} (t : Async A) {struct t} : Prop :=
  match t with
  | Ret _ => True
  | Throw e => thrown e
  | Act op k =>
      allowed started _ op /\ forall x, possible op x -> obeys started (k x)
  | Yield next => obeys true next
  | Fetch _ _ _ k => forall r, obeys true (k r)
  | ReadJson _ k => forall r, obeys true (k r)
  | All cs k =>
      all_of (@obeys started JSValue) cs /\ forall r, obeys true (k r)
  | Joining cs k =>
      all_of (@obeys true JSValue) cs /\ forall r, obeys true (k r)
  | Bg cs main => all_of (@obeys true JSValue) cs /\ obeys true main
  end.

End Discipline.

(** Effects that change nothing. *)
Definition read_only : OpPred := fun X op =>
  match op with
  | CacheGet _ | DateNow | GetElementById _ => True
  | _ => False
  end.

(** Effects of a function that owns the elements [S]: it writes to no other
    element, and it does not read the cache. *)
Definition owns (S : gset string) : OpPred := fun X op =>
  match op with
  | CacheGet _ => False
  | SetTextContent el _ | SetInnerHTML el _ | SetClassName el _ => el ∈ S
  | _ => True
  end.

(** Effects that leave the elements [S] alone. *)
Definition avoids (S : gset string) : OpPred := fun X op =>
  match op with
  | SetTextContent el _ | SetInnerHTML el _ | SetClassName el _ => el ∉ S
  | _ => True
  end.

(** Effects of a getter once it has been suspended: it stores no falsy
    payload in the cache, does not read the cache again and writes to no
    element. *)
Definition caches_truthy : OpPred := fun X op =>
  match op with
  | CacheSet _ entry => ToBoolean (data entry) = true
  | CacheGet _ | SetTextContent _ _ | SetInnerHTML _ _ | SetClassName _ _ =>
      False
  | _ => True
  end.

(** The elements each update of [CSEUI] writes to. *)
Definition region_ASPI : gset string :=
  {[ "ASPI"; "aspi-index"; "aspi-change" ]}.
Definition region_gainers : gset string := {[ "gainers"; "top-gainers" ]}.
Definition region_losers : gset string := {[ "losers"; "top-losers" ]}.
Definition region_active : gset string := {[ "active"; "most-active" ]}.
Definition region_summary : gset string :=
  {[ "summary"; "market-aspi"; "market-turnover"; "market-cap";
     "market-change" ]}.
Definition region_ticker : gset string := {[ "ticker-content" ]}.

Definition regions : list (gset string) :=
  [region_ASPI; region_gainers; region_losers; region_active;
   region_summary; region_ticker].

(** The two states have the same elements, and the same content in the
    elements [S]. *)
Definition same_page (w1 w2 : World) : Prop :=
  forall id, is_Some (document w1 !! id) <-> is_Some (document w2 !! id).
Definition agree_on (S : gset string) (w1 w2 : World) : Prop :=
  forall id, id ∈ S -> document w1 !! id = document w2 !! id.

(** What [getCachedData(key)] returns in a state. *)
Definition cached_value (key : string) (w : World) : JSValue :=
  match cache w !! key with
  | Some entry =>
      if clock w - timestamp entry <? cacheTimeout then data entry else JNull
  | None => JNull
  end.

Definition event (p : list Dir) (pl : Payload) (tm : Z) : Event :=
  {| target := p; payload := pl; at_time := tm |}.

(** The fragment [showError] writes. *)
Definition error_fragment (message : string) : NodeContent :=
  InnerHTML ("<div class=" +:+ dq +:+ "text-center text-danger" +:+ dq
               +:+ ">" +:+ message +:+ "</div>").

Definition with_content (c : NodeContent) (e : Element) : Element :=
  {| content := c; className := className e |}.

Definition any_op : OpPred := fun _ _ => True.

(** *** Source trees, suspended trees, and resuming the caller *)

(** A tree as the source denotes it: nothing in it has been started. *)
Fixpoint code {A : Type} (t : Async A) {struct t} : Prop :=
  match t with
  | Ret _ | Throw _ => True
  | Act _ k => forall x, code (k x)
  | Yield next => code next
  | Fetch _ _ _ k => forall r, code (k r)
  | ReadJson _ k => forall r, code (k r)
  | All _ k => forall r, code (k r)
  | Joining _ _ | Bg _ _ => False
  end.

(** A tree as [run_sync] leaves it: ended or suspended, with the source of
    what follows. *)
Fixpoint suspended {A : Type} (t : Async A) {struct t} : Prop :=
  match t with
  | Ret _ | Throw _ => True
  | Act _ _ | All _ _ => False
  | Yield next => code next
  | Fetch _ _ _ k => forall r, code (k r)
  | ReadJson _ k => forall r, code (k r)
  | Joining _ k => forall r, code (k r)
  | Bg _ main => suspended main
  end.

(** [resume t f w]: where [on_completion t f] stands once [t] has reached
    the state [t] in [w].  If [t] has ended, [f] runs at once. *)
Fixpoint resume {A B : Type} (t : Async A) (f : Completion A -> Async B)
  (w : World) {struct t} : Async B * World :=
  match t with
  | Ret a => run_sync (f (Normal a)) w
  | Throw e => run_sync (f (Abrupt e)) w
  | Bg cs main => let (main', w') := resume main f w in (Bg cs main', w')
  | _ => (on_completion t f, w)
  end.

(** The tree has not ended before any event of the schedule. *)
Fixpoint pending_through {A : Type} (schedule : list Event)
  (st : Async A * World) : Prop :=
  match schedule with
  | [] => True
  | ev :: rest => outcome (fst st) = None /\ pending_through rest (handle st ev)
  end.

(** Where the function that awaited a settled [Promise.all] sits. *)
Fixpoint main_path {A : Type} (t : Async A) : list Dir :=
  match t with
  | Bg _ main => Main :: main_path main
  | _ => []
  end.

(** [p], called in [w], stays pending through the schedule and is in state
    [t'] in [w'] after it. *)
Definition reaches {A : Type} (p : Async A) (w : World)
  (schedule : list Event) (t' : Async A) (w' : World) : Prop :=
  pending_through schedule (run_sync p w) /\
  exec schedule (run_sync p w) = (t', w').

(** [p] returns [v]: it reaches a state that has ended with [v]. *)
Definition returns {A : Type} (p : Async A) (w : World)
  (schedule : list Event) (v : A) (w' : World) : Prop :=
  reaches p w schedule (Ret v) w'.

(** How a call of the remote service ends: the request fails, the response
    has a status outside the success range, its body is not JSON, or the
    body parses to a value. *)
Inductive Delivery : Type :=
| NetworkFailure (e : JSError)
| HttpError (resp : Response)
| BadBody (resp : Response) (e : JSError)
| Body (resp : Response) (payload : JSValue).

Definition delivery_ok (d : Delivery) : Prop :=
  match d with
  | NetworkFailure _ => True
  | HttpError resp => ok resp = false
  | BadBody resp _ | Body resp _ => ok resp = true
  end.

(** The events of a delivery to the function suspended at [p]: the response
    at time [t1] and, when it is read, the body at [t2]. *)
Definition delivery_events (p : list Dir) (d : Delivery) (t1 t2 : Z)
  : list Event :=
  match d with
  | NetworkFailure e => [event p (FetchSettled (Abrupt e)) t1]
  | HttpError resp => [event p (FetchSettled (Normal resp)) t1]
  | BadBody resp e =>
      [event p (FetchSettled (Normal resp)) t1;
       event p (JsonSettled (Abrupt e)) t2]
  | Body resp payload =>
      [event p (FetchSettled (Normal resp)) t1;
       event p (JsonSettled (Normal payload)) t2]
  end.

Definition delivery_end (d : Delivery) (t1 t2 : Z) : Z :=
  match d with
  | NetworkFailure _ | HttpError _ => t1
  | BadBody _ _ | Body _ _ => t2
  end.

(** What [makeApiCall] returns for a delivery, and the error it logs. *)
Definition delivery_result (d : Delivery) : JSValue :=
  match d with
  | Body _ payload => payload
  | _ => JNull
  end.

Definition delivery_error (d : Delivery) : option JSError :=
  match d with
  | NetworkFailure e | BadBody _ e => Some e
  | HttpError resp =>
      Some (Error ("API call failed: " +:+ decimal_digits (status resp)))
  | Body _ _ => None
  end.

Definition delivery_log (endpoint : string) (d : Delivery) : list LogEntry :=
  match delivery_error d with
  | Some e =>
      [{| log_message := "Error calling CSE API " +:+ endpoint +:+ ":";
          log_error := Some e |}]
  | None => []
  end.

(** The state once [makeApiCall(endpoint)] has dealt with the delivery. *)
Definition after_delivery (endpoint : string) (d : Delivery) (t1 t2 : Z)
  (w : World) : World :=
  set_console (fun l => l ++ delivery_log endpoint d)
    (set_clock (delivery_end d t1 t2) w).

(** The state once a getter has handled the value [v] it fetched: a truthy
    value is stored under the key with the time of the moment. *)
Definition stored (key : string) (v : JSValue) (w : World) : World :=
  if ToBoolean v
  then set_cache (insert key {| data := v; timestamp := clock w |}) w
  else w.

(** The children of a [Promise.all] that has been started. *)
Definition children {A : Type} (t : Async A) : list (Async JSValue) :=
  match t with
  | Joining cs _ | Bg cs _ => cs
  | _ => []
  end.

(** The events of a schedule that go to child [i], as that child sees
    them. *)
Definition project (i : nat) (schedule : list Event) : list Event :=
  omap (fun ev =>
          match target ev with
          | Child j :: p =>
              if (j =? i)%nat
              then Some {| target := p; payload := payload ev;
                           at_time := at_time ev |}
              else None
          | _ => None
          end) schedule.

(* ================================================================== *)
(** ** Vocabulary of the properties *)

(** Induction on trees, through the children of a [Promise.all]. *)
Section AsyncInduction.
Variable P : forall A : Type, Async A -> Prop.
Hypothesis HRet : forall A (a : A), P A (Ret a).
Hypothesis HThrow : forall A e, P A (Throw e).
Hypothesis HAct : forall A X (op : Op X) (k : X -> Async A),
  (forall x, P A (k x)) -> P A (Act op k).
Hypothesis HYield : forall A (t : Async A), P A t -> P A (Yield t).
Hypothesis HFetch : forall A url method headers (k : _ -> Async A),
  (forall r, P A (k r)) -> P A (Fetch url method headers k).
Hypothesis HReadJson : forall A resp (k : _ -> Async A),
  (forall r, P A (k r)) -> P A (ReadJson resp k).
Hypothesis HAll : forall A cs (k : _ -> Async A),
  Forall (P JSValue) cs -> (forall r, P A (k r)) -> P A (All cs k).
Hypothesis HJoining : forall A cs (k : _ -> Async A),
  Forall (P JSValue) cs -> (forall r, P A (k r)) -> P A (Joining cs k).
Hypothesis HBg : forall A cs (main : Async A),
  Forall (P JSValue) cs -> P A main -> P A (Bg cs main).

Fixpoint Async_nested_ind (A : Type) (t : Async A) {struct t} : P A t :=
  let children :=
    fix children (cs : list (Async JSValue)) : Forall (P JSValue) cs :=
      match cs with
      | [] => @List.Forall_nil _ _
      | c :: rest =>
          @List.Forall_cons _ _ c rest (Async_nested_ind JSValue c)
            (children rest)
      end in
  match t with
  | Ret a => HRet A a
  | Throw e => HThrow A e
  | Act op k => HAct A _ op k (fun x => Async_nested_ind A (k x))
  | Yield next => HYield A next (Async_nested_ind A next)
  | Fetch url method headers k =>
      HFetch A url method headers k (fun r => Async_nested_ind A (k r))
  | ReadJson resp k => HReadJson A resp k (fun r => Async_nested_ind A (k r))
  | All cs k => HAll A cs k (children cs) (fun r => Async_nested_ind A (k r))
  | Joining cs k =>
      HJoining A cs k (children cs) (fun r => Async_nested_ind A (k r))
  | Bg cs main => HBg A cs main (children cs) (Async_nested_ind A main)
  end.

End AsyncInduction.

Section PoolVocabulary.
Variable S : gset string.
Variable i : nat.

(** The part of a started [Promise.all] beside its children. *)
Definition pool_rest {A : Type} (t : Async A) : Prop :=
  match t with
  | Joining _ k =>
      forall r, obeys read_only (avoids S) (fun _ => True) true (k r)
  | Bg _ main => obeys read_only (avoids S) (fun _ => True) true main
  | _ => False
  end.

(** A pool whose child [i] is [c] and which otherwise leaves [S] alone. *)
Definition pool_inv {A : Type} (t : Async A) (c : Async JSValue) : Prop :=
  children t !! i = Some c /\
  (forall j cj, j <> i -> children t !! j = Some cj ->
     obeys read_only (avoids S) (fun _ => True) true cj) /\
  pool_rest t.

(** What the event does to child [i] run on its own. *)
Definition solo_handle (st : Async JSValue * World) (ev : Event)
  : Async JSValue * World :=
  match target ev with
  | Child j :: p =>
      if (j =? i)%nat
      then handle st {| target := p; payload := payload ev;
                        at_time := at_time ev |}
      else st
  | _ => st
  end.

End PoolVocabulary.

Section PropertyVocabulary.
Context {host : Host}.

(** Two states that a function owning [S] cannot tell apart. *)
Definition alike (S : gset string) (w1 w2 : World) : Prop :=
  clock w1 = clock w2 /\ same_page w1 w2 /\ agree_on S w1 w2.

(** A world with an empty cache and no element yet, at time 1000. *)
Definition cold_world : World :=
  {| cache := ∅; document := ∅; console := []; clock := 1000 |}.

Definition ok_response : Response := {| ok := true; status := 200 |}.

(** A page with every placeholder the module names, each holding a dash, an
    empty cache, at time 1000. *)
Definition blank : Element := {| content := TextContent "-"; className := EmptyString |}.

Definition sample_page : World :=
  {| cache := ∅;
     document :=
       list_to_map
         (map (fun id => (id, blank))
            ["ASPI"; "aspi-index"; "aspi-change"; "gainers"; "top-gainers";
             "losers"; "top-losers"; "active"; "most-active"; "summary";
             "market-aspi"; "market-turnover"; "market-cap"; "market-change";
             "ticker-content"]);
     console := [];
     clock := 1000 |}.



(** A field of the summary that is [0] or is not there. *)
Definition zero_or_missing (v : JSValue) : Prop :=
  v = JUndefined \/ exists s : bool, v = JNum (S754_zero s).

(** Which field each element of the dashboard and of the index shows. *)
Definition summary_fields : list (string * string) :=
  [("market-turnover", "turnover"); ("market-cap", "marketCap");
   ("market-change", "ASPIChange")].
Definition aspi_fields : list (string * string) :=
  [("aspi-index", "ASPI"); ("aspi-change", "ASPIChange")].

(** The page once [update], called in [w], has seen the schedule. *)
Definition page_after (update : Async JSValue) (w : World)
  (schedule : list Event) : gmap string Element :=
  document (snd (exec schedule (run_sync update w))).

(** A summary whose four fields are all [0]. *)
Definition flat_summary : JSValue :=
  JObj [("ASPI", JNum (of_Z 0)); ("ASPIChange", JNum (of_Z 0));
        ("turnover", JNum (of_Z 0)); ("marketCap", JNum (of_Z 0))].

Definition summary_arrives : list Event :=
  delivery_events [] (Body ok_response flat_summary) 1010 1020
    ++ [event [] Tick 1021].

(** The six updates [initialize] starts, in its order, each with the
    elements it writes to. *)
Definition updates : list (Async JSValue * gset string) :=
  [(updateASPI, region_ASPI); (updateTopGainers, region_gainers);
   (updateTopLosers, region_losers); (updateMostActive, region_active);
   (updateMarketSummary, region_summary); (updateTicker, region_ticker)].

(** The updates that report a failure, with the getter each awaits, the
    element [showError] is called on and the message. *)
Definition failure_notices
  : list (Async JSValue * Async JSValue * string * string) :=
  [(updateASPI, getMarketSummary, "ASPI", "Unable to fetch ASPI data");
   (updateTopGainers, getTopGainers, "gainers",
    "Unable to fetch top gainers data");
   (updateTopLosers, getTopLosers, "losers",
    "Unable to fetch top losers data");
   (updateMostActive, getMostActive, "active",
    "Unable to fetch most active data");
   (updateMarketSummary, getMarketSummary, "summary",
    "Unable to fetch market summary")].

(** The events of a request suspended at [p] that ends as [d], and the turn
    in which the getter resumes. *)
Definition request (p : list Dir) (d : Delivery) (tm : Z) : list Event :=
  delivery_events p d tm (tm + 1) ++ [event p Tick (tm + 2)].

(** The same for the request of update [i] of a pass, and the turn in which
    the update resumes. *)
Definition answer (i : nat) (d : Delivery) (tm : Z) : list Event :=
  request [Child i] d tm ++ [event [Child i] Tick (tm + 3)].

Definition stock (symbol : string) (price change : Z) : JSValue :=
  JObj [("symbol", JStr symbol); ("price", JNum (of_Z price));
        ("change", JNum (of_Z change))].

Definition sample_gainers : JSValue := JArr [stock "ABC" 10 2].
Definition sample_losers : JSValue := JArr [stock "DEF" 5 (-1)].
Definition sample_summary : JSValue :=
  JObj [("ASPI", JNum (of_Z 12000)); ("ASPIChange", JNum (of_Z 1));
        ("turnover", JNum (of_Z 2500000));
        ("marketCap", JNum (of_Z 5000000000))].

(** A whole pass: every request is answered with the sample data, those
    for the top gainers (the one of [updateTopGainers] and the one of the
    ticker) end as [gainers]. *)
Definition pass (gainers : Delivery) : list Event :=
  answer 0 (Body ok_response sample_summary) 1010
  ++ answer 1 gainers 1020
  ++ answer 2 (Body ok_response sample_losers) 1030
  ++ answer 3 (Body ok_response (JArr [])) 1040
  ++ answer 4 (Body ok_response sample_summary) 1050
  ++ request [Child 5; Child 0] gainers 1060
  ++ request [Child 5; Child 1] (Body ok_response sample_losers) 1070
  ++ [event [Child 5; Main] Tick 1080; event [Child 5; Main] Tick 1081;
      event [Child 5; Main] Tick 1082;
      event [Main] Tick 1090; event [Main] Tick 1091].

Definition gainers_fail : Delivery :=
  NetworkFailure (TypeError "Failed to fetch").
Definition gainers_arrive : Delivery := Body ok_response sample_gainers.

(** The page at the end of a pass of [initialize] on the sample page. *)
Definition page_at_end (gainers : Delivery) : gmap string Element :=
  document (snd (exec (pass gainers)
                   (run_sync (@initialize sample_host) sample_page))).

(** Effects of a getter of [key] once it has been suspended: beside reading
    the clock and logging, it sets the entry of [key] only. *)
Definition caches_under (key : string) : OpPred := fun X op =>
  match op with
  | CacheSet k _ => k = key
  | DateNow | ConsoleError _ _ => True
  | _ => False
  end.

(** A world whose cache holds an entry for the top gainers, stored at time
    1000 and read at 30999. *)
Definition warm_world : World :=
  {| cache := {[ "topGainers" :=
                   {| data := JArr []; timestamp := 1000 |} ]};
     document := ∅; console := []; clock := 30999 |}.

(** Logging is the only effect. *)
Definition only_logs : OpPred := fun X op =>
  match op with
  | ConsoleError _ _ => True
  | _ => False
  end.

(** What [Promise.all] over the started children [cs] has settled with. *)
Definition settled_with (cs : list (Async JSValue))
  (r : Completion (list JSValue)) : Prop :=
  match r with
  | Normal vs => all_fulfilled cs = Some vs
  | Abrupt e =>
      exists i c, cs !! i = Some c /\ outcome c = Some (Abrupt e)
  end.

(** The states of a pass: waiting for the updates; settled, with
    [initialize] yet to resume (twice: once for [Promise.all], once for its
    own [await]); over. *)
Inductive pass_state : Async JSValue -> Prop :=
| pass_joining (cs : list (Async JSValue)) :
    pass_state (Joining cs initialize_rest)
| pass_settled (cs : list (Async JSValue)) (r : Completion (list JSValue)) :
    settled_with cs r -> pass_state (Bg cs (Yield (initialize_rest r)))
| pass_resumed (cs : list (Async JSValue)) (r : Completion (list JSValue)) :
    settled_with cs r -> pass_state (Bg cs (initialize_rest r))
| pass_over (cs : list (Async JSValue)) :
    pass_state (Bg cs (Ret JUndefined)).

(** The entry [initialize] logs when [Promise.all] has rejected. *)
Definition pass_log (r : Completion (list JSValue)) : list LogEntry :=
  match r with
  | Normal _ => []
  | Abrupt e =>
      [{| log_message := "Error initializing CSE data:";
          log_error := Some e |}]
  end.

(** A summary whose index is a string: [toFixed] is not a function of it. *)
Definition odd_summary : JSValue :=
  JObj [("ASPI", JStr "12,000.50"); ("ASPIChange", JNum (of_Z 1));
        ("turnover", JNum (of_Z 2500000));
        ("marketCap", JNum (of_Z 5000000000))].

(** [updateASPI] receives the odd summary and throws, [Promise.all] rejects,
    and [initialize] resumes. *)
Definition odd_pass : list Event :=
  answer 0 (Body ok_response odd_summary) 1010 ++ [event [Main] Tick 1020].

(** The requests a started function is waiting on: the URLs of its pending
    [fetch] calls, those of the children of a [Promise.all] first. *)
Fixpoint requests {A : Type} (t : Async A) {struct t} : list string :=
  match t with
  | Fetch url _ _ _ => [url]
  | Joining cs _ => flat_map (@requests JSValue) cs
  | Bg cs main => flat_map (@requests JSValue) cs ++ requests main
  | _ => []
  end.

(** The request of a getter that misses; none for one that hits. *)
Definition request_of (key endpoint : string) (w : World) : list string :=
  if ToBoolean (cached_value key w) then []
  else ["https://www.cse.lk/api" +:+ endpoint].

(** The updates that show a table, with the getter each awaits, the element
    it fills and the title it passes to [createStocksTable]. *)
Definition table_updates
  : list (Async JSValue * Async JSValue * string * string) :=
  [(updateTopGainers, getTopGainers, "top-gainers", "Gainers");
   (updateTopLosers, getTopLosers, "top-losers", "Losers");
   (updateMostActive, getMostActive, "most-active", "Most Active")].

(** [createStocksTable(data.slice(0, 5), title)]. *)
Definition table_of (d : JSValue) (title : string) : Completion string :=
  let? rows := call_slice d 5 in createStocksTable rows title.



(** The change a row is classified by: [stock.change || stock.percentageChange
    || 0], formatted. *)
Definition row_change (stock : JSValue) : FormattedChange :=
  formatPercentageChange
    (js_or (js_or (field stock "change") (field stock "percentageChange"))
       (JNum (of_Z 0))).

(** The markup of the row of one stock. *)
Definition row_markup (stock : JSValue) : string :=
  "
        <tr>
          <td><strong>"
    +:+ ToString (js_or (js_or (field stock "symbol") (field stock "name")) (JStr "N/A"))
    +:+ "</strong></td>
          <td>"
    +:+ formatCurrency (js_or (js_or (field stock "price") (field stock "lastPrice")) (JNum (of_Z 0)))
    +:+ "</td>
          <td class=" +:+ dq +:+ color (row_change stock) +:+ dq +:+ ">"
    +:+ formatCurrency (js_or (field stock "change") (JNum (of_Z 0)))
    +:+ "</td>
          <td class=" +:+ dq +:+ color (row_change stock) +:+ dq +:+ ">"
    +:+ value (row_change stock) +:+ "%</td>
        </tr>
      ".

(** The two requests of the ticker are answered with [g] and [l], then
    [Promise.all] settles. *)
Definition both_arrive (g l : JSValue) : list Event :=
  request [Child 0] (Body ok_response g) 1010
  ++ request [Child 1] (Body ok_response l) 1020
  ++ [event [Main] Tick 1030].






(** The sample summary arrives at an update called on the sample page. *)
Definition summary_arrived (d : JSValue) : World :=
  stored "marketSummary" d
    (set_clock 1021
       (after_delivery "/marketSummery" (Body ok_response d) 1010 1020
          sample_page)).

Definition summary_events (d : JSValue) : list Event :=
  delivery_events [] (Body ok_response d) 1010 1020 ++ [event [] Tick 1021].



End PropertyVocabulary.

(* ================================================================== *)
(** * Properties *)

(** ** Digits and [toFixed] *)

Lemma all_digits_app (a b : string) :
  all_digits (a +:+ b) = all_digits a && all_digits b.
Proof.
  induction a as [|c a IH]; simpl; [reflexivity|].
  rewrite IH. apply andb_assoc.
Qed.

Lemma all_digits_zeros (k : nat) : all_digits (zeros k) = true.
Proof. induction k; simpl; auto. Qed.

Lemma all_digits_uint (d : Decimal.uint) :
  all_digits (NilEmpty.string_of_uint d) = true.
Proof. induction d; simpl; auto. Qed.

Lemma all_digits_decimal (n : Z) : all_digits (decimal_digits n) = true.
Proof.
  unfold decimal_digits, NilZero.string_of_uint.
  destruct (N.to_uint (Z.to_N n)) eqn:E; try reflexivity;
    rewrite <- E; apply all_digits_uint.
Qed.

Lemma decimal_digits_length (n : Z) : (1 <= String.length (decimal_digits n))%nat.
Proof.
  unfold decimal_digits, NilZero.string_of_uint.
  destruct (N.to_uint (Z.to_N n)); simpl; lia.
Qed.

Lemma length_app (a b : string) :
  String.length (a +:+ b) = (String.length a + String.length b)%nat.
Proof. induction a; simpl; auto. Qed.

Lemma length_zeros (k : nat) : String.length (zeros k) = k.
Proof. induction k; simpl; auto. Qed.

Lemma substring_all (s : string) :
  substring 0 (String.length s) s = s.
Proof. induction s; simpl; congruence. Qed.

(** Splitting a string of digits two places before its end gives a numeral
    with two fraction digits. *)
Lemma int_then_frac_split (s : string) : forall seen : bool,
  all_digits s = true ->
  (2 + (if seen then 0 else 1) <= String.length s)%nat ->
  int_then_frac
    (substring 0 (String.length s - 2) s +:+ "." +:+
     substring (String.length s - 2) 2 s) seen = true.
Proof.
  induction s as [|c s IH]; intros seen Hd Hl; simpl in Hl; [destruct seen; lia|].
  simpl in Hd. apply andb_prop in Hd as [Hc Hs].
  destruct (le_lt_dec 2 (String.length s)) as [Hge|Hlt].
  - replace (String.length (String c s) - 2)%nat
      with (S (String.length s - 2)) by (simpl; lia).
    simpl. rewrite Hc. apply IH; [assumption | simpl; lia].
  - destruct seen; [|lia].
    assert (String.length s = 1%nat) as Hone by lia.
    replace (String.length (String c s) - 2)%nat with 0%nat by (simpl; lia).
    destruct s as [|c1 [|c2 s]]; simpl in Hone; try discriminate.
    simpl in Hs |- *. rewrite Hc, Hs. reflexivity.
Qed.

Lemma fixed_digits_two (n : Z) : int_then_frac (fixed_digits 2 n) false = true.
Proof.
  unfold fixed_digits.
  pose proof (all_digits_decimal n) as Hd.
  pose proof (decimal_digits_length n) as Hl.
  set (m := decimal_digits n) in *.
  destruct (String.length m <=? 2)%nat eqn:E.
  - apply Nat.leb_le in E.
    apply int_then_frac_split.
    + rewrite all_digits_app, all_digits_zeros. exact Hd.
    + rewrite length_app, length_zeros. lia.
  - apply Nat.leb_gt in E.
    apply int_then_frac_split; [exact Hd | lia].
Qed.

Lemma fixed_digits_head (n : Z) :
  exists c rest, fixed_digits 2 n = String c rest /\ is_digit c = true.
Proof.
  pose proof (fixed_digits_two n) as H.
  destruct (fixed_digits 2 n) as [|c rest]; [discriminate|].
  exists c, rest. split; [reflexivity|].
  simpl in H. destruct (is_digit c); [reflexivity|].
  destruct (Ascii.eqb c "."); discriminate.
Qed.

Lemma two_fraction_digits_fixed (n : Z) :
  two_fraction_digits (fixed_digits 2 n) = true.
Proof.
  destruct (fixed_digits_head n) as (c & rest & E & Hc).
  pose proof (fixed_digits_two n) as H. rewrite E in *.
  unfold two_fraction_digits.
  destruct (Ascii.eqb c "-") eqn:Em; [|exact H].
  apply Ascii.eqb_eq in Em. subst c. discriminate.
Qed.

Section NumberFacts.
Context {host : Host}.

(** In its digit range [toFixed(2)] prints exactly two fraction digits. *)
Lemma toFixed_two_fraction_digits (x : float) :
  prints_fixed x = true -> two_fraction_digits (toFixed 2 x) = true.
Proof.
  destruct x as [s|s| |s m e]; simpl; try discriminate.
  - intros _. reflexivity.
  - intros H. apply negb_true_iff in H. rewrite H.
    destruct s.
    + simpl. apply fixed_digits_two.
    + simpl. apply two_fraction_digits_fixed.
Qed.

End NumberFacts.

Section Formatting.
Context {host : Host}.

Lemma parseFloat_number (x : float) :
  parseFloat (JNum x) = match x with S754_zero _ => S754_zero false | _ => x end.
Proof. destruct x; reflexivity. Qed.

Lemma negative_meets_no_threshold (x : float) :
  flt x (of_Z 0) = true -> largest_met x = None.
Proof.
  destruct x as [s|s| |s m e]; try discriminate.
  - destruct s; [reflexivity | discriminate].
  - destruct s; [reflexivity | discriminate].
Qed.

(** C2 (as the code has it): [formatLargeNumber] divides by the largest of the
    thresholds 1e3, 1e6, 1e9 that the number itself meets or exceeds and
    appends K, M or B; below 1e3, and so for every negative number, the
    number is printed unscaled; whenever the printed value is finite and of
    magnitude below 1e21 it has exactly two fraction digits.  1e9 gives
    1.00B, 999 gives 999.00 and 1500 gives 1.50K. *)
Theorem formatLargeNumber_largest_threshold :
  (forall x : float,
     formatLargeNumber (JNum x) =
       match largest_met x with
       | Some (th, suffix) => toFixed 2 (fdiv x th) +:+ suffix
       | None => toFixed 2 x
       end) /\
  (forall x : float,
     flt x (of_Z 0) = true -> formatLargeNumber (JNum x) = toFixed 2 x) /\
  (forall y : float,
     prints_fixed y = true -> two_fraction_digits (toFixed 2 y) = true) /\
  formatLargeNumber (JNum (of_Z 1000000000)) = "1.00B" /\
  formatLargeNumber (JNum (of_Z 999)) = "999.00" /\
  formatLargeNumber (JNum (of_Z 1500)) = "1.50K".
Proof.
  assert (forall x : float,
     formatLargeNumber (JNum x) =
       match largest_met x with
       | Some (th, suffix) => toFixed 2 (fdiv x th) +:+ suffix
       | None => toFixed 2 x
       end) as Hscale.
  { intros x. unfold formatLargeNumber, largest_met, thresholds.
    rewrite parseFloat_number. cbn [fold_left fst].
    destruct x as [s|s| |s m e];
      [destruct s; reflexivity | destruct s; reflexivity | reflexivity |].
    destruct (fge (S754_finite s m e) (of_Z (10 ^ 9)));
      destruct (fge (S754_finite s m e) (of_Z (10 ^ 6)));
      destruct (fge (S754_finite s m e) (of_Z (10 ^ 3))); reflexivity. }
  split; [exact Hscale|].
  split.
  { intros x Hneg. rewrite Hscale, (negative_meets_no_threshold x Hneg).
    reflexivity. }
  split; [exact toFixed_two_fraction_digits|].
  repeat split; vm_compute; reflexivity.
Qed.

(** C6: [formatPercentageChange(0)] is 0.00, positive; every change that is
    at least zero is classified positive with the colour positive, every
    change below zero is given the colour negative. *)
Theorem formatPercentageChange_sign :
  formatPercentageChange (JNum (of_Z 0)) =
    {| value := "0.00"; isPositive := true; color := "positive" |} /\
  forall x : float,
    (fge x (of_Z 0) = true ->
       isPositive (formatPercentageChange (JNum x)) = true /\
       color (formatPercentageChange (JNum x)) = "positive") /\
    (flt x (of_Z 0) = true ->
       isPositive (formatPercentageChange (JNum x)) = false /\
       color (formatPercentageChange (JNum x)) = "negative").
Proof.
  split; [reflexivity|].
  intros x. unfold formatPercentageChange. rewrite parseFloat_number.
  destruct x as [s|s| |s m e]; simpl; split; intros H;
    try discriminate; try (split; reflexivity);
    destruct s; try discriminate; split; reflexivity.
Qed.

(** C7: for every title, [createStocksTable] on an absent or empty row
    sequence returns the one notice that no data is available, which is not
    the shell of a table; for the three titles the module passes, the notice
    holds no table markup. *)
Theorem createStocksTable_no_rows (title : string) :
  let notice :=
    "<div class=" +:+ dq +:+ "text-center text-muted" +:+ dq +:+ ">No "
      +:+ toLowerCase title +:+ " data available</div>" in
  createStocksTable JNull title = Normal notice /\
  createStocksTable JUndefined title = Normal notice /\
  createStocksTable (JArr []) title = Normal notice /\
  notice <> table_head title +:+ table_foot /\
  (forall t, In t ["Gainers"; "Losers"; "Most Active"] ->
     forall rows, In rows [JNull; JUndefined; JArr []] ->
     exists html, createStocksTable rows t = Normal html /\
                  contains "<table" html = false).
Proof.
  cbv zeta. repeat split; try reflexivity.
  - discriminate.
  - intros t Ht rows Hrows. simpl in Ht, Hrows.
    destruct Ht as [<-|[<-|[<-|[]]]];
      destruct Hrows as [<-|[<-|[<-|[]]]];
      eexists; split; reflexivity.
Qed.

End Formatting.

(** ** The cache *)

Lemma setCachedData_run (key : string) (payload : JSValue) (w : World) :
  run_sync (setCachedData key payload) w =
    (Ret tt,
     set_cache (insert key {| data := payload; timestamp := clock w |}) w).
Proof. reflexivity. Qed.

Lemma getCachedData_run (key : string) (w : World) :
  run_sync (getCachedData key) w = (Ret (cached_value key w), w).
Proof.
  unfold getCachedData, cached_value, act, bind. cbn.
  destruct (cache w !! key) as [entry|]; cbn; [|reflexivity].
  destruct (clock w - timestamp entry <? cacheTimeout); reflexivity.
Qed.

(** C1: [t] milliseconds after [setCachedData(key, payload)], with the entry
    under [key] still the one that was set, [getCachedData(key)] returns the
    payload itself when [t < 30000]; when [t >= 30000] it returns [null] and
    changes nothing, as on a key that was never set, and the stale entry is
    still in the cache. *)
Theorem getCachedData_after_set
  (key : string) (payload : JSValue) (w later : World) (t : Z) :
  cache later !! key =
    cache (snd (run_sync (setCachedData key payload) w)) !! key ->
  clock later = clock w + t ->
  cacheTimeout = 30000 /\
  (t < cacheTimeout ->
     run_sync (getCachedData key) later = (Ret payload, later)) /\
  (cacheTimeout <= t ->
     run_sync (getCachedData key) later = (Ret JNull, later) /\
     cache later !! key =
       Some {| data := payload; timestamp := clock w |} /\
     forall cold : World, cache cold !! key = None ->
       run_sync (getCachedData key) cold = (Ret JNull, cold)).
Proof.
  intros Hentry Hclock.
  rewrite setCachedData_run in Hentry. cbn in Hentry.
  rewrite lookup_insert_eq in Hentry.
  split; [reflexivity|].
  split.
  - intros Hfresh. rewrite getCachedData_run. unfold cached_value.
    rewrite Hentry, Hclock. cbn.
    replace (clock w + t - clock w) with t by lia.
    apply Z.ltb_lt in Hfresh. rewrite Hfresh. reflexivity.
  - intros Hstale. split; [|split; [exact Hentry|]].
    + rewrite getCachedData_run. unfold cached_value.
      rewrite Hentry, Hclock. cbn.
      replace (clock w + t - clock w) with t by lia.
      apply Z.ltb_ge in Hstale. rewrite Hstale. reflexivity.
    + intros cold Hcold. rewrite getCachedData_run. unfold cached_value.
      rewrite Hcold. reflexivity.
Qed.

(** ** Disciplines are kept along a run *)

Lemma all_of_Forall {T : Type} (f : T -> Prop) (ts : list T) :
  all_of f ts <-> Forall f ts.
Proof.
  induction ts as [|t ts IH]; cbn.
  - split; [constructor | trivial].
  - rewrite Forall_cons, IH. reflexivity.
Qed.

Lemma run_sync_All {A : Type} (cs : list (Async JSValue))
  (k : Completion (list JSValue) -> Async A) (w : World) :
  run_sync (All cs k) w =
    (join (fst (thread (@run_sync JSValue) cs w)) k,
     snd (thread (@run_sync JSValue) cs w)).
Proof. cbn [run_sync]. destruct (thread _ cs w); reflexivity. Qed.

Lemma thread_cons {T : Type} (f : T -> World -> T * World) (t : T)
  (ts : list T) (w : World) :
  thread f (t :: ts) w =
    (fst (f t w) :: fst (thread f ts (snd (f t w))),
     snd (thread f ts (snd (f t w)))).
Proof.
  cbn. destruct (f t w) as [t' w1]. cbn.
  destruct (thread f ts w1); reflexivity.
Qed.

Lemma perform_possible {X : Type} (op : Op X) (w : World) :
  possible op (fst (perform op w)).
Proof.
  destruct op; cbn; try exact I.
  destruct (document w !! id); auto.
Qed.

Lemma run_sync_Act {A X : Type} (op : Op X) (k : X -> Async A) (w : World) :
  run_sync (Act op k) w =
    run_sync (k (fst (perform op w))) (snd (perform op w)).
Proof. cbn [run_sync]. destruct (perform op w); reflexivity. Qed.

Section Keeping.
Variables (before after : OpPred) (thrown : JSError -> Prop).

Lemma join_obeys {A : Type} (cs : list (Async JSValue))
  (k : Completion (list JSValue) -> Async A) :
  all_of (@obeys before after thrown true JSValue) cs ->
  (forall r, obeys before after thrown true (k r)) ->
  obeys before after thrown true (join cs k).
Proof.
  intros Hcs Hk. unfold join.
  destruct (first_rejection cs); [cbn; auto|].
  destruct (all_fulfilled cs); cbn; auto.
Qed.

Lemma run_sync_obeys {A : Type} (t : Async A) : forall (b : bool) (w : World),
  obeys before after thrown b t ->
  obeys before after thrown true (fst (run_sync t w)).
Proof.
  revert A t.
  apply (Async_nested_ind (fun A t => forall b w,
           obeys before after thrown b t ->
           obeys before after thrown true (fst (run_sync t w)))).
  - intros A a b w _. exact I.
  - intros A e b w H. exact H.
  - intros A X op k IH b w [_ Hk]. rewrite run_sync_Act.
    eapply IH, Hk, perform_possible.
  - intros A t _ b w H. exact H.
  - intros A url method headers k _ b w H. exact H.
  - intros A resp k _ b w H. exact H.
  - intros A cs k IHcs _ b w [Hcs Hk]. rewrite run_sync_All. cbn [fst].
    apply join_obeys; [|exact Hk].
    clear Hk k. revert w.
    induction IHcs as [|c cs IHc _ IH]; intros w; [exact I|].
    destruct Hcs as [Hc Hcs]. rewrite thread_cons. cbn [fst all_of].
    split; [eapply IHc, Hc | apply IH, Hcs].
  - intros A cs k _ _ b w H. exact H.
  - intros A cs main _ _ b w H. exact H.
Qed.

Lemma outcome_thrown {A : Type} (t : Async A) : forall (b : bool) (e : JSError),
  obeys before after thrown b t -> outcome t = Some (Abrupt e) -> thrown e.
Proof.
  revert A t.
  apply (Async_nested_ind (fun A t => forall b e,
           obeys before after thrown b t ->
           outcome t = Some (Abrupt e) -> thrown e));
    cbn; try discriminate.
  - intros A e b e' H E. congruence.
  - intros A cs main _ IH b e [_ H] E. eapply IH; eauto.
Qed.

Lemma deliver_obeys {A : Type} (p : list Dir) (pl : Payload) :
  forall (t : Async A) (w : World),
  obeys before after thrown true t ->
  obeys before after thrown true (fst (deliver p pl t w)).
Proof.
  revert A. induction p as [|d p IH]; intros A t w H.
  - destruct t; destruct pl; cbn [deliver fst]; try exact H;
      apply (run_sync_obeys _ true); cbn in H; auto.
  - destruct d as [i|];
      destruct t as [a|e|X op k|next|url method headers k|resp k
                    |cs k|cs k|cs main];
      cbn [deliver fst]; try exact H.
    + destruct (cs !! i) as [c|] eqn:Ec; [|exact H].
      destruct H as [Hcs Hk].
      destruct (deliver p pl c w) as [c' w'] eqn:Ed. cbn [fst].
      apply join_obeys; [|exact Hk].
      apply all_of_Forall, Forall_insert; [apply all_of_Forall, Hcs|].
      change c' with (fst (c', w')). rewrite <- Ed. apply IH.
      apply all_of_Forall in Hcs. rewrite Forall_lookup in Hcs. eauto.
    + destruct (cs !! i) as [c|] eqn:Ec; [|exact H].
      destruct H as [Hcs Hm].
      destruct (deliver p pl c w) as [c' w'] eqn:Ed. cbn.
      split; [|exact Hm].
      apply all_of_Forall, Forall_insert; [apply all_of_Forall, Hcs|].
      change c' with (fst (c', w')). rewrite <- Ed. apply IH.
      apply all_of_Forall in Hcs. rewrite Forall_lookup in Hcs. eauto.
    + destruct H as [Hcs Hm].
      destruct (deliver p pl main w) as [m' w'] eqn:Ed. cbn.
      split; [exact Hcs|].
      change m' with (fst (m', w')). rewrite <- Ed. apply IH, Hm.
Qed.

Lemma exec_obeys {A : Type} (schedule : list Event) :
  forall st : Async A * World,
  obeys before after thrown true (fst st) ->
  obeys before after thrown true (fst (exec schedule st)).
Proof.
  induction schedule as [|ev schedule IH]; intros st H; [exact H|].
  cbn. apply IH. apply deliver_obeys, H.
Qed.

End Keeping.

Section KeepingInvariant.
Variables (before after : OpPred) (thrown : JSError -> Prop).
Variable Inv : World -> Prop.

Lemma run_sync_keeps {A : Type} (t : Async A) (b : bool) :
  (forall X (op : Op X) w,
     allowed before after b X op -> Inv w -> Inv (snd (perform op w))) ->
  forall w : World,
  obeys before after thrown b t -> Inv w -> Inv (snd (run_sync t w)).
Proof.
  intros Hop. revert A t.
  apply (Async_nested_ind (fun A t => forall w,
           obeys before after thrown b t -> Inv w ->
           Inv (snd (run_sync t w)))); try (intros; assumption).
  - intros A X op k IH w [Ho Hk] Hw. rewrite run_sync_Act.
    apply IH; [apply Hk, perform_possible | apply Hop; assumption].
  - intros A cs k IHcs _ w [Hcs _] Hw. rewrite run_sync_All. cbn [snd].
    revert w Hw.
    induction IHcs as [|c cs IHc _ IH]; intros w Hw; [exact Hw|].
    destruct Hcs as [Hc Hcs]. rewrite thread_cons. cbn [snd].
    apply IH; [exact Hcs | apply IHc; assumption].
Qed.

Hypothesis Hafter : forall X (op : Op X) w,
  after X op -> Inv w -> Inv (snd (perform op w)).

Lemma deliver_keeps {A : Type} (p : list Dir) (pl : Payload) :
  forall (t : Async A) (w : World),
  obeys before after thrown true t -> Inv w ->
  Inv (snd (deliver p pl t w)).
Proof.
  revert A. induction p as [|d p IH]; intros A t w H Hw.
  - destruct t; destruct pl; cbn [deliver snd]; try exact Hw;
      apply (run_sync_keeps _ true); cbn in H; auto.
  - destruct d as [i|];
      destruct t as [a|e|X op k|next|url method headers k|resp k
                    |cs k|cs k|cs main];
      cbn [deliver snd]; try exact Hw.
    + destruct (cs !! i) as [c|] eqn:Ec; [|exact Hw].
      destruct H as [Hcs Hk].
      destruct (deliver p pl c w) as [c' w'] eqn:Ed. cbn [snd].
      change w' with (snd (c', w')). rewrite <- Ed. apply IH; [|exact Hw].
      apply all_of_Forall in Hcs. rewrite Forall_lookup in Hcs. eauto.
    + destruct (cs !! i) as [c|] eqn:Ec; [|exact Hw].
      destruct H as [Hcs Hm].
      destruct (deliver p pl c w) as [c' w'] eqn:Ed. cbn [snd].
      change w' with (snd (c', w')). rewrite <- Ed. apply IH; [|exact Hw].
      apply all_of_Forall in Hcs. rewrite Forall_lookup in Hcs. eauto.
    + destruct H as [Hcs Hm].
      destruct (deliver p pl main w) as [m' w'] eqn:Ed. cbn [snd].
      change w' with (snd (m', w')). rewrite <- Ed. apply IH; assumption.
Qed.

Hypothesis Hclock : forall (tm : Z) (w : World), Inv w -> Inv (set_clock tm w).

Lemma exec_keeps {A : Type} (schedule : list Event) :
  forall st : Async A * World,
  obeys before after thrown true (fst st) -> Inv (snd st) ->
  Inv (snd (exec schedule st)).
Proof.
  induction schedule as [|ev schedule IH]; intros st H Hw; [exact Hw|].
  cbn. apply IH.
  - apply deliver_obeys, H.
  - apply deliver_keeps; [exact H | apply Hclock, Hw].
Qed.

End KeepingInvariant.

Section KeepingRelation.
Variables (before after : OpPred) (thrown : JSError -> Prop).
Variable Rel : World -> World -> Prop.

Lemma run_sync_related {A : Type} (t : Async A) (b : bool) :
  (forall X (op : Op X) w1 w2,
     allowed before after b X op -> Rel w1 w2 ->
     fst (perform op w1) = fst (perform op w2) /\
     Rel (snd (perform op w1)) (snd (perform op w2))) ->
  forall w1 w2 : World,
  obeys before after thrown b t -> Rel w1 w2 ->
  fst (run_sync t w1) = fst (run_sync t w2) /\
  Rel (snd (run_sync t w1)) (snd (run_sync t w2)).
Proof.
  intros Hop. revert A t.
  apply (Async_nested_ind (fun A t => forall w1 w2,
           obeys before after thrown b t -> Rel w1 w2 ->
           fst (run_sync t w1) = fst (run_sync t w2) /\
           Rel (snd (run_sync t w1)) (snd (run_sync t w2))));
    try (intros; split; [reflexivity | assumption]).
  - intros A X op k IH w1 w2 [Ho Hk] Hw. rewrite !run_sync_Act.
    destruct (Hop X op w1 w2 Ho Hw) as [Ex Hw'].
    rewrite Ex. apply IH; [apply Hk, perform_possible | exact Hw'].
  - intros A cs k IHcs _ w1 w2 [Hcs _] Hw. rewrite !run_sync_All. cbn [fst snd].
    assert (fst (thread (@run_sync JSValue) cs w1) =
            fst (thread (@run_sync JSValue) cs w2) /\
            Rel (snd (thread (@run_sync JSValue) cs w1))
                (snd (thread (@run_sync JSValue) cs w2))) as [E Hw'].
    { revert w1 w2 Hw.
      induction IHcs as [|c cs IHc _ IH]; intros w1 w2 Hw; [split; auto|].
      destruct Hcs as [Hc Hcs]. rewrite !thread_cons. cbn [fst snd].
      destruct (IHc w1 w2 Hc Hw) as [Ec Hw1].
      destruct (IH Hcs _ _ Hw1) as [Er Hw2].
      rewrite Ec, Er. split; [reflexivity | exact Hw2]. }
    rewrite E. split; [reflexivity | exact Hw'].
Qed.

Hypothesis Hafter : forall X (op : Op X) w1 w2,
  after X op -> Rel w1 w2 ->
  fst (perform op w1) = fst (perform op w2) /\
  Rel (snd (perform op w1)) (snd (perform op w2)).

Lemma deliver_related {A : Type} (p : list Dir) (pl : Payload) :
  forall (t : Async A) (w1 w2 : World),
  obeys before after thrown true t -> Rel w1 w2 ->
  fst (deliver p pl t w1) = fst (deliver p pl t w2) /\
  Rel (snd (deliver p pl t w1)) (snd (deliver p pl t w2)).
Proof.
  revert A. induction p as [|d p IH]; intros A t w1 w2 H Hw.
  - destruct t; destruct pl; cbn [deliver fst snd]; try (split; [reflexivity | exact Hw]);
      apply (run_sync_related _ true); cbn in H; auto.
  - destruct d as [i|];
      destruct t as [a|e|X op k|next|url method headers k|resp k
                    |cs k|cs k|cs main];
      cbn [deliver fst snd]; try (split; [reflexivity | exact Hw]).
    + destruct (cs !! i) as [c|] eqn:Ec; [|split; [reflexivity | exact Hw]].
      destruct H as [Hcs Hk].
      assert (obeys before after thrown true c) as Hc.
      { apply all_of_Forall in Hcs. rewrite Forall_lookup in Hcs. eauto. }
      destruct (IH _ c w1 w2 Hc Hw) as [E Hw'].
      destruct (deliver p pl c w1) as [c1 w1'].
      destruct (deliver p pl c w2) as [c2 w2'].
      cbn in E, Hw' |- *. subst c2. split; [reflexivity | exact Hw'].
    + destruct (cs !! i) as [c|] eqn:Ec; [|split; [reflexivity | exact Hw]].
      destruct H as [Hcs Hm].
      assert (obeys before after thrown true c) as Hc.
      { apply all_of_Forall in Hcs. rewrite Forall_lookup in Hcs. eauto. }
      destruct (IH _ c w1 w2 Hc Hw) as [E Hw'].
      destruct (deliver p pl c w1) as [c1 w1'].
      destruct (deliver p pl c w2) as [c2 w2'].
      cbn in E, Hw' |- *. subst c2. split; [reflexivity | exact Hw'].
    + destruct H as [Hcs Hm].
      destruct (IH _ main w1 w2 Hm Hw) as [E Hw'].
      destruct (deliver p pl main w1) as [m1 w1'].
      destruct (deliver p pl main w2) as [m2 w2'].
      cbn in E, Hw' |- *. subst m2. split; [reflexivity | exact Hw'].
Qed.

End KeepingRelation.

Section Composing.
Variables (before after : OpPred).

Lemma obeys_mono (before' after' : OpPred) (thrown thrown' : JSError -> Prop)
  {A : Type} (t : Async A) :
  (forall X (op : Op X), before' X op -> before X op) ->
  (forall X (op : Op X), after' X op -> after X op) ->
  (forall e, thrown' e -> thrown e) ->
  forall b : bool,
  obeys before' after' thrown' b t -> obeys before after thrown b t.
Proof.
  intros Hb Ha Ht. revert A t.
  apply (Async_nested_ind (fun A t => forall b,
           obeys before' after' thrown' b t -> obeys before after thrown b t));
    cbn; auto.
  - intros A X op k IH b [Hop Hk]. split; [|auto].
    destruct b; cbn in *; auto.
  - intros A cs k IHcs IHk b [Hcs Hk]. split; [|auto].
    apply all_of_Forall. apply all_of_Forall in Hcs.
    rewrite Forall_forall in *. auto.
  - intros A cs k IHcs IHk b [Hcs Hk]. split; [|auto].
    apply all_of_Forall. apply all_of_Forall in Hcs.
    rewrite Forall_forall in *. auto.
  - intros A cs main IHcs IHm b [Hcs Hm]. split; [|auto].
    apply all_of_Forall. apply all_of_Forall in Hcs.
    rewrite Forall_forall in *. auto.
Qed.

(** After [await p] the caller runs in a later job: what follows only has to
    keep the discipline of a started function. *)
Lemma obeys_await_then {A B : Type} (thrown_p thrown : JSError -> Prop)
  (p : Async A) (f : Completion A -> Async B) :
  (forall e, thrown_p e -> thrown e) ->
  (forall c,
     match c with Normal _ => True | Abrupt e => thrown_p e end ->
     obeys before after thrown true (f c)) ->
  forall b : bool,
  obeys before after thrown_p b p ->
  obeys before after thrown b (on_completion (await p) f).
Proof.
  intros Hsub Hf. unfold await. revert A p f Hf.
  apply (Async_nested_ind (fun A p =>
           forall f : Completion A -> Async B,
           (forall c,
              match c with Normal _ => True | Abrupt e => thrown_p e end ->
              obeys before after thrown true (f c)) ->
           forall b,
           obeys before after thrown_p b p ->
           obeys before after thrown b
             (on_completion
                (on_completion p (fun c => Yield (complete c))) f)));
    cbn.
  - intros A a f Hf b _. apply (Hf (Normal a)). exact I.
  - intros A e f Hf b He. apply (Hf (Abrupt e)). exact He.
  - intros A X op k IH f Hf b [Hop Hk]. split; [exact Hop|].
    intros x Hx. apply IH; auto.
  - intros A t IH f Hf b H. apply (IH f Hf true H).
  - intros A url method headers k IH f Hf b H r. apply (IH r f Hf true (H r)).
  - intros A resp k IH f Hf b H r. apply (IH r f Hf true (H r)).
  - intros A cs k _ IH f Hf b [Hcs Hk]. split.
    + apply all_of_Forall. apply all_of_Forall in Hcs.
      rewrite Forall_forall in *. intros c Hc.
      eapply obeys_mono; [| | |apply Hcs, Hc]; auto.
    + intros r. apply (IH r f Hf true (Hk r)).
  - intros A cs k _ IH f Hf b [Hcs Hk]. split.
    + apply all_of_Forall. apply all_of_Forall in Hcs.
      rewrite Forall_forall in *. intros c Hc.
      eapply obeys_mono; [| | |apply Hcs, Hc]; auto.
    + intros r. apply (IH r f Hf true (Hk r)).
  - intros A cs main _ IH f Hf b [Hcs Hm]. split.
    + apply all_of_Forall. apply all_of_Forall in Hcs.
      rewrite Forall_forall in *. intros c Hc.
      eapply obeys_mono; [| | |apply Hcs, Hc]; auto.
    + apply (IH f Hf true Hm).
Qed.

End Composing.

(** ** The functions of the module keep their disciplines *)

#[local] Arguments createStocksTable : simpl never.
#[local] Arguments ticker_text : simpl never.
#[local] Arguments get_prop : simpl never.
#[local] Arguments call_slice : simpl never.
#[local] Arguments call_toFixed : simpl never.
#[local] Arguments ToBoolean : simpl never.
#[local] Arguments formatLargeNumber : simpl never.
#[local] Arguments formatPercentageChange : simpl never.
#[local] Arguments String.append : simpl never.
#[local] Arguments String.eqb : simpl never.
#[local] Arguments decimal_digits : simpl never.
#[local] Arguments Z.ltb : simpl never.
#[local] Arguments Z.sub : simpl never.
#[local] Arguments nth : simpl never.

(** One step of walking through a tree: split what is asked at an effect,
    and decide the test the next part of the tree depends on. *)
Ltac walk_step :=
  match goal with
  | |- True => exact I
  | |- any_op _ _ => exact I
  | |- _ /\ _ => split
  | |- forall _, _ => intro
  | H : _ \/ _ |- _ => destruct H; subst
  | |- context [complete ?c] =>
      first [ is_var c; destruct c
            | let E := fresh "E" in destruct c eqn:E ]
  | |- context [if ?b then _ else _] =>
      let E := fresh "E" in destruct b eqn:E
  | |- context [match ?x with Some _ => _ | None => _ end] =>
      first [ is_var x; destruct x
            | let E := fresh "E" in destruct x eqn:E ]
  end.

Ltac walk := repeat (cbn; walk_step).

Ltac in_region :=
  cbv [region_ASPI region_gainers region_losers region_active region_summary
       region_ticker]; set_solver.

Section Disciplines.
Context {host : Host}.

Lemma makeApiCall_never_throws (endpoint : string) (b : bool) :
  obeys read_only any_op (fun _ => False) b (makeApiCall endpoint).
Proof. destruct b; walk. Qed.

Lemma getMarketSummary_discipline :
  obeys read_only caches_truthy (fun _ => False) false getMarketSummary.
Proof. walk; auto. Qed.

Lemma getTopGainers_discipline :
  obeys read_only caches_truthy (fun _ => False) false getTopGainers.
Proof. walk; auto. Qed.

Lemma getTopLosers_discipline :
  obeys read_only caches_truthy (fun _ => False) false getTopLosers.
Proof. walk; auto. Qed.

Lemma getMostActive_discipline :
  obeys read_only caches_truthy (fun _ => False) false getMostActive.
Proof. walk; auto. Qed.

Lemma caches_truthy_owns (S : gset string) X (op : Op X) :
  caches_truthy X op -> owns S X op.
Proof. destruct op; cbn; tauto. Qed.

(** An update: await a getter, then write into the region. *)
Lemma update_region (S : gset string) (getter : Async JSValue)
  (body : Completion JSValue -> Async JSValue) :
  obeys read_only caches_truthy (fun _ => False) false getter ->
  (forall data, obeys read_only (owns S) (fun _ => True) true
                  (body (Normal data))) ->
  obeys read_only (owns S) (fun _ => True) false
    (on_completion (await getter) body).
Proof.
  intros Hg Hbody.
  apply obeys_await_then with (thrown_p := fun _ => False); [tauto| |].
  - intros [data|e] Hc; [apply Hbody | destruct Hc].
  - eapply obeys_mono; [| | |exact Hg]; auto using caches_truthy_owns.
Qed.

Lemma updateASPI_region :
  obeys read_only (owns region_ASPI) (fun _ => True) false updateASPI.
Proof.
  apply update_region; [exact getMarketSummary_discipline|].
  intros data. walk; in_region.
Qed.

Lemma updateTopGainers_region :
  obeys read_only (owns region_gainers) (fun _ => True) false updateTopGainers.
Proof.
  apply update_region; [exact getTopGainers_discipline|].
  intros data. walk; in_region.
Qed.

Lemma updateTopLosers_region :
  obeys read_only (owns region_losers) (fun _ => True) false updateTopLosers.
Proof.
  apply update_region; [exact getTopLosers_discipline|].
  intros data. walk; in_region.
Qed.

Lemma updateMostActive_region :
  obeys read_only (owns region_active) (fun _ => True) false updateMostActive.
Proof.
  apply update_region; [exact getMostActive_discipline|].
  intros data. walk; in_region.
Qed.

Lemma updateMarketSummary_region :
  obeys read_only (owns region_summary) (fun _ => True) false
    updateMarketSummary.
Proof.
  apply update_region; [exact getMarketSummary_discipline|].
  intros data. walk; in_region.
Qed.

Lemma createTickerContent_discipline :
  obeys read_only caches_truthy (fun _ => True) false createTickerContent.
Proof.
  apply obeys_await_then with (thrown_p := fun _ => True); [tauto| |].
  - intros [results|e] _; [|exact I]. walk.
  - unfold Promise_all. cbn [obeys all_of].
    split; [split; [|split; [|exact I]]|].
    + eapply obeys_mono; [| | |exact getTopGainers_discipline]; tauto.
    + eapply obeys_mono; [| | |exact getTopLosers_discipline]; tauto.
    + intros [vs|e]; exact I.
Qed.

Lemma updateTicker_region :
  obeys read_only (owns region_ticker) (fun _ => True) false updateTicker.
Proof.
  unfold updateTicker. unfold bind at 1. unfold act. cbn [on_completion].
  split; [exact I|]. intros x [->| ->]; [exact I|].
  apply obeys_await_then with (thrown_p := fun _ => True); [tauto| |].
  - intros [content|e] _; walk; in_region.
  - eapply obeys_mono; [| | |exact createTickerContent_discipline];
      auto using caches_truthy_owns.
Qed.

Lemma initialize_unfold :
  initialize =
    All [updateASPI; updateTopGainers; updateTopLosers; updateMostActive;
         updateMarketSummary; updateTicker] initialize_rest.
Proof. reflexivity. Qed.

Lemma initialize_rest_discipline (r : Completion (list JSValue)) (b : bool) :
  obeys read_only (owns ∅) (fun _ => False) b (initialize_rest r).
Proof. destruct r; destruct b; walk. Qed.

End Disciplines.

(** ** What the effects do to the state *)

Lemma read_only_perform {X : Type} (op : Op X) (w : World) :
  read_only X op -> snd (perform op w) = w.
Proof. destruct op; cbn; tauto. Qed.

Lemma perform_clock {X : Type} (op : Op X) (w : World) :
  clock (snd (perform op w)) = clock w.
Proof. destruct op; reflexivity. Qed.

Lemma perform_same_page {X : Type} (op : Op X) (w : World) :
  same_page (snd (perform op w)) w.
Proof.
  destruct op; intros i; cbn; try reflexivity;
    rewrite lookup_alter_is_Some; reflexivity.
Qed.

Lemma avoids_perform (S : gset string) {X : Type} (op : Op X) (w : World) :
  avoids S X op -> agree_on S (snd (perform op w)) w.
Proof.
  destruct op; intros H i Hi; cbn in *; try reflexivity;
    apply lookup_alter_ne; intros ->; contradiction.
Qed.

Lemma same_page_refl (w : World) : same_page w w.
Proof. intros i. reflexivity. Qed.

Lemma same_page_trans (w1 w2 w3 : World) :
  same_page w1 w2 -> same_page w2 w3 -> same_page w1 w3.
Proof. intros H1 H2 i. rewrite (H1 i). apply H2. Qed.

Lemma same_page_sym (w1 w2 : World) : same_page w1 w2 -> same_page w2 w1.
Proof. intros H i. symmetry. apply H. Qed.

Lemma agree_on_trans (S : gset string) (w1 w2 w3 : World) :
  agree_on S w1 w2 -> agree_on S w2 w3 -> agree_on S w1 w3.
Proof. intros H1 H2 i Hi. rewrite (H1 i Hi). apply H2, Hi. Qed.

Lemma owns_perform (S : gset string) {X : Type} (op : Op X) (w1 w2 : World) :
  owns S X op -> alike S w1 w2 ->
  fst (perform op w1) = fst (perform op w2) /\
  alike S (snd (perform op w1)) (snd (perform op w2)).
Proof.
  intros Hop (Hc & Hp & Ha).
  assert (alike S (snd (perform op w1)) (snd (perform op w2))) as Halike.
  { split; [rewrite !perform_clock; exact Hc|]. split.
    - eapply same_page_trans; [apply perform_same_page|].
      eapply same_page_trans; [exact Hp|].
      apply same_page_sym, perform_same_page.
    - unfold agree_on in *.
      destruct op; cbn in *; try exact Ha;
        intros i Hi;
        (destruct (decide (el = i)) as [->|Hne];
         [rewrite !lookup_alter_eq, (Ha i Hi); reflexivity
         |rewrite !lookup_alter_ne by exact Hne; apply Ha, Hi]). }
  split; [|exact Halike].
  destruct op; cbn in *; try reflexivity; try contradiction.
  - exact Hc.
  - specialize (Hp id).
    destruct (document w1 !! id), (document w2 !! id); try reflexivity.
    + destruct Hp as [Hp _]. destruct Hp; eauto; discriminate.
    + destruct Hp as [_ Hp]. destruct Hp; eauto; discriminate.
Qed.

(** ** A started [Promise.all]: each child sees only its own events *)

Lemma run_sync_read_only {A : Type} (after : OpPred)
  (thrown : JSError -> Prop) (t : Async A) (w : World) :
  obeys read_only after thrown false t -> snd (run_sync t w) = w.
Proof.
  intros H.
  apply (run_sync_keeps read_only after thrown (fun w' => w' = w) t false);
    [|exact H|reflexivity].
  intros X op w' Hop ->. apply read_only_perform, Hop.
Qed.

Lemma thread_read_only (after : OpPred) (thrown : JSError -> Prop)
  (cs : list (Async JSValue)) (w : World) :
  Forall (obeys read_only after thrown false) cs ->
  thread (@run_sync JSValue) cs w =
    (map (fun c => fst (run_sync c w)) cs, w).
Proof.
  induction 1 as [|c cs Hc _ IH]; [reflexivity|].
  rewrite thread_cons, (run_sync_read_only _ _ _ _ Hc), IH. reflexivity.
Qed.

Lemma children_join {A : Type} (cs : list (Async JSValue))
  (k : Completion (list JSValue) -> Async A) :
  children (join cs k) = cs.
Proof.
  unfold join. destruct (first_rejection cs); [reflexivity|].
  destruct (all_fulfilled cs); reflexivity.
Qed.

Section Pool.
Variable S : gset string.
Variable i : nat.

Lemma pool_rest_join {A : Type} (cs : list (Async JSValue))
  (k : Completion (list JSValue) -> Async A) :
  (forall r, obeys read_only (avoids S) (fun _ => True) true (k r)) ->
  (pool_rest S) (join cs k).
Proof.
  intros Hk. unfold join. destruct (first_rejection cs); [apply Hk|].
  destruct (all_fulfilled cs); [apply Hk | exact Hk].
Qed.

(** Delivering into child [j] of a pool. *)
Lemma deliver_pool_child {A : Type} (t : Async A) (j : nat) (p : list Dir)
  (pl : Payload) (w : World) (cj : Async JSValue) :
  (pool_rest S) t -> children t !! j = Some cj ->
  children (fst (deliver (Child j :: p) pl t w)) =
    <[j := fst (deliver p pl cj w)]> (children t) /\
  snd (deliver (Child j :: p) pl t w) = snd (deliver p pl cj w) /\
  (pool_rest S) (fst (deliver (Child j :: p) pl t w)).
Proof.
  intros Hrest Hj.
  destruct t as [a|e|X op k|next|url method headers k|resp k
                |cs k|cs k|cs main]; try contradiction;
    cbn [children] in Hj; cbn [deliver]; rewrite Hj;
    destruct (deliver p pl cj w) as [cj' w']; cbn [fst snd].
  - rewrite children_join. repeat split. apply pool_rest_join, Hrest.
  - repeat split. exact Hrest.
Qed.

Lemma deliver_pool_none {A : Type} (t : Async A) (j : nat) (p : list Dir)
  (pl : Payload) (w : World) :
  children t !! j = None -> deliver (Child j :: p) pl t w = (t, w).
Proof.
  intros Hj.
  destruct t as [a|e|X op k|next|url method headers k|resp k
                |cs k|cs k|cs main]; try reflexivity;
    cbn [children] in Hj; cbn [deliver]; rewrite Hj; reflexivity.
Qed.

Lemma deliver_pool_here {A : Type} (t : Async A) (pl : Payload) (w : World) :
  (pool_rest S) t -> deliver [] pl t w = (t, w).
Proof.
  destruct t; try contradiction; intros _; destruct pl; reflexivity.
Qed.

Lemma deliver_pool_main {A : Type} (t : Async A) (p : list Dir)
  (pl : Payload) (w : World) :
  (pool_rest S) t ->
  children (fst (deliver (Main :: p) pl t w)) = children t /\
  (pool_rest S) (fst (deliver (Main :: p) pl t w)) /\
  same_page (snd (deliver (Main :: p) pl t w)) w /\
  agree_on S (snd (deliver (Main :: p) pl t w)) w.
Proof.
  intros Hrest.
  destruct t as [a|e|X op k|next|url method headers k|resp k
                |cs k|cs k|cs main]; try contradiction; cbn [deliver].
  - cbn [fst snd children]. split; [reflexivity|]. split; [exact Hrest|].
    split; [apply same_page_refl | intros id _; reflexivity].
  - cbn [pool_rest] in Hrest.
    pose proof (deliver_obeys read_only (avoids S) (fun _ => True)
                  p pl main w Hrest) as Ho.
    assert (same_page (snd (deliver p pl main w)) w /\
            agree_on S (snd (deliver p pl main w)) w) as Hw.
    { apply (deliver_keeps read_only (avoids S) (fun _ => True)
               (fun w' => same_page w' w /\ agree_on S w' w));
        [|exact Hrest|split; [apply same_page_refl|intros id _; reflexivity]].
      intros X op w0 Hop [Hp Ha]. split.
      - eapply same_page_trans; [apply perform_same_page | exact Hp].
      - eapply agree_on_trans; [apply avoids_perform, Hop | exact Ha]. }
    destruct (deliver p pl main w) as [m' w']. cbn [fst snd children] in *.
    split; [reflexivity|]. split; [exact Ho | exact Hw].
Qed.

Lemma exec_project (schedule : list Event) :
  forall st, exec (project i schedule) st = fold_left (solo_handle i) schedule st.
Proof.
  induction schedule as [|ev schedule IH]; intros st; [reflexivity|].
  cbn [fold_left]. rewrite <- IH. unfold project, solo_handle.
  destruct ev as [tg pl tm].
  destruct tg as [|d p]; [reflexivity|].
  destruct d as [j|]; [|reflexivity].
  cbn. destruct (j =? i)%nat; reflexivity.
Qed.

Lemma pool_step {A : Type} (t : Async A) (c : Async JSValue)
  (wp ws : World) (ev : Event) :
  (pool_inv S i) t c ->
  obeys read_only (owns S) (fun _ => True) true c ->
  same_page wp ws -> agree_on S wp ws ->
  (pool_inv S i) (fst (handle (t, wp) ev)) (fst ((solo_handle i) (c, ws) ev)) /\
  obeys read_only (owns S) (fun _ => True) true
    (fst ((solo_handle i) (c, ws) ev)) /\
  same_page (snd (handle (t, wp) ev)) (snd ((solo_handle i) (c, ws) ev)) /\
  agree_on S (snd (handle (t, wp) ev)) (snd ((solo_handle i) (c, ws) ev)).
Proof.
  intros (Hi & Hothers & Hrest) Hc Hp Ha.
  unfold handle, solo_handle. cbn [fst snd].
  destruct ev as [tg pl tm]. cbn [target payload at_time].
  destruct tg as [|d p]; [|destruct d as [j|]].
  - rewrite (deliver_pool_here _ _ _ Hrest). cbn [fst snd].
    split; [exact (conj Hi (conj Hothers Hrest))|].
    split; [exact Hc|]. split; [exact Hp | exact Ha].
  - destruct (Nat.eqb_spec j i) as [->|Hne].
    + (* the event goes to child [i] itself *)
      destruct (deliver_pool_child t i p pl (set_clock tm wp) c Hrest Hi)
        as (Ech & Ew & Hrest').
      assert (alike S (set_clock tm wp) (set_clock tm ws)) as Hal.
      { split; [reflexivity|]. split; assumption. }
      destruct (deliver_related read_only (owns S) (fun _ => True) (alike S)
                  (fun X op w1 w2 => @owns_perform S X op w1 w2)
                  p pl c _ _ Hc Hal) as (Et & _ & Hp' & Ha').
      unfold handle. cbn [fst snd target payload at_time].
      rewrite Ew, <- Et. split; [|split; [|split; assumption]].
      * split; [|split; [|exact Hrest']].
        -- rewrite Ech. apply list_lookup_insert_eq.
           eapply lookup_lt_Some, Hi.
        -- intros j cj Hj Hcj. rewrite Ech in Hcj.
           rewrite list_lookup_insert_ne in Hcj by auto.
           eapply Hothers; eassumption.
      * apply deliver_obeys, Hc.
    + (* the event goes to another child *)
      destruct (children t !! j) as [cj|] eqn:Ej.
      * destruct (deliver_pool_child t j p pl (set_clock tm wp) cj Hrest Ej)
          as (Ech & Ew & Hrest').
        assert (obeys read_only (avoids S) (fun _ => True) true cj) as Hcj
          by (eapply Hothers; eassumption).
        assert (same_page (snd (deliver p pl cj (set_clock tm wp))) ws /\
                agree_on S (snd (deliver p pl cj (set_clock tm wp))) ws)
          as [Hp' Ha'].
        { apply (deliver_keeps read_only (avoids S) (fun _ => True)
                   (fun w' => same_page w' ws /\ agree_on S w' ws));
            [|exact Hcj|split; assumption].
          intros X op w0 Hop [Hp0 Ha0]. split.
          - eapply same_page_trans; [apply perform_same_page | exact Hp0].
          - eapply agree_on_trans; [apply avoids_perform, Hop | exact Ha0]. }
        rewrite Ew. split; [|split; [exact Hc|split; assumption]].
        split; [|split; [|exact Hrest']].
        -- rewrite Ech, list_lookup_insert_ne by exact Hne. exact Hi.
        -- intros j' cj' Hj' Hcj'. rewrite Ech in Hcj'.
           destruct (decide (j = j')) as [<-|Hjj].
           ++ rewrite list_lookup_insert_eq in Hcj'
                by (eapply lookup_lt_Some, Ej).
              injection Hcj' as <-. apply deliver_obeys, Hcj.
           ++ rewrite list_lookup_insert_ne in Hcj' by exact Hjj.
              eapply Hothers; eassumption.
      * rewrite (deliver_pool_none _ _ _ _ _ Ej). cbn [fst snd].
        split; [exact (conj Hi (conj Hothers Hrest))|].
        split; [exact Hc|]. split; [exact Hp | exact Ha].
  - destruct (deliver_pool_main t p pl (set_clock tm wp) Hrest)
      as (Ech & Hrest' & Hp' & Ha').
    split; [|split; [exact Hc|split]].
    + split; [rewrite Ech; exact Hi|]. split; [|exact Hrest'].
      intros j cj Hj Hcj. rewrite Ech in Hcj. eapply Hothers; eassumption.
    + eapply same_page_trans; [exact Hp'|exact Hp].
    + eapply agree_on_trans; [exact Ha'|exact Ha].
Qed.

(** Child [i] of a pool ends up exactly as it does when it runs alone on
    the events addressed to it, and so do the elements it owns. *)
Lemma pool_exec {A : Type} (schedule : list Event) :
  forall (t : Async A) (c : Async JSValue) (wp ws : World),
  (pool_inv S i) t c ->
  obeys read_only (owns S) (fun _ => True) true c ->
  same_page wp ws -> agree_on S wp ws ->
  children (fst (exec schedule (t, wp))) !! i =
    Some (fst (exec (project i schedule) (c, ws))) /\
  agree_on S (snd (exec schedule (t, wp)))
    (snd (exec (project i schedule) (c, ws))).
Proof.
  intros t c wp ws. rewrite exec_project. unfold exec.
  revert t c wp ws.
  induction schedule as [|ev schedule IH]; intros t c wp ws Hinv Hc Hp Ha.
  - cbn. split; [apply Hinv | exact Ha].
  - cbn [fold_left].
    destruct (pool_step t c wp ws ev Hinv Hc Hp Ha) as (Hinv' & Hc' & Hp' & Ha').
    destruct (handle (t, wp) ev) as [t' wp'].
    destruct ((solo_handle i) (c, ws) ev) as [c' ws'].
    apply IH; assumption.
Qed.

End Pool.

(** ** Running a caller in terms of its callee *)

Lemma resume_join {A B : Type} (cs : list (Async JSValue))
  (k : Completion (list JSValue) -> Async A) (f : Completion A -> Async B)
  (w : World) :
  resume (join cs k) f w = (join cs (fun r => on_completion (k r) f), w).
Proof.
  unfold join. destruct (first_rejection cs); [reflexivity|].
  destruct (all_fulfilled cs); reflexivity.
Qed.

Lemma resume_pending {A B : Type} (t : Async A) :
  forall (f : Completion A -> Async B) (w : World),
  outcome t = None -> resume t f w = (on_completion t f, w).
Proof.
  revert A t.
  apply (Async_nested_ind (fun A t =>
           forall (f : Completion A -> Async B) (w : World),
           outcome t = None -> resume t f w = (on_completion t f, w)));
    cbn; try discriminate; try reflexivity.
  intros A cs main _ IH f w H. rewrite (IH f w H). reflexivity.
Qed.

Lemma run_sync_on_completion {A B : Type} (t : Async A) :
  forall f : Completion A -> Async B,
  code t ->
  forall w : World,
  run_sync (on_completion t f) w =
    resume (fst (run_sync t w)) f (snd (run_sync t w)).
Proof.
  revert A t.
  apply (Async_nested_ind (fun A t => forall f : Completion A -> Async B,
           code t -> forall w,
           run_sync (on_completion t f) w =
             resume (fst (run_sync t w)) f (snd (run_sync t w))));
    try (intros; reflexivity); try (intros; contradiction).
  - intros A X op k IH f Hc w. cbn [on_completion].
    rewrite !run_sync_Act. apply IH, Hc.
  - intros A cs k _ _ f Hc w. cbn [on_completion].
    rewrite !run_sync_All. cbn [fst snd]. rewrite resume_join. reflexivity.
Qed.

Lemma suspended_run_sync {A : Type} (t : Async A) :
  code t -> forall w : World, suspended (fst (run_sync t w)).
Proof.
  revert A t.
  apply (Async_nested_ind (fun A t =>
           code t -> forall w, suspended (fst (run_sync t w))));
    try (intros; assumption); try (intros; contradiction).
  - intros A X op k IH Hc w. rewrite run_sync_Act. apply IH, Hc.
  - intros A cs k _ _ Hc w. rewrite run_sync_All. cbn [fst].
    unfold join. destruct (first_rejection _); [apply Hc|].
    destruct (all_fulfilled _); [apply Hc | exact Hc].
Qed.

Lemma deliver_on_completion {A B : Type} (p : list Dir) (pl : Payload) :
  forall (t : Async A) (f : Completion A -> Async B) (w : World),
  suspended t -> outcome t = None ->
  deliver p pl (on_completion t f) w =
    resume (fst (deliver p pl t w)) f (snd (deliver p pl t w)).
Proof.
  revert A. induction p as [|d p IH]; intros A t f w Hs Hout.
  - destruct t as [a|e|X op k|next|url method headers k|resp k
                  |cs k|cs k|cs main];
      try discriminate; try contradiction;
      destruct pl; cbn [on_completion deliver fst snd];
      try (apply run_sync_on_completion; apply Hs);
      try reflexivity.
    all: cbn in Hout; cbn [resume];
      rewrite (resume_pending main f w Hout); reflexivity.
  - destruct d as [i|];
      destruct t as [a|e|X op k|next|url method headers k|resp k
                    |cs k|cs k|cs main];
      try discriminate; try contradiction;
      cbn [on_completion deliver fst snd]; try reflexivity.
    + destruct (cs !! i) as [c|]; [|reflexivity].
      destruct (deliver p pl c w) as [c' w']. cbn [fst snd].
      rewrite resume_join. reflexivity.
    + cbn in Hout. destruct (cs !! i) as [c|].
      * destruct (deliver p pl c w) as [c' w']. cbn [fst snd resume].
        rewrite (resume_pending main f w' Hout). reflexivity.
      * cbn [fst snd resume].
        rewrite (resume_pending main f w Hout). reflexivity.
    + cbn in Hs, Hout. rewrite (IH _ main f w Hs Hout).
      destruct (deliver p pl main w) as [m' w']. cbn [fst snd resume].
      destruct (resume m' f w'); reflexivity.
Qed.

Lemma suspended_deliver {A : Type} (p : list Dir) (pl : Payload) :
  forall (t : Async A) (w : World),
  suspended t -> suspended (fst (deliver p pl t w)).
Proof.
  revert A. induction p as [|d p IH]; intros A t w Hs.
  - destruct t; destruct pl; cbn [deliver fst]; try exact Hs;
      apply suspended_run_sync; apply Hs.
  - destruct d as [i|];
      destruct t as [a|e|X op k|next|url method headers k|resp k
                    |cs k|cs k|cs main];
      cbn [deliver fst]; try exact Hs.
    + destruct (cs !! i) as [c|]; [|exact Hs].
      destruct (deliver p pl c w) as [c' w']. cbn [fst].
      unfold join. destruct (first_rejection _); [apply Hs|].
      destruct (all_fulfilled _); [apply Hs | exact Hs].
    + destruct (cs !! i) as [c|]; [|exact Hs].
      destruct (deliver p pl c w) as [c' w']. exact Hs.
    + specialize (IH _ main w Hs).
      destruct (deliver p pl main w) as [m' w']. exact IH.
Qed.

Lemma outcome_on_completion_pending {A B : Type} (t : Async A) :
  forall f : Completion A -> Async B,
  outcome t = None -> outcome (on_completion t f) = None.
Proof.
  revert A t.
  apply (Async_nested_ind (fun A t => forall f : Completion A -> Async B,
           outcome t = None -> outcome (on_completion t f) = None));
    cbn; try discriminate; try reflexivity.
  intros A cs main _ IH f H. apply IH, H.
Qed.

Lemma exec_app {A : Type} (s1 s2 : list Event) (st : Async A * World) :
  exec (s1 ++ s2) st = exec s2 (exec s1 st).
Proof. apply fold_left_app. Qed.

Lemma pending_through_app {A : Type} (s1 s2 : list Event) :
  forall st : Async A * World,
  pending_through (s1 ++ s2) st <->
  pending_through s1 st /\ pending_through s2 (exec s1 st).
Proof.
  induction s1 as [|ev s1 IH]; intros st; cbn; [tauto|].
  rewrite IH. tauto.
Qed.

(** Along a schedule that leaves the callee pending, the caller is the
    callee with the caller's continuation put behind it. *)
Lemma exec_resume {A B : Type} (schedule : list Event)
  (f : Completion A -> Async B) :
  forall (t : Async A) (w : World),
  suspended t -> pending_through schedule (t, w) ->
  exec schedule (resume t f w) =
    resume (fst (exec schedule (t, w))) f (snd (exec schedule (t, w))) /\
  pending_through schedule (resume t f w).
Proof.
  induction schedule as [|ev schedule IH]; intros t w Hs Hp.
  - split; [reflexivity | exact I].
  - destruct Hp as [Hout Hp]. cbn [fst] in Hout.
    rewrite (resume_pending t f w Hout).
    assert (handle (on_completion t f, w) ev =
            resume (fst (handle (t, w) ev)) f (snd (handle (t, w) ev))) as E.
    { unfold handle. cbn [fst snd].
      apply deliver_on_completion; assumption. }
    cbn [exec fold_left pending_through fst]. rewrite E.
    destruct (IH (fst (handle (t, w) ev)) (snd (handle (t, w) ev)))
      as [IH1 IH2].
    + apply suspended_deliver, Hs.
    + destruct (handle (t, w) ev); exact Hp.
    + split; [|split].
      * unfold exec in IH1. rewrite IH1.
        destruct (handle (t, w) ev); reflexivity.
      * apply outcome_on_completion_pending, Hout.
      * exact IH2.
Qed.

Lemma exec_on_completion {A B : Type} (schedule : list Event)
  (p : Async A) (f : Completion A -> Async B) (w : World) :
  code p -> pending_through schedule (run_sync p w) ->
  exec schedule (run_sync (on_completion p f) w) =
    resume (fst (exec schedule (run_sync p w))) f
      (snd (exec schedule (run_sync p w))) /\
  pending_through schedule (run_sync (on_completion p f) w).
Proof.
  intros Hc Hp. rewrite (run_sync_on_completion p f Hc w).
  destruct (run_sync p w) as [t w'] eqn:E. cbn [fst snd] in *.
  apply exec_resume; [|exact Hp].
  change t with (fst (t, w')). rewrite <- E. apply suspended_run_sync, Hc.
Qed.

Lemma code_on_completion {A B : Type} (t : Async A) :
  forall f : Completion A -> Async B,
  code t -> (forall c, code (f c)) -> code (on_completion t f).
Proof.
  revert A t.
  apply (Async_nested_ind (fun A t => forall f : Completion A -> Async B,
           code t -> (forall c, code (f c)) -> code (on_completion t f)));
    cbn; auto.
Qed.

Lemma code_complete {A : Type} (c : Completion A) : code (complete c).
Proof. destruct c; exact I. Qed.

Lemma code_await {A : Type} (p : Async A) : code p -> code (await p).
Proof.
  intros H. apply code_on_completion; [exact H|]. intros c. apply code_complete.
Qed.

Lemma code_bind {A B : Type} (p : Async A) (f : A -> Async B) :
  code p -> (forall a, code (f a)) -> code (bind p f).
Proof.
  intros Hp Hf. apply code_on_completion; [exact Hp|].
  intros [a|e]; [apply Hf | exact I].
Qed.

Lemma code_try_catch {A : Type} (p : Async A) (h : JSError -> Async A) :
  code p -> (forall e, code (h e)) -> code (try_catch p h).
Proof.
  intros Hp Hh. apply code_on_completion; [exact Hp|].
  intros [a|e]; [exact I | apply Hh].
Qed.

Lemma code_act {X : Type} (op : Op X) : code (act op).
Proof. intros x. exact I. Qed.

(** Decide that a tree is a source tree, by its construction. *)
Ltac code_step :=
  match goal with
  | |- True => exact I
  | |- forall _, _ => intro
  | |- code (bind _ _) => apply code_bind
  | |- code (try_catch _ _) => apply code_try_catch
  | |- code (await _) => apply code_await
  | |- code (act _) => apply code_act
  | |- code (complete _) => apply code_complete
  | |- code (await_fetch _ _ _) => intro; apply code_complete
  | |- code (await_json _) => intro; apply code_complete
  | |- code (Promise_all _) => intro; apply code_complete
  | |- code (Ret _) => exact I
  | |- code (Throw _) => exact I
  | |- code (if ?b then _ else _) => destruct b
  | |- code (match ?x with _ => _ end) => destruct x
  end.

Ltac code_tac := repeat code_step.

(** After [await p] the caller takes its turn with one more event. *)
Lemma exec_await_then {A B : Type} (p : Async A)
  (f : Completion A -> Async B) (w : World) (schedule : list Event)
  (t' : Async A) (w' : World) (tm : Z) :
  code p -> reaches p w schedule t' w' -> is_Some (outcome t') ->
  reaches (on_completion (await p) f) w
    (schedule ++ [event (main_path t') Tick tm])
    (fst (resume t' f (set_clock tm w')))
    (snd (resume t' f (set_clock tm w'))).
Proof.
  intros Hc [Hp He] Hout.
  destruct (exec_on_completion schedule p (fun c => Yield (complete c)) w
              Hc Hp) as [E1 P1].
  fold (await p) in E1, P1. rewrite He in E1. cbn [fst snd] in E1.
  assert (forall (t : Async A) (w0 : World), is_Some (outcome t) ->
            outcome (fst (resume t (fun c => Yield (complete c)) w0)) = None /\
            handle (resume t (fun c => Yield (complete c)) w0)
              (event (main_path t) Tick tm) = (t, set_clock tm w0)) as Hres.
  { clear. revert A.
    apply (Async_nested_ind (fun A t => forall w0, is_Some (outcome t) ->
             outcome (fst (resume t (fun c => Yield (complete c)) w0)) = None /\
             handle (resume t (fun c => Yield (complete c)) w0)
               (event (main_path t) Tick tm) = (t, set_clock tm w0)));
      cbn [outcome]; try (intros; exfalso; eapply is_Some_None; eassumption).
    - intros A a w0 _. split; reflexivity.
    - intros A e w0 _. split; reflexivity.
    - intros A cs main _ IH w0 Hs. destruct (IH w0 Hs) as [IH1 IH2].
      cbn [resume main_path]. unfold handle, event in *.
      cbn [target payload at_time] in *.
      destruct (resume main (fun c => Yield (complete c)) w0) as [m1 w1].
      cbn [fst snd outcome deliver] in *. split; [exact IH1|].
      rewrite IH2. reflexivity. }
  destruct (Hres t' w' Hout) as [Hnone Hstep].
  assert (reaches (await p) w (schedule ++ [event (main_path t') Tick tm])
            t' (set_clock tm w')) as [P2 E2].
  { split.
    - apply pending_through_app. split; [exact P1|]. rewrite E1.
      cbn [pending_through]. split; [exact Hnone | exact I].
    - rewrite exec_app, E1. exact Hstep. }
  destruct (exec_on_completion _ (await p) f w (code_await p Hc) P2)
    as [E3 P3].
  rewrite E2 in E3. cbn [fst snd] in E3.
  split; [exact P3|]. rewrite E3. destruct (resume t' f _); reflexivity.
Qed.

(** ** [makeApiCall] and the getters, run *)

Section Runs.
Context {host : Host}.

Lemma code_makeApiCall (endpoint : string) : code (makeApiCall endpoint).
Proof. unfold makeApiCall. code_tac. Qed.

Lemma code_getCachedData (key : string) : code (getCachedData key).
Proof. unfold getCachedData. code_tac. Qed.

Lemma code_setCachedData (key : string) (v : JSValue) :
  code (setCachedData key v).
Proof. unfold setCachedData. code_tac. Qed.

Lemma code_cached_getter (key endpoint : string) :
  code (cached_getter key endpoint).
Proof.
  unfold cached_getter. code_tac;
    auto using code_makeApiCall, code_getCachedData, code_setCachedData.
Qed.

Lemma makeApiCall_start (endpoint : string) (w : World) :
  exists k,
    run_sync (makeApiCall endpoint) w =
      (Fetch (baseUrl +:+ endpoint) "POST"
         [("Content-Type", "application/json")] k, w).
Proof. eexists. reflexivity. Qed.

Lemma set_console_nil (w : World) : set_console (fun l => l ++ []) w = w.
Proof. destruct w. unfold set_console. cbn. rewrite app_nil_r. reflexivity. Qed.

Lemma makeApiCall_reaches (endpoint : string) (w : World) (d : Delivery)
  (t1 t2 : Z) :
  delivery_ok d ->
  returns (makeApiCall endpoint) w (delivery_events [] d t1 t2)
    (delivery_result d) (after_delivery endpoint d t1 t2 w).
Proof.
  intros Hok. unfold returns, reaches, after_delivery.
  destruct d as [e|resp|resp e|resp payload]; cbn in Hok;
    cbn [delivery_events delivery_log delivery_error delivery_result
         delivery_end];
    (split; [cbn; rewrite ?Hok; cbn; auto|]);
    cbn; rewrite ?Hok; cbn; try reflexivity.
  rewrite set_console_nil. reflexivity.
Qed.

Lemma getters_pattern :
  getMarketSummary = cached_getter "marketSummary" "/marketSummery" /\
  getTopGainers = cached_getter "topGainers" "/topGainers" /\
  getTopLosers = cached_getter "topLosers" "/topLosers" /\
  getMostActive = cached_getter "mostActive" "/mostActive".
Proof. repeat split; reflexivity. Qed.

(** A getter that finds a truthy payload young enough returns it at once and
    sends nothing. *)
Lemma cached_getter_hit (key endpoint : string) (w : World) :
  ToBoolean (cached_value key w) = true ->
  run_sync (cached_getter key endpoint) w = (Ret (cached_value key w), w).
Proof.
  intros Hhit. unfold cached_getter, bind.
  rewrite (run_sync_on_completion _ _ (code_getCachedData key)).
  rewrite getCachedData_run. cbn [fst snd resume]. rewrite Hhit. reflexivity.
Qed.

(** Otherwise it sends the request. *)
Lemma cached_getter_miss_start (key endpoint : string) (w : World) :
  ToBoolean (cached_value key w) = false ->
  exists k,
    run_sync (cached_getter key endpoint) w =
      (Fetch (baseUrl +:+ endpoint) "POST"
         [("Content-Type", "application/json")] k, w).
Proof.
  intros Hmiss. unfold cached_getter, bind.
  rewrite (run_sync_on_completion _ _ (code_getCachedData key)).
  rewrite getCachedData_run. cbn [fst snd resume]. rewrite Hmiss.
  eexists. reflexivity.
Qed.

(** And once the delivery has been dealt with and the getter has had its
    turn, it returns what [makeApiCall] returned, having stored it if it is
    truthy. *)
Lemma cached_getter_miss (key endpoint : string) (w : World) (d : Delivery)
  (t1 t2 t3 : Z) :
  ToBoolean (cached_value key w) = false -> delivery_ok d ->
  returns (cached_getter key endpoint) w
    (delivery_events [] d t1 t2 ++ [event [] Tick t3])
    (delivery_result d)
    (stored key (delivery_result d)
       (set_clock t3 (after_delivery endpoint d t1 t2 w))).
Proof.
  intros Hmiss Hok.
  pose proof (exec_await_then (makeApiCall endpoint)
                (fun c : Completion JSValue =>
                   match c with
                   | Normal data =>
                       ((if ToBoolean data then setCachedData key data
                         else Ret tt);; Ret data)%async
                   | Abrupt e => Throw e
                   end)
                w _ _ _ t3 (code_makeApiCall endpoint)
                (makeApiCall_reaches endpoint w d t1 t2 Hok)
                (ltac:(eexists; reflexivity))) as H.
  cbn [main_path resume] in H.
  unfold returns, reaches, cached_getter, bind.
  rewrite (run_sync_on_completion _ _ (code_getCachedData key)).
  rewrite getCachedData_run. cbn [fst snd resume]. rewrite Hmiss.
  unfold bind in H. destruct H as [HP HE].
  split; [exact HP|]. rewrite HE. unfold stored.
  destruct (ToBoolean (delivery_result d)); reflexivity.
Qed.

End Runs.

Section GetterClaims.
Context {host : Host}.

Lemma getters_are_cached_getters (g : Async JSValue) (key endpoint : string) :
  In (g, key, endpoint) getters -> g = cached_getter key endpoint.
Proof.
  intros [H|[H|[H|[H|[]]]]]; injection H as <- <- <-; reflexivity.
Qed.

Lemma cached_getter_discipline (key endpoint : string) :
  obeys read_only caches_truthy (fun _ => False) false
    (cached_getter key endpoint).
Proof. walk; auto. Qed.

Lemma never_rejects {A : Type} (before after : OpPred) (p : Async A)
  (w : World) (schedule : list Event) (e : JSError) :
  obeys before after (fun _ => False) false p ->
  outcome (fst (exec schedule (run_sync p w))) <> Some (Abrupt e).
Proof.
  intros Hp Hout.
  eapply (outcome_thrown before after (fun _ => False) _ true e);
    [|exact Hout].
  apply exec_obeys. eapply run_sync_obeys, Hp.
Qed.

(** C3: for every endpoint, [makeApiCall] never ends with an exception,
    whatever it is sent; when the request fails, when the status is not a
    success and when the body cannot be read, it logs the error and returns
    [null] as an ordinary value. *)
Theorem makeApiCall_never_propagates (endpoint : string) (w : World) :
  (forall schedule e,
     outcome (fst (exec schedule (run_sync (makeApiCall endpoint) w)))
       <> Some (Abrupt e)) /\
  (forall d t1 t2, delivery_ok d ->
     returns (makeApiCall endpoint) w (delivery_events [] d t1 t2)
       (delivery_result d) (after_delivery endpoint d t1 t2 w)) /\
  (forall d, (forall resp payload, d <> Body resp payload) ->
     delivery_result d = JNull /\
     exists e,
       delivery_log endpoint d =
         [{| log_message := "Error calling CSE API " +:+ endpoint +:+ ":";
             log_error := Some e |}]).
Proof.
  split; [|split].
  - intros schedule e. eapply never_rejects, (makeApiCall_never_throws _ false).
  - intros d t1 t2. apply makeApiCall_reaches.
  - intros d Hd. destruct d as [e|resp|resp e|resp payload];
      try (split; [reflexivity | eexists; reflexivity]).
    exfalso. eapply Hd. reflexivity.
Qed.

Lemma caches_truthy_keeps (w : World) X (op : Op X) (w' : World) :
  caches_truthy X op ->
  (forall key entry, cache w' !! key = Some entry ->
     cache w !! key = Some entry \/ ToBoolean (data entry) = true) ->
  forall key entry, cache (snd (perform op w')) !! key = Some entry ->
    cache w !! key = Some entry \/ ToBoolean (data entry) = true.
Proof.
  intros Hop Hinv key0 entry0.
  destruct op; cbn in *; try apply Hinv; try contradiction.
  destruct (decide (key = key0)) as [->|Hne].
  - rewrite lookup_insert_eq. intros [= <-]. right. exact Hop.
  - rewrite lookup_insert_ne by exact Hne. apply Hinv.
Qed.

(** C4: a getter whose fetch fails (the request fails, the status is not a
    success, the body cannot be read, or the body is [null]) returns [null]
    and leaves the cache as it was; it never ends with an exception; no entry
    it ever adds to the cache has a falsy payload; and a key that had no
    entry is still absent for [getCachedData] afterwards. *)
Theorem getter_failed_fetch (g : Async JSValue) (key endpoint : string)
  (w : World) (d : Delivery) (t1 t2 t3 : Z) :
  In (g, key, endpoint) getters ->
  ToBoolean (cached_value key w) = false ->
  delivery_ok d -> delivery_result d = JNull ->
  let final :=
    exec (delivery_events [] d t1 t2 ++ [event [] Tick t3]) (run_sync g w) in
  fst final = Ret JNull /\
  cache (snd final) = cache w /\
  (forall schedule e,
     outcome (fst (exec schedule (run_sync g w))) <> Some (Abrupt e)) /\
  (forall schedule k entry,
     cache (snd (exec schedule (run_sync g w))) !! k = Some entry ->
     cache w !! k = Some entry \/ ToBoolean (data entry) = true) /\
  (cache w !! key = None ->
   forall later, cache later = cache (snd final) ->
     run_sync (getCachedData key) later = (Ret JNull, later)).
Proof.
  intros Hin Hmiss Hok Hnull final.
  pose proof (getters_are_cached_getters g key endpoint Hin) as Hg.
  subst g.
  destruct (cached_getter_miss key endpoint w d t1 t2 t3 Hmiss Hok)
    as [_ Hfinal].
  assert (fst final = Ret JNull /\ cache (snd final) = cache w) as [Hv Hc].
  { subst final. rewrite Hfinal, Hnull. unfold stored. cbn. auto. }
  split; [exact Hv|]. split; [exact Hc|]. split; [|split].
  - intros schedule e. eapply never_rejects, cached_getter_discipline.
  - intros schedule.
    apply (exec_keeps read_only caches_truthy (fun _ => False)
             (fun w' => forall k entry, cache w' !! k = Some entry ->
                cache w !! k = Some entry \/ ToBoolean (data entry) = true)).
    + intros X op w' Hop Hinv. apply caches_truthy_keeps; assumption.
    + intros tm w' Hinv. exact Hinv.
    + eapply run_sync_obeys, cached_getter_discipline.
    + rewrite (run_sync_read_only _ _ _ w (cached_getter_discipline _ _)).
      auto.
  - intros Hcold later Hlater. rewrite getCachedData_run.
    unfold cached_value. rewrite Hlater, Hc, Hcold. reflexivity.
Qed.

(** C5 (as the code has it): on a miss or an expiry a getter sends the POST
    request to its endpoint; it returns what [makeApiCall] returned; when that
    value is truthy it has by then been stored under the getter's key with
    the time of the moment; a falsy value ([null], [false], [0], the empty
    string) is returned without being stored. *)
Theorem getter_stores_truthy (g : Async JSValue) (key endpoint : string)
  (w : World) (d : Delivery) (t1 t2 t3 : Z) :
  In (g, key, endpoint) getters ->
  ToBoolean (cached_value key w) = false ->
  delivery_ok d ->
  let final :=
    exec (delivery_events [] d t1 t2 ++ [event [] Tick t3]) (run_sync g w) in
  (exists k,
     run_sync g w =
       (Fetch (baseUrl +:+ endpoint) "POST"
          [("Content-Type", "application/json")] k, w)) /\
  fst final = Ret (delivery_result d) /\
  (ToBoolean (delivery_result d) = true ->
     cache (snd final) =
       <[key := {| data := delivery_result d; timestamp := t3 |}]> (cache w)) /\
  (ToBoolean (delivery_result d) = false -> cache (snd final) = cache w).
Proof.
  intros Hin Hmiss Hok final.
  pose proof (getters_are_cached_getters g key endpoint Hin) as Hg.
  subst g.
  destruct (cached_getter_miss key endpoint w d t1 t2 t3 Hmiss Hok)
    as [_ Hfinal].
  split; [apply cached_getter_miss_start, Hmiss|].
  subst final. rewrite Hfinal. unfold stored. cbn [fst snd].
  split; [reflexivity|]. split; intros Hb; rewrite Hb; reflexivity.
Qed.

End GetterClaims.

Lemma getter_failed_fetch_witness :
  fst (exec (delivery_events [] (NetworkFailure (TypeError "Failed to fetch"))
               1010 1010 ++ [event [] Tick 1011])
         (run_sync getTopGainers cold_world)) = Ret JNull.
Proof.
  apply (getter_failed_fetch getTopGainers "topGainers" "/topGainers"
           cold_world (NetworkFailure (TypeError "Failed to fetch"))
           1010 1010 1011).
  - right. left. reflexivity.
  - reflexivity.
  - exact I.
  - reflexivity.
Defined.

Lemma getter_stores_truthy_witness :
  cache (snd (exec (delivery_events [] (Body ok_response (JArr [])) 1010 1020
                      ++ [event [] Tick 1021])
                (run_sync getTopGainers cold_world)))
  = <[ "topGainers" := {| data := JArr []; timestamp := 1021 |} ]> ∅.
Proof.
  apply (getter_stores_truthy getTopGainers "topGainers" "/topGainers"
           cold_world (Body ok_response (JArr [])) 1010 1020 1021).
  - right. left. reflexivity.
  - reflexivity.
  - reflexivity.
  - reflexivity.
Defined.

(** C5 as stated fails: the body [0] is a result that is not [null]; the
    getter returns it and the cache stays empty. *)
Lemma getter_skips_falsy_result :
  let final :=
    exec (delivery_events [] (Body ok_response (JNum (of_Z 0))) 1010 1020
            ++ [event [] Tick 1021])
      (run_sync getTopGainers cold_world) in
  fst final = Ret (JNum (of_Z 0)) /\
  JNum (of_Z 0) <> JNull /\
  cache (snd final) !! "topGainers" = None.
Proof. vm_compute. repeat split; discriminate. Qed.

(** ** The length of an array as a double *)

Lemma digits2_pos_lower (p : positive) :
  2 ^ (Z.pos (digits2_pos p) - 1) <= Z.pos p.
Proof.
  induction p as [p IH|p IH|]; cbn [digits2_pos].
  - rewrite Pos2Z.inj_succ.
    replace (Z.succ (Z.pos (digits2_pos p)) - 1)
      with (Z.succ (Z.pos (digits2_pos p) - 1)) by lia.
    rewrite Z.pow_succ_r by lia. lia.
  - rewrite Pos2Z.inj_succ.
    replace (Z.succ (Z.pos (digits2_pos p)) - 1)
      with (Z.succ (Z.pos (digits2_pos p) - 1)) by lia.
    rewrite Z.pow_succ_r by lia. lia.
  - cbn. lia.
Qed.

Lemma digits2_pos_shift (p k : positive) :
  digits2_pos (Pos.iter xO p k) = (digits2_pos p + k)%positive.
Proof.
  induction k as [|k IH] using Pos.peano_ind.
  - cbn. lia.
  - rewrite Pos.iter_succ. cbn [digits2_pos]. rewrite IH. lia.
Qed.

(** An integer from 1 to 2^53 - 1 is a positive finite double. *)
Lemma of_Z_positive (p : positive) :
  Z.pos p < 2 ^ 53 -> exists m e, of_Z (Z.pos p) = S754_finite false m e.
Proof.
  intros Hp.
  assert (Z.pos (digits2_pos p) <= 53) as Hd.
  { pose proof (digits2_pos_lower p) as Hl.
    destruct (Z_le_gt_dec (Z.pos (digits2_pos p)) 53) as [H|H]; [exact H|].
    exfalso.
    assert (2 ^ 53 <= 2 ^ (Z.pos (digits2_pos p) - 1))
      by (apply Z.pow_le_mono_r; lia).
    lia. }
  assert (forall m e, Z.pos (digits2_pos m) = 53 -> -52 <= e <= 0 ->
            binary_round_aux prec emax false (Z.pos m) e loc_Exact =
              S754_finite false m e) as Haux.
  { intros m e Hm He.
    unfold binary_round_aux, shr_fexp, shr, fexp, emin, prec, emax.
    cbn [Zdigits2 shr_record_of_loc]. rewrite Hm.
    rewrite (Z.max_l (53 + e - 53)) by lia.
    replace (53 + e - 53 - e) with 0 by lia.
    cbn [shr_m loc_of_shr_record round_nearest_even shr_record_of_loc Zdigits2].
    rewrite Hm.
    rewrite (Z.max_l (53 + e - 53)) by lia.
    replace (53 + e - 53 - e) with 0 by lia.
    cbn [shr_m].
    destruct (e <=? 1024 - 53) eqn:E; [reflexivity|].
    apply Z.leb_gt in E. lia. }
  unfold of_Z, binary_normalize, binary_round, shl_align, fexp, emin.
  unfold prec at 1 2 3, emax at 1.
  rewrite (Z.max_l (Z.pos (digits2_pos p) + 0 - 53)) by lia.
  destruct (Z.pos (digits2_pos p) + 0 - 53 - 0) as [|q|q] eqn:E; try lia.
  - eexists _, _. apply Haux; unfold emax, prec; lia.
  - eexists _, _. apply Haux.
    + rewrite digits2_pos_shift. lia.
    + unfold emax, prec. lia.
Qed.

Lemma length_greater_than_zero (n : nat) :
  Z.of_nat n < 2 ^ 53 ->
  fgt (of_Z (Z.of_nat n)) (of_Z 0) = negb (Nat.eqb n 0).
Proof.
  intros Hn. destruct n as [|n]; [reflexivity|].
  rewrite Nat2Z.inj_succ, <- Z.add_1_r in *.
  destruct (Z.of_nat n + 1) as [|p|p] eqn:E; try lia.
  destruct (of_Z_positive p Hn) as (m & e & ->). reflexivity.
Qed.

(** ** The ticker *)

Section Ticker.
Context {host : Host}.






End Ticker.

Lemma resume_outcome {A B : Type} (t : Async A) :
  forall (f : Completion A -> Async B) (w : World) (c : Completion A),
  outcome t = Some c ->
  outcome (fst (resume t f w)) = outcome (fst (run_sync (f c) w)) /\
  snd (resume t f w) = snd (run_sync (f c) w) /\
  main_path (fst (resume t f w)) =
    main_path t ++ main_path (fst (run_sync (f c) w)).
Proof.
  revert A t.
  apply (Async_nested_ind (fun A t =>
           forall (f : Completion A -> Async B) (w : World) (c : Completion A),
           outcome t = Some c ->
           outcome (fst (resume t f w)) = outcome (fst (run_sync (f c) w)) /\
           snd (resume t f w) = snd (run_sync (f c) w) /\
           main_path (fst (resume t f w)) =
             main_path t ++ main_path (fst (run_sync (f c) w))));
    cbn [outcome]; try discriminate.
  - intros A a f w c [= <-]. repeat split.
  - intros A e f w c [= <-]. repeat split.
  - intros A cs main _ IH f w c Hc.
    destruct (IH f w c Hc) as (H1 & H2 & H3).
    cbn [resume main_path]. destruct (resume main f w) as [m' w'].
    cbn [fst snd outcome main_path] in *. rewrite H3. repeat split; assumption.
Qed.

Section TickerRun.
Context {host : Host}.

Lemma code_createTickerContent : code createTickerContent.
Proof. unfold createTickerContent. code_tac. Qed.



End TickerRun.

Section TickerClaim.
Context {host : Host}.






End TickerClaim.



(** ** The updates, run *)

(** An update awaits its getter and then runs the rest in one go. *)
Lemma update_runs {A B : Type} (getter : Async A)
  (rest : Completion A -> Async B) (w : World) (schedule : list Event)
  (v : A) (w' : World) (tm : Z) :
  code getter -> returns getter w schedule v w' ->
  exec (schedule ++ [event [] Tick tm])
    (run_sync (on_completion (await getter) rest) w) =
  run_sync (rest (Normal v)) (set_clock tm w').
Proof.
  intros Hc Hr.
  destruct (exec_await_then getter rest w schedule (Ret v) w' tm Hc Hr
              (ltac:(eexists; reflexivity))) as [_ H].
  cbn [main_path resume] in H. rewrite H.
  symmetry. apply surjective_pairing.
Qed.

Lemma avoids_keeps (S : gset string) (w0 : World) X (op : Op X) (w : World) :
  avoids S X op -> agree_on S w w0 -> agree_on S (snd (perform op w)) w0.
Proof.
  intros Hop Ha. eapply agree_on_trans; [apply avoids_perform, Hop | exact Ha].
Qed.

(** A tree that avoids an element leaves it as it was. *)
Lemma run_sync_avoids {A : Type} (id : string) (t : Async A) (w : World) :
  obeys read_only (avoids {[ id ]}) (fun _ => True) true t ->
  document (snd (run_sync t w)) !! id = document w !! id.
Proof.
  intros H.
  apply (run_sync_keeps read_only (avoids {[ id ]}) (fun _ => True)
           (fun w' => agree_on {[ id ]} w' w) t true);
    [|exact H|intros i _; reflexivity|set_solver].
  intros X op w' Hop Ha. apply avoids_keeps; assumption.
Qed.

(** A getter writes to no element, however its run goes. *)
Lemma cached_getter_keeps_page {host : Host} (key endpoint : string)
  (w : World) (schedule : list Event) :
  document (snd (exec schedule (run_sync (cached_getter key endpoint) w))) =
    document w.
Proof.
  assert (Hop : forall b X (op : Op X) (w0 : World),
            allowed read_only caches_truthy b X op ->
            document w0 = document w ->
            document (snd (perform op w0)) = document w).
  { intros b X op w0 Ho Hw. destruct b, op; cbn in *;
      try contradiction; exact Hw. }
  apply (exec_keeps read_only caches_truthy (fun _ => False)
           (fun w0 => document w0 = document w)).
  - intros X op w0. apply (Hop true).
  - intros tm w0 Hw. exact Hw.
  - apply run_sync_obeys with (b := false), cached_getter_discipline.
  - apply (run_sync_keeps read_only caches_truthy (fun _ => False)
             (fun w0 => document w0 = document w) _ false (Hop false));
      [apply cached_getter_discipline | reflexivity].
Qed.

Lemma zero_or_missing_falsy (v : JSValue) :
  zero_or_missing v -> ToBoolean v = false.
Proof. intros [->|[s ->]]; reflexivity. Qed.

Section ZeroFields.
Context {host : Host}.

Lemma code_getMarketSummary : code getMarketSummary.
Proof. apply code_cached_getter. Qed.

Lemma field_truthy (d : JSValue) (name : string) (a : JSValue) :
  get_prop d name = Normal a -> ToBoolean (field d name) = false ->
  ToBoolean a = true -> False.
Proof. unfold field. intros -> H1 H2. congruence. Qed.

Lemma get_prop_truthy (d : JSValue) (name : string) :
  ToBoolean d = true -> get_prop d name = Normal (field d name).
Proof.
  unfold field, get_prop. destruct d; try discriminate; reflexivity.
Qed.

Ltac contradict_field :=
  match goal with
  | E : get_prop ?d ?n = Normal ?a, Hz : ToBoolean (field ?d ?n) = false,
    T : ToBoolean ?a = true |- _ =>
      exfalso; exact (field_truthy d n a E Hz T)
  end.

Lemma updateMarketSummary_spares (w : World) (schedule : list Event)
  (d : JSValue) (w' : World) (tm : Z) (id name : string) :
  returns getMarketSummary w schedule d w' -> ToBoolean d = true ->
  In (id, name) [("market-turnover", "turnover"); ("market-cap", "marketCap");
                 ("market-change", "ASPIChange")] ->
  ToBoolean (field d name) = false ->
  document (snd (exec (schedule ++ [event [] Tick tm])
                   (run_sync updateMarketSummary w))) !! id =
    document w' !! id.
Proof.
  intros Hr Hd Hin Hz.
  unfold updateMarketSummary. unfold bind at 1.
  rewrite (update_runs getMarketSummary _ w schedule d w' tm
             code_getMarketSummary Hr).
  change (document w' !! id) with (document (set_clock tm w') !! id).
  apply run_sync_avoids. rewrite Hd. cbn [negb].
  destruct Hin as [E|[E|[E|[]]]]; injection E as <- <-;
    walk;
    try contradict_field;
    try (cbv [avoids]; set_solver).
Qed.

Lemma updateASPI_spares (w : World) (schedule : list Event)
  (d : JSValue) (w' : World) (tm : Z) (id name : string) :
  returns getMarketSummary w schedule d w' -> ToBoolean d = true ->
  In (id, name) [("aspi-index", "ASPI"); ("aspi-change", "ASPIChange")] ->
  ToBoolean (field d name) = false ->
  document (snd (exec (schedule ++ [event [] Tick tm])
                   (run_sync updateASPI w))) !! id =
    document w' !! id.
Proof.
  intros Hr Hd Hin Hz.
  unfold updateASPI. unfold bind at 1.
  rewrite (update_runs getMarketSummary _ w schedule d w' tm
             code_getMarketSummary Hr).
  change (document w' !! id) with (document (set_clock tm w') !! id).
  apply run_sync_avoids. rewrite Hd. cbn [negb].
  destruct Hin as [E|[E|[]]]; injection E as <- <-;
    walk;
    try contradict_field;
    try (cbv [avoids]; set_solver).
Qed.

Lemma updateMarketSummary_not_available (w : World) (schedule : list Event)
  (d : JSValue) (w' : World) (tm : Z) :
  returns getMarketSummary w schedule d w' -> ToBoolean d = true ->
  ToBoolean (field d "ASPI") = false ->
  document (snd (exec (schedule ++ [event [] Tick tm])
                   (run_sync updateMarketSummary w))) !! "market-aspi" =
    with_content (TextContent "N/A") <$> document w' !! "market-aspi".
Proof.
  intros Hr Hd Hz.
  unfold updateMarketSummary. unfold bind at 1.
  rewrite (update_runs getMarketSummary _ w schedule d w' tm
             code_getMarketSummary Hr).
  rewrite Hd. cbn [negb].
  unfold bind at 1. unfold act at 1. cbn [on_completion].
  rewrite run_sync_Act. cbn [perform fst snd].
  change (document (set_clock tm w') !! "market-aspi")
    with (document w' !! "market-aspi").
  destruct (document w' !! "market-aspi") as [e|] eqn:He.
  - rewrite (get_prop_truthy d "ASPI" Hd).
    unfold bind at 1 2 3. cbn [complete on_completion]. rewrite Hz.
    unfold act at 1. cbn [on_completion].
    rewrite run_sync_Act. cbn [perform fst snd].
    etransitivity.
    + apply run_sync_avoids. walk;
        try contradict_field; try (cbv [avoids]; set_solver).
    + cbn. rewrite lookup_alter_eq, He. reflexivity.
  - unfold bind at 1. cbn [on_completion].
    etransitivity.
    + apply run_sync_avoids. walk;
        try contradict_field; try (cbv [avoids]; set_solver).
    + cbn. exact He.
Qed.

Lemma summary_keeps_page (w : World) (schedule : list Event) (d : JSValue)
  (w' : World) :
  returns getMarketSummary w schedule d w' -> document w' = document w.
Proof.
  intros [_ H].
  pose proof (cached_getter_keeps_page "marketSummary" "/marketSummery"
                w schedule) as Hk.
  change (cached_getter "marketSummary" "/marketSummery")
    with getMarketSummary in Hk.
  rewrite H in Hk. exact Hk.
Qed.

(** C10: when the summary the getter returns has a field that is [0] (or
    lacks it), [updateMarketSummary] and [updateASPI] leave the element that
    shows the field exactly as it was, [market-aspi] apart, whose text
    becomes "N/A" when [ASPI] is [0] or missing. *)
Theorem zero_fields_left_alone (w : World) (schedule : list Event)
  (d : JSValue) (w' : World) (tm : Z) :
  returns getMarketSummary w schedule d w' -> ToBoolean d = true ->
  (forall id name, In (id, name) summary_fields ->
     zero_or_missing (field d name) ->
     page_after updateMarketSummary w (schedule ++ [event [] Tick tm]) !! id
       = document w !! id) /\
  (forall id name, In (id, name) aspi_fields ->
     zero_or_missing (field d name) ->
     page_after updateASPI w (schedule ++ [event [] Tick tm]) !! id
       = document w !! id) /\
  (zero_or_missing (field d "ASPI") ->
     page_after updateMarketSummary w (schedule ++ [event [] Tick tm])
       !! "market-aspi"
       = with_content (TextContent "N/A") <$> document w !! "market-aspi").
Proof.
  intros Hr Hd. unfold page_after.
  rewrite <- (summary_keeps_page w schedule d w' Hr).
  split; [|split].
  - intros id name Hin Hz.
    apply (updateMarketSummary_spares w schedule d w' tm id name Hr Hd Hin).
    apply zero_or_missing_falsy, Hz.
  - intros id name Hin Hz.
    apply (updateASPI_spares w schedule d w' tm id name Hr Hd Hin).
    apply zero_or_missing_falsy, Hz.
  - intros Hz.
    apply (updateMarketSummary_not_available w schedule d w' tm Hr Hd).
    apply zero_or_missing_falsy, Hz.
Qed.

End ZeroFields.

Lemma zero_fields_left_alone_witness :
  page_after (@updateMarketSummary sample_host) sample_page
    (summary_arrives ++ [event [] Tick 1022]) !! "market-turnover"
    = Some blank /\
  page_after (@updateASPI sample_host) sample_page
    (summary_arrives ++ [event [] Tick 1022]) !! "aspi-index"
    = Some blank /\
  page_after (@updateMarketSummary sample_host) sample_page
    (summary_arrives ++ [event [] Tick 1022]) !! "market-aspi"
    = Some {| content := TextContent "N/A"; className := EmptyString |}.
Proof.
  destruct (@zero_fields_left_alone sample_host sample_page summary_arrives
              flat_summary
              (stored "marketSummary" flat_summary
                 (set_clock 1021
                    (after_delivery "/marketSummery"
                       (Body ok_response flat_summary) 1010 1020
                       sample_page)))
              1022) as (H1 & H2 & H3).
  - split; vm_compute; [repeat split | reflexivity].
  - reflexivity.
  - split; [|split].
    + apply (H1 "market-turnover" "turnover").
      * left. reflexivity.
      * right. exists false. reflexivity.
    + apply (H2 "aspi-index" "ASPI").
      * left. reflexivity.
      * right. exists false. reflexivity.
    + apply H3. right. exists false. reflexivity.
Defined.

(** ** The regions of one pass *)

Section Pass.
Context {host : Host}.

Lemma updates_own_regions (i : nat) (u : Async JSValue) (S : gset string) :
  updates !! i = Some (u, S) ->
  obeys read_only (owns S) (fun _ => True) false u.
Proof.
  intros H.
  destruct i as [|[|[|[|[|[|i]]]]]]; try discriminate H;
    injection H as <- <-;
    first [exact updateASPI_region | exact updateTopGainers_region
          | exact updateTopLosers_region | exact updateMostActive_region
          | exact updateMarketSummary_region | exact updateTicker_region].
Qed.

Lemma regions_disjoint (i j : nat) (u u' : Async JSValue)
  (S S' : gset string) :
  i <> j -> updates !! i = Some (u, S) -> updates !! j = Some (u', S') ->
  S ## S'.
Proof.
  intros Hne Hi Hj.
  destruct i as [|[|[|[|[|[|i]]]]]]; try discriminate Hi;
    apply (inj Some), pair_equal_spec in Hi as [<- <-];
    (destruct j as [|[|[|[|[|[|j]]]]]]; try discriminate Hj);
    apply (inj Some), pair_equal_spec in Hj as [<- <-]; try congruence;
    unfold region_ASPI, region_gainers, region_losers, region_active,
      region_summary, region_ticker; set_solver.
Qed.

Lemma owns_avoids (S S' : gset string) X (op : Op X) :
  S ## S' -> owns S X op -> avoids S' X op.
Proof. intros Hd. destruct op; cbn; try tauto; set_solver. Qed.

Lemma initialize_updates :
  initialize = All (map fst updates) initialize_rest.
Proof. reflexivity. Qed.

(** The pool [initialize] has started. *)
Lemma initialize_started (w : World) :
  run_sync initialize w =
    (join (map (fun c => fst (run_sync c w)) (map fst updates))
       initialize_rest, w).
Proof.
  rewrite initialize_updates, run_sync_All.
  rewrite (thread_read_only any_op (fun _ => True)); [reflexivity|].
  apply Forall_fmap, Forall_lookup. intros i [u S] Hi. cbn [fst compose].
  eapply obeys_mono; [| | |exact (updates_own_regions i u S Hi)]; auto.
  intros X op _. exact I.
Qed.

Lemma initialize_pool (w : World) (i : nat) (u : Async JSValue)
  (S : gset string) :
  updates !! i = Some (u, S) ->
  pool_inv S i (fst (run_sync initialize w)) (fst (run_sync u w)).
Proof.
  intros Hi. rewrite initialize_started. cbn [fst].
  split; [|split].
  - rewrite children_join, !list_lookup_fmap, Hi. reflexivity.
  - intros j cj Hne. rewrite children_join, !list_lookup_fmap.
    destruct (updates !! j) as [[u' S']|] eqn:Hj; [|discriminate].
    intros [= <-]. apply run_sync_obeys with (b := false).
    eapply obeys_mono; [| | |exact (updates_own_regions j u' S' Hj)]; auto.
    intros X op. apply owns_avoids.
    symmetry. apply (regions_disjoint i j u u' S S'); auto.
  - apply pool_rest_join. intros r.
    eapply obeys_mono; [| | |exact (initialize_rest_discipline r true)];
      [auto | | cbv beta; intros e []].
    intros X op. apply owns_avoids. set_solver.
Qed.

(** Update [i] of a pass ends as it does alone on its own events, and so do
    the elements it owns. *)
Lemma initialize_projects (w : World) (schedule : list Event) (i : nat)
  (u : Async JSValue) (S : gset string) :
  updates !! i = Some (u, S) ->
  children (fst (exec schedule (run_sync initialize w))) !! i =
    Some (fst (exec (project i schedule) (run_sync u w))) /\
  agree_on S (snd (exec schedule (run_sync initialize w)))
    (snd (exec (project i schedule) (run_sync u w))).
Proof.
  intros Hi.
  pose proof (initialize_pool w i u S Hi) as Hinv.
  pose proof (updates_own_regions i u S Hi) as Hu.
  rewrite (surjective_pairing (run_sync initialize w)).
  rewrite (surjective_pairing (run_sync u w)).
  rewrite (run_sync_read_only _ _ u w Hu).
  replace (snd (run_sync initialize w)) with w
    by (rewrite initialize_started; reflexivity).
  apply pool_exec.
  - exact Hinv.
  - apply run_sync_obeys with (b := false), Hu.
  - intros id. reflexivity.
  - intros id _. reflexivity.
Qed.

(** An update writes to no element outside its region. *)
Lemma update_stays_in_region (w : World) (schedule : list Event) (i : nat)
  (u : Async JSValue) (S : gset string) (id : string) :
  updates !! i = Some (u, S) -> id ∉ S ->
  page_after u w schedule !! id = document w !! id.
Proof.
  intros Hi Hid. unfold page_after.
  pose proof (updates_own_regions i u S Hi) as Hu.
  assert (Hop : forall b X (op : Op X) (w0 : World),
            allowed read_only (owns S) b X op ->
            document w0 !! id = document w !! id ->
            document (snd (perform op w0)) !! id = document w !! id).
  { intros b X op w0 Ho Hw.
    destruct b, op; cbn in *; try contradiction; try exact Hw;
      (rewrite lookup_alter_ne; [exact Hw|]); intros ->; contradiction. }
  apply (exec_keeps read_only (owns S) (fun _ => True)
           (fun w0 => document w0 !! id = document w !! id)).
  - intros X op w0. apply (Hop true).
  - intros tm w0 Hw. exact Hw.
  - apply run_sync_obeys with (b := false), Hu.
  - apply (run_sync_keeps read_only (owns S) (fun _ => True)
             (fun w0 => document w0 !! id = document w !! id) _ false
             (Hop false)); [exact Hu | reflexivity].
Qed.

(** What [showError] does to the page. *)
Lemma showError_page (id message : string) (w : World) :
  document (snd (run_sync (showError id message;; Ret JUndefined)%async w)) =
    alter (with_content (error_fragment message)) id (document w).
Proof.
  unfold showError, bind, act. cbn [on_completion].
  rewrite run_sync_Act. cbn [perform fst snd].
  destruct (document w !! id) as [e|] eqn:He; cbn [on_completion].
  - rewrite !run_sync_Act. reflexivity.
  - rewrite !run_sync_Act. cbn.
    apply map_eq. intros j. destruct (decide (id = j)) as [<-|Hne].
    + rewrite lookup_alter_eq, He. reflexivity.
    + rewrite lookup_alter_ne by exact Hne. reflexivity.
Qed.

Lemma returns_keeps_page (key endpoint : string) (w : World)
  (schedule : list Event) (d : JSValue) (w' : World) :
  returns (cached_getter key endpoint) w schedule d w' ->
  document w' = document w.
Proof.
  intros [_ H].
  pose proof (cached_getter_keeps_page key endpoint w schedule) as Hk.
  rewrite H in Hk. exact Hk.
Qed.

Lemma failure_notice (w : World) (u g : Async JSValue) (id message : string)
  (schedule : list Event) (d : JSValue) (w' : World) (tm : Z) :
  In (u, g, id, message) failure_notices ->
  returns g w schedule d w' -> ToBoolean d = false ->
  page_after u w (schedule ++ [event [] Tick tm]) =
    alter (with_content (error_fragment message)) id (document w).
Proof.
  intros Hin Hr Hd. unfold page_after.
  assert (Hc : code g /\ document w' = document w).
  { destruct Hin as [E|[E|[E|[E|[E|[]]]]]]; injection E as <- <- <- <-;
      (split; [apply code_cached_getter
              | eapply returns_keeps_page; exact Hr]). }
  destruct Hc as [Hc Hdoc]. rewrite <- Hdoc.
  destruct Hin as [E|[E|[E|[E|[E|[]]]]]]; injection E as <- <- <- <-;
    unfold updateASPI, updateTopGainers, updateTopLosers, updateMostActive,
      updateMarketSummary;
    unfold bind at 1;
    rewrite (update_runs _ _ w schedule d w' tm Hc Hr);
    rewrite Hd; cbn [negb]; exact (showError_page _ _ (set_clock tm w')).
Qed.

(** As long as no assigned markup holds an element with an id (see [World]):
    in a pass, update [i] ends, and leaves the elements of its region,
    exactly as it does running alone on the events addressed to it, whatever
    the other updates receive; an update writes to no element outside its
    region; and an update whose getter returns a falsy value changes the
    page in one place only, the element [showError] is called on. *)
Lemma regions_are_isolated (w : World) :
  (forall schedule i u S, updates !! i = Some (u, S) ->
     children (fst (exec schedule (run_sync initialize w))) !! i =
       Some (fst (exec (project i schedule) (run_sync u w))) /\
     agree_on S (snd (exec schedule (run_sync initialize w)))
       (snd (exec (project i schedule) (run_sync u w)))) /\
  (forall schedule i u S id, updates !! i = Some (u, S) -> id ∉ S ->
     page_after u w schedule !! id = document w !! id) /\
  (forall u g id message schedule d w' tm,
     In (u, g, id, message) failure_notices ->
     returns g w schedule d w' -> ToBoolean d = false ->
     page_after u w (schedule ++ [event [] Tick tm]) =
       alter (with_content (error_fragment message)) id (document w)).
Proof.
  split; [|split].
  - intros schedule i u S Hi. apply initialize_projects, Hi.
  - intros schedule i u S id Hi Hid.
    apply (update_stays_in_region w schedule i u S id Hi Hid).
  - intros u g id message schedule d w' tm Hin Hr Hd.
    apply (failure_notice w u g id message schedule d w' tm Hin Hr Hd).
Qed.

End Pass.

(** ** A pass on the sample page *)

(** The losers are shown the same whether the gainers arrive or not. *)
Lemma regions_are_isolated_witness :
  page_at_end gainers_fail !! "top-losers" =
    page_at_end gainers_arrive !! "top-losers".
Proof.
  assert (E : project 2 (pass gainers_fail) = project 2 (pass gainers_arrive))
    by (vm_compute; reflexivity).
  assert (Hin : "top-losers" ∈ region_losers)
    by (unfold region_losers; set_solver).
  destruct (@regions_are_isolated sample_host sample_page) as [H _].
  destruct (H (pass gainers_fail) 2%nat updateTopLosers region_losers
              eq_refl) as [_ H1].
  destruct (H (pass gainers_arrive) 2%nat updateTopLosers region_losers
              eq_refl) as [_ H2].
  unfold page_at_end.
  etransitivity; [exact (H1 "top-losers" Hin)|].
  rewrite E. symmetry. exact (H2 "top-losers" Hin).
Defined.

(** The ticker asks for the top gainers itself: in a pass in which the
    requests for the top gainers fail, and every other request is answered
    as before, the ticker shows another text; the error fragment is in the
    element [gainers], and [top-gainers] is as it was. *)
Lemma ticker_changes_with_gainers :
  page_at_end gainers_arrive !! "ticker-content" =
    Some {| content :=
              TextContent "ABC: LKR 10.00 (+2.00%) • DEF: LKR 5.00 (-1.00%)";
            className := EmptyString |} /\
  page_at_end gainers_fail !! "ticker-content" =
    Some {| content := TextContent "DEF: LKR 5.00 (-1.00%)";
            className := EmptyString |} /\
  page_at_end gainers_fail !! "gainers" =
    Some {| content := error_fragment "Unable to fetch top gainers data";
            className := EmptyString |} /\
  page_at_end gainers_fail !! "top-gainers" = Some blank.
Proof. vm_compute. repeat split. Qed.

(** ** The cache and the large numbers, on examples *)

(** An entry set at time 1000 is read at 1000 + 29999 and at 1000 + 30000. *)
Lemma getCachedData_after_set_witness :
  run_sync (getCachedData "topGainers")
    (set_clock 30999 (snd (run_sync (setCachedData "topGainers" (JArr []))
                             cold_world)))
  = (Ret (JArr []),
     set_clock 30999 (snd (run_sync (setCachedData "topGainers" (JArr []))
                             cold_world))) /\
  run_sync (getCachedData "topGainers")
    (set_clock 31000 (snd (run_sync (setCachedData "topGainers" (JArr []))
                             cold_world)))
  = (Ret JNull,
     set_clock 31000 (snd (run_sync (setCachedData "topGainers" (JArr []))
                             cold_world))).
Proof.
  split.
  - destruct (getCachedData_after_set "topGainers" (JArr []) cold_world
                (set_clock 30999
                   (snd (run_sync (setCachedData "topGainers" (JArr []))
                           cold_world)))
                29999 eq_refl eq_refl) as (_ & Hfresh & _).
    exact (Hfresh eq_refl).
  - destruct (getCachedData_after_set "topGainers" (JArr []) cold_world
                (set_clock 31000
                   (snd (run_sync (setCachedData "topGainers" (JArr []))
                           cold_world)))
                30000 eq_refl eq_refl) as (_ & _ & Hstale).
    refine (proj1 (Hstale _)). unfold cacheTimeout. lia.
Defined.

(** C2 as stated fails below zero: -1500 has an absolute value above 1e3,
    and the code, which compares the number itself, prints it unscaled. *)
Lemma formatLargeNumber_negative_unscaled :
  @formatLargeNumber sample_host (JNum (of_Z (-1500))) = "-1500.00" /\
  @spec_formatLargeNumber sample_host (of_Z (-1500)) = "-1.50K".
Proof. vm_compute. split; reflexivity. Qed.

(* ================================================================== *)
(** * Further properties of the module *)

(** ** The cache on its own *)

(** X1: [setCachedData(key, ...)] changes the entry of [key] and nothing else:
    every other key reads as before, and the page, the console and the clock
    are as they were. *)
Theorem setCachedData_other_keys (key other : string) (payload : JSValue)
  (w : World) :
  other <> key ->
  cache (snd (run_sync (setCachedData key payload) w)) !! other =
    cache w !! other /\
  fst (run_sync (getCachedData other)
         (snd (run_sync (setCachedData key payload) w))) =
    fst (run_sync (getCachedData other) w) /\
  document (snd (run_sync (setCachedData key payload) w)) = document w /\
  console (snd (run_sync (setCachedData key payload) w)) = console w /\
  clock (snd (run_sync (setCachedData key payload) w)) = clock w.
Proof.
  intros Hne. rewrite setCachedData_run. cbn [snd].
  assert (cache (set_cache (insert key {| data := payload;
                                          timestamp := clock w |}) w)
            !! other = cache w !! other) as Hc.
  { cbn. apply lookup_insert_ne. congruence. }
  split; [exact Hc|]. split; [|repeat split].
  rewrite !getCachedData_run. cbn [fst]. unfold cached_value.
  rewrite Hc. reflexivity.
Qed.

Lemma setCachedData_other_keys_witness :
  fst (run_sync (getCachedData "topLosers")
         (snd (run_sync (setCachedData "topGainers" (JArr [])) cold_world))) =
    Ret JNull.
Proof.
  destruct (setCachedData_other_keys "topGainers" "topLosers" (JArr [])
              cold_world) as (_ & H & _).
  - discriminate.
  - rewrite H. reflexivity.
Defined.

(** X2: a second [setCachedData] on a key replaces the entry wholesale: payload
    and timestamp are those of the second call, whatever the first stored, and
    the key then reads as the second payload. *)
Theorem setCachedData_overwrites (key : string) (first second : JSValue)
  (w : World) (tm : Z) :
  cache (snd (run_sync (setCachedData key second)
                (set_clock tm (snd (run_sync (setCachedData key first) w)))))
    = <[key := {| data := second; timestamp := tm |}]> (cache w) /\
  fst (run_sync (getCachedData key)
         (snd (run_sync (setCachedData key second)
                 (set_clock tm
                    (snd (run_sync (setCachedData key first) w))))))
    = Ret second.
Proof.
  rewrite !setCachedData_run. cbn [snd]. split.
  - cbn. apply insert_insert_eq.
  - rewrite getCachedData_run. cbn [fst]. unfold cached_value. cbn.
    rewrite lookup_insert_eq. cbn. rewrite Z.sub_diag. reflexivity.
Qed.

(** ** The getters and the cache *)

Section GetterCache.
Context {host : Host}.

Lemma cached_getter_caches_under (key endpoint : string) :
  obeys read_only (caches_under key) (fun _ => False) false
    (cached_getter key endpoint).
Proof. walk; auto. Qed.

(** X3: a getter that finds a young entry with a truthy payload returns that
    payload at once: no request is sent and nothing changes. *)
Theorem getter_cache_hit (g : Async JSValue) (key endpoint : string)
  (w : World) (entry : CacheEntry) :
  In (g, key, endpoint) getters ->
  cache w !! key = Some entry ->
  clock w - timestamp entry < cacheTimeout ->
  ToBoolean (data entry) = true ->
  run_sync g w = (Ret (data entry), w).
Proof.
  intros Hin Hentry Hyoung Htruthy.
  rewrite (getters_are_cached_getters g key endpoint Hin).
  assert (cached_value key w = data entry) as Hv.
  { unfold cached_value. rewrite Hentry.
    apply Z.ltb_lt in Hyoung. rewrite Hyoung. reflexivity. }
  rewrite cached_getter_hit; rewrite Hv; [reflexivity | exact Htruthy].
Qed.

(** What a getter leaves behind after a miss answered by [d] and its turn at
    [t3]. *)
Lemma after_miss (key endpoint : string) (w : World) (d : Delivery)
  (t1 t2 t3 : Z) :
  ToBoolean (cached_value key w) = false -> delivery_ok d ->
  ToBoolean (delivery_result d) = true ->
  cache (snd (exec (delivery_events [] d t1 t2 ++ [event [] Tick t3])
                (run_sync (cached_getter key endpoint) w))) !! key =
    Some {| data := delivery_result d; timestamp := t3 |}.
Proof.
  intros Hmiss Hok Htruthy.
  destruct (cached_getter_miss key endpoint w d t1 t2 t3 Hmiss Hok)
    as [_ Hfinal].
  rewrite Hfinal. unfold stored. rewrite Htruthy. cbn.
  apply lookup_insert_eq.
Qed.

(** X4: round trip: once a getter has fetched and stored a truthy payload (its
    turn came at [t3]), a call of the same getter less than 30000 ms later
    returns that payload at once, without a request. *)
Theorem getter_second_call_hits (g : Async JSValue) (key endpoint : string)
  (w : World) (d : Delivery) (t1 t2 t3 t4 : Z) :
  In (g, key, endpoint) getters ->
  ToBoolean (cached_value key w) = false -> delivery_ok d ->
  ToBoolean (delivery_result d) = true ->
  t4 - t3 < 30000 ->
  run_sync g
    (set_clock t4
       (snd (exec (delivery_events [] d t1 t2 ++ [event [] Tick t3])
               (run_sync g w)))) =
  (Ret (delivery_result d),
   set_clock t4
     (snd (exec (delivery_events [] d t1 t2 ++ [event [] Tick t3])
             (run_sync g w)))).
Proof.
  intros Hin Hmiss Hok Htruthy Hyoung.
  rewrite (getters_are_cached_getters g key endpoint Hin).
  pose proof (after_miss key endpoint w d t1 t2 t3 Hmiss Hok Htruthy) as Hc.
  set (w3 := snd (exec _ _)) in *.
  assert (cached_value key (set_clock t4 w3) = delivery_result d) as Hv.
  { unfold cached_value. cbn [cache set_clock clock]. rewrite Hc.
    cbn [timestamp data]. apply Z.ltb_lt in Hyoung.
    unfold cacheTimeout. rewrite Hyoung. reflexivity. }
  rewrite cached_getter_hit; rewrite Hv; [reflexivity | exact Htruthy].
Qed.

(** X5: expiry: 30000 ms or more after the payload was stored, the same getter
    sends the request again; the old entry is still in the cache while the
    request is pending. *)
Theorem getter_refetches_after_expiry (g : Async JSValue)
  (key endpoint : string) (w : World) (d : Delivery) (t1 t2 t3 t4 : Z) :
  In (g, key, endpoint) getters ->
  ToBoolean (cached_value key w) = false -> delivery_ok d ->
  ToBoolean (delivery_result d) = true ->
  30000 <= t4 - t3 ->
  exists k,
    run_sync g
      (set_clock t4
         (snd (exec (delivery_events [] d t1 t2 ++ [event [] Tick t3])
                 (run_sync g w)))) =
    (Fetch (baseUrl +:+ endpoint) "POST"
       [("Content-Type", "application/json")] k,
     set_clock t4
       (snd (exec (delivery_events [] d t1 t2 ++ [event [] Tick t3])
               (run_sync g w)))) /\
    cache (set_clock t4
             (snd (exec (delivery_events [] d t1 t2 ++ [event [] Tick t3])
                     (run_sync g w)))) !! key =
      Some {| data := delivery_result d; timestamp := t3 |}.
Proof.
  intros Hin Hmiss Hok Htruthy Hold.
  rewrite (getters_are_cached_getters g key endpoint Hin).
  pose proof (after_miss key endpoint w d t1 t2 t3 Hmiss Hok Htruthy) as Hc.
  set (w3 := snd (exec _ _)) in *.
  assert (cached_value key (set_clock t4 w3) = JNull) as Hv.
  { unfold cached_value. cbn [cache set_clock clock]. rewrite Hc.
    cbn [timestamp data]. apply Z.ltb_ge in Hold.
    unfold cacheTimeout. rewrite Hold. reflexivity. }
  destruct (cached_getter_miss_start key endpoint (set_clock t4 w3))
    as [k Hk]; [rewrite Hv; reflexivity|].
  exists k. split; [exact Hk | exact Hc].
Qed.

(** X6: whatever a getter is sent, it never writes to the page and it changes
    the cache under its own key only. *)
Theorem getter_touches_own_key_only (g : Async JSValue)
  (key endpoint : string) (w : World) (schedule : list Event)
  (other : string) :
  In (g, key, endpoint) getters -> other <> key ->
  document (snd (exec schedule (run_sync g w))) = document w /\
  cache (snd (exec schedule (run_sync g w))) !! other = cache w !! other.
Proof.
  intros Hin Hne.
  rewrite (getters_are_cached_getters g key endpoint Hin).
  assert (Hop : forall b X (op : Op X) (w0 : World),
            allowed read_only (caches_under key) b X op ->
            document w0 = document w /\ cache w0 !! other = cache w !! other ->
            document (snd (perform op w0)) = document w /\
            cache (snd (perform op w0)) !! other = cache w !! other).
  { intros b X op w0 Ho Hw.
    destruct b, op; cbn in *; try contradiction; try exact Hw.
    subst. destruct Hw as [Hd Hc]. split; [exact Hd|].
    rewrite lookup_insert_ne by congruence. exact Hc. }
  apply (exec_keeps read_only (caches_under key) (fun _ => False)
           (fun w0 => document w0 = document w /\
                      cache w0 !! other = cache w !! other)).
  - intros X op w0. apply (Hop true).
  - intros tm w0 Hw. exact Hw.
  - apply run_sync_obeys with (b := false), cached_getter_caches_under.
  - apply (run_sync_keeps read_only (caches_under key) (fun _ => False)
             (fun w0 => document w0 = document w /\
                        cache w0 !! other = cache w !! other) _ false
             (Hop false));
      [apply cached_getter_caches_under | split; reflexivity].
Qed.

End GetterCache.

Lemma getter_cache_hit_witness :
  run_sync getTopGainers warm_world = (Ret (JArr []), warm_world).
Proof.
  apply (getter_cache_hit getTopGainers "topGainers" "/topGainers"
           warm_world {| data := JArr []; timestamp := 1000 |}).
  - right. left. reflexivity.
  - reflexivity.
  - reflexivity.
  - reflexivity.
Defined.

Lemma getter_second_call_hits_witness :
  fst (run_sync getTopGainers
         (set_clock 31020
            (snd (exec (delivery_events [] (Body ok_response (JArr []))
                          1010 1020 ++ [event [] Tick 1021])
                    (run_sync getTopGainers cold_world))))) =
    Ret (JArr []).
Proof.
  rewrite (getter_second_call_hits getTopGainers "topGainers" "/topGainers"
             cold_world (Body ok_response (JArr [])) 1010 1020 1021 31020).
  - reflexivity.
  - right. left. reflexivity.
  - reflexivity.
  - reflexivity.
  - reflexivity.
  - reflexivity.
Defined.

Lemma getter_refetches_after_expiry_witness :
  exists k,
    fst (run_sync getTopGainers
           (set_clock 31021
              (snd (exec (delivery_events [] (Body ok_response (JArr []))
                            1010 1020 ++ [event [] Tick 1021])
                      (run_sync getTopGainers cold_world))))) =
      Fetch "https://www.cse.lk/api/topGainers" "POST"
        [("Content-Type", "application/json")] k.
Proof.
  destruct (getter_refetches_after_expiry getTopGainers "topGainers"
              "/topGainers" cold_world (Body ok_response (JArr []))
              1010 1020 1021 31021) as [k [Hk _]].
  - right. left. reflexivity.
  - reflexivity.
  - reflexivity.
  - reflexivity.
  - reflexivity.
  - exists k. rewrite Hk. reflexivity.
Defined.

Lemma getter_touches_own_key_only_witness :
  cache (snd (exec (delivery_events [] (Body ok_response (JArr [])) 1010 1020
                      ++ [event [] Tick 1021])
                (run_sync getTopGainers cold_world))) !! "topLosers" = None.
Proof.
  destruct (getter_touches_own_key_only getTopGainers "topGainers"
              "/topGainers" cold_world
              (delivery_events [] (Body ok_response (JArr [])) 1010 1020
                 ++ [event [] Tick 1021]) "topLosers") as [_ H].
  - right. left. reflexivity.
  - discriminate.
  - rewrite H. reflexivity.
Defined.

(** ** [makeApiCall] and [showError] *)

Section CallAndReport.
Context {host : Host}.

Lemma makeApiCall_only_logs (endpoint : string) (b : bool) :
  obeys only_logs only_logs (fun _ => False) b (makeApiCall endpoint).
Proof. destruct b; walk. Qed.

(** X7: [makeApiCall] sends one POST request with the JSON content type to
    [baseUrl + endpoint] and is suspended on it without having changed
    anything; whatever it is sent afterwards, it never touches the cache or
    the page, and the console only grows. *)
Theorem makeApiCall_frame (endpoint : string) (w : World)
  (schedule : list Event) :
  (exists k,
     run_sync (makeApiCall endpoint) w =
       (Fetch ("https://www.cse.lk/api" +:+ endpoint) "POST"
          [("Content-Type", "application/json")] k, w)) /\
  cache (snd (exec schedule (run_sync (makeApiCall endpoint) w))) = cache w /\
  document (snd (exec schedule (run_sync (makeApiCall endpoint) w))) =
    document w /\
  exists entries,
    console (snd (exec schedule (run_sync (makeApiCall endpoint) w))) =
      console w ++ entries.
Proof.
  split; [eexists; reflexivity|].
  assert (Hop : forall b X (op : Op X) (w0 : World),
            allowed only_logs only_logs b X op ->
            (cache w0 = cache w /\ document w0 = document w /\
             exists entries, console w0 = console w ++ entries) ->
            cache (snd (perform op w0)) = cache w /\
            document (snd (perform op w0)) = document w /\
            exists entries,
              console (snd (perform op w0)) = console w ++ entries).
  { intros b X op w0 Ho (Hc & Hd & entries & Hl).
    destruct b, op; cbn in *; try contradiction;
      (split; [exact Hc|]; split; [exact Hd|];
       eexists; rewrite Hl, <- app_assoc; reflexivity). }
  apply (exec_keeps only_logs only_logs (fun _ => False)
           (fun w0 => cache w0 = cache w /\ document w0 = document w /\
                      exists entries, console w0 = console w ++ entries)).
  - intros X op w0. apply (Hop true).
  - intros tm w0 Hw. exact Hw.
  - apply run_sync_obeys with (b := false), makeApiCall_only_logs.
  - split; [reflexivity|]. split; [reflexivity|].
    exists []. cbn. rewrite app_nil_r. reflexivity.
Qed.

(** X8: [showError] returns at once and always logs the one entry with the
    message, also when the page has no such element; on the page it puts the
    error fragment into the element [elementId] if there is one and changes
    nothing else; it leaves the cache alone. *)
Theorem showError_effects (elementId message : string) (w : World) :
  fst (run_sync (showError elementId message) w) = Ret tt /\
  console (snd (run_sync (showError elementId message) w)) =
    console w ++ [{| log_message := "CSE UI Error: " +:+ message;
                     log_error := None |}] /\
  document (snd (run_sync (showError elementId message) w)) =
    alter (fun e =>
             {| content :=
                  InnerHTML ("<div class=" +:+ dq +:+ "text-center text-danger"
                               +:+ dq +:+ ">" +:+ message +:+ "</div>");
                className := className e |})
      elementId (document w) /\
  (document w !! elementId = None ->
     document (snd (run_sync (showError elementId message) w)) = document w) /\
  cache (snd (run_sync (showError elementId message) w)) = cache w.
Proof.
  unfold showError, bind, act. cbn [on_completion].
  rewrite run_sync_Act. cbn [perform fst snd].
  destruct (document w !! elementId) as [e|] eqn:He; cbn [on_completion];
    rewrite !run_sync_Act; cbn.
  - repeat split. discriminate.
  - repeat split.
    apply map_eq. intros j. destruct (decide (elementId = j)) as [<-|Hne].
    + rewrite lookup_alter_eq, He. reflexivity.
    + rewrite lookup_alter_ne by exact Hne. reflexivity.
Qed.

(** On a page without the ticker element [updateTicker] returns at once: it
    requests nothing and changes nothing. *)
Lemma updateTicker_without_element (w : World) :
  document w !! "ticker-content" = None ->
  run_sync updateTicker w = (Ret JUndefined, w).
Proof.
  intros Hel. unfold updateTicker. unfold bind at 1. unfold act at 1.
  cbn [on_completion]. rewrite run_sync_Act. cbn [perform fst snd].
  rewrite Hel. reflexivity.
Qed.

End CallAndReport.

Lemma updateTicker_without_element_witness :
  run_sync (@updateTicker sample_host) cold_world = (Ret JUndefined, cold_world).
Proof. apply updateTicker_without_element. reflexivity. Defined.

(** ** The end of a pass *)

Section PassEnd.
Context {host : Host}.

Lemma first_rejection_child (cs : list (Async JSValue)) (e : JSError) :
  first_rejection cs = Some e ->
  exists i c, cs !! i = Some c /\ outcome c = Some (Abrupt e).
Proof.
  induction cs as [|c cs IH]; [discriminate|]. cbn [first_rejection].
  destruct (outcome c) as [[v|e']|] eqn:Ec.
  - intros H. destruct (IH H) as (i & c' & Hi & Ho).
    exists (S i), c'. split; assumption.
  - intros [= ->]. exists 0%nat, c. split; [reflexivity | exact Ec].
  - intros H. destruct (IH H) as (i & c' & Hi & Ho).
    exists (S i), c'. split; assumption.
Qed.

Lemma join_pass_state (cs : list (Async JSValue)) :
  pass_state (join cs initialize_rest).
Proof.
  unfold join. destruct (first_rejection cs) as [e|] eqn:Er.
  - apply pass_settled. apply first_rejection_child, Er.
  - destruct (all_fulfilled cs) as [vs|] eqn:Ea.
    + apply pass_settled. exact Ea.
    + apply pass_joining.
Qed.

(** A function that has ended stays as it ended. *)
Lemma deliver_outcome {A : Type} (p : list Dir) (pl : Payload) :
  forall (t : Async A) (w : World) (c : Completion A),
  outcome t = Some c -> outcome (fst (deliver p pl t w)) = Some c.
Proof.
  induction p as [|d p IH]; intros t w c Hc.
  - destruct t; destruct pl; try discriminate; exact Hc.
  - destruct d as [i|];
      destruct t as [a|e|X op k|next|url method headers k|resp k
                    |cs k|cs k|cs main];
      try discriminate; cbn [deliver]; try exact Hc.
    + destruct (cs !! i) as [ci|]; [|exact Hc].
      destruct (deliver p pl ci w). exact Hc.
    + cbn [outcome] in Hc.
      pose proof (IH main w c Hc) as H.
      destruct (deliver p pl main w). exact H.
Qed.

Lemma settled_with_insert (cs : list (Async JSValue))
  (r : Completion (list JSValue)) (i : nat) (p : list Dir) (pl : Payload)
  (c : Async JSValue) (w : World) :
  cs !! i = Some c -> settled_with cs r ->
  settled_with (<[i := fst (deliver p pl c w)]> cs) r.
Proof.
  intros Hi. destruct r as [vs|e]; cbn [settled_with].
  - revert i vs Hi.
    induction cs as [|c0 cs IH]; intros i vs Hi; [discriminate|].
    cbn [all_fulfilled].
    destruct (outcome c0) as [[v|e']|] eqn:E0; try discriminate.
    destruct (all_fulfilled cs) as [vs'|] eqn:Ea; try discriminate.
    intros [= <-]. destruct i as [|i].
    + injection Hi as <-.
      change (all_fulfilled (fst (deliver p pl c0 w) :: cs) = Some (v :: vs')).
      cbn [all_fulfilled].
      rewrite (deliver_outcome p pl c0 w _ E0), Ea. reflexivity.
    + change (all_fulfilled (c0 :: <[i := fst (deliver p pl c w)]> cs)
              = Some (v :: vs')).
      cbn [all_fulfilled].
      rewrite E0, (IH i vs' Hi eq_refl). reflexivity.
  - intros (j & cj & Hj & Ho).
    destruct (decide (i = j)) as [->|Hne].
    + exists j, (fst (deliver p pl c w)). split.
      * apply list_lookup_insert_eq. eapply lookup_lt_Some, Hi.
      * rewrite Hj in Hi. injection Hi as <-.
        apply deliver_outcome, Ho.
    + exists j, cj. split; [|exact Ho].
      rewrite list_lookup_insert_ne by exact Hne. exact Hj.
Qed.

Lemma initialize_rest_waits (r : Completion (list JSValue)) (w : World) :
  run_sync (initialize_rest r) w = (initialize_rest r, w) /\
  deliver [] Tick (initialize_rest r) w =
    (Ret JUndefined, set_console (fun l => l ++ pass_log r) w) /\
  (forall d p pl, deliver (d :: p) pl (initialize_rest r) w =
                    (initialize_rest r, w)) /\
  (forall pl, pl <> Tick -> deliver [] pl (initialize_rest r) w =
                              (initialize_rest r, w)) /\
  outcome (initialize_rest r) = None.
Proof.
  destruct r as [vs|e].
  - split; [reflexivity|]. split.
    + cbn. rewrite set_console_nil. reflexivity.
    + split; [intros [i|] p pl; reflexivity|].
      split; [|reflexivity]. intros [| |] Hpl; try reflexivity.
      contradiction.
  - split; [reflexivity|]. split; [reflexivity|].
    split; [intros [i|] p pl; reflexivity|].
    split; [|reflexivity]. intros [| |] Hpl; try reflexivity.
    contradiction.
Qed.

Lemma deliver_main {A : Type} (p : list Dir) (pl : Payload)
  (cs : list (Async JSValue)) (main : Async A) (w : World) :
  deliver (Main :: p) pl (Bg cs main) w =
    (Bg cs (fst (deliver p pl main w)), snd (deliver p pl main w)).
Proof. cbn [deliver]. destruct (deliver p pl main w). reflexivity. Qed.

(** What one event does to a pass. *)
Lemma pass_step (t : Async JSValue) (w : World) (p : list Dir)
  (pl : Payload) :
  pass_state t ->
  pass_state (fst (deliver p pl t w)) /\
  (outcome t = None -> outcome (fst (deliver p pl t w)) <> None ->
   exists r, settled_with (children t) r /\
     console (snd (deliver p pl t w)) = console w ++ pass_log r).
Proof.
  intros Hst. destruct Hst as [cs|cs r Hr|cs r Hr|cs].
  - (* waiting *)
    destruct p as [|[i|] p]; cbn [deliver].
    + destruct pl; (split; [apply pass_joining | intros _ H; contradiction]).
    + destruct (cs !! i) as [c|] eqn:Hi.
      * destruct (deliver p pl c w) as [c' w'] eqn:Ed. cbn [fst snd].
        split; [apply join_pass_state|].
        intros _ H. exfalso. apply H. unfold join.
        destruct (first_rejection _); [reflexivity|].
        destruct (all_fulfilled _); reflexivity.
      * split; [apply pass_joining | intros _ H; contradiction].
    + split; [apply pass_joining | intros _ H; contradiction].
  - (* settled *)
    destruct p as [|[i|] p]; cbn [deliver].
    + destruct pl; (split; [apply pass_settled, Hr | intros _ H; contradiction]).
    + destruct (cs !! i) as [c|] eqn:Hi.
      * pose proof (settled_with_insert cs r i p pl c w Hi Hr) as Hr'.
        destruct (deliver p pl c w) as [c' w'] eqn:Ed. cbn [fst snd] in *.
        split; [apply pass_settled, Hr' | intros _ H; contradiction].
      * split; [apply pass_settled, Hr | intros _ H; contradiction].
    + destruct p as [|d p]; cbn [deliver].
      * destruct pl; cbn [fst snd];
          try (split; [apply pass_settled, Hr | intros _ H; contradiction]).
        destruct (initialize_rest_waits r w) as (-> & _ & _ & _ & Hout).
        cbn [fst snd]. split; [apply pass_resumed, Hr|].
        intros _ H. cbn [outcome] in H. contradiction.
      * destruct d; cbn [fst snd];
          (split; [apply pass_settled, Hr | intros _ H; contradiction]).
  - (* resumed *)
    destruct (initialize_rest_waits r w) as (_ & Htick & Hdeep & Hother & Hout).
    destruct p as [|[i|] p].
    + cbn [deliver].
      destruct pl;
        (split; [apply pass_resumed, Hr
                | intros _ H; cbn [fst outcome] in H; contradiction]).
    + cbn [deliver]. destruct (cs !! i) as [c|] eqn:Hi.
      * pose proof (settled_with_insert cs r i p pl c w Hi Hr) as Hr'.
        destruct (deliver p pl c w) as [c' w'] eqn:Ed. cbn [fst snd] in *.
        split; [apply pass_resumed, Hr'
               | intros _ H; cbn [outcome] in H; contradiction].
      * split; [apply pass_resumed, Hr
               | intros _ H; cbn [fst outcome] in H; contradiction].
    + rewrite deliver_main. destruct p as [|d p].
      * destruct pl as [|r0|r0].
        -- rewrite Htick. cbn [fst snd]. split; [apply pass_over|].
           intros _ _. exists r. split; [exact Hr | reflexivity].
        -- rewrite (Hother (FetchSettled r0)) by discriminate. cbn [fst snd].
           split; [apply pass_resumed, Hr
                  | intros _ H; cbn [outcome] in H; contradiction].
        -- rewrite (Hother (JsonSettled r0)) by discriminate. cbn [fst snd].
           split; [apply pass_resumed, Hr
                  | intros _ H; cbn [outcome] in H; contradiction].
      * rewrite Hdeep. cbn [fst snd].
        split; [apply pass_resumed, Hr
               | intros _ H; cbn [outcome] in H; contradiction].
  - (* over *)
    split; [|intros H; discriminate].
    destruct p as [|[i|] p]; cbn [deliver].
    + destruct pl; apply pass_over.
    + destruct (cs !! i) as [c|]; [|apply pass_over].
      destruct (deliver p pl c w). apply pass_over.
    + destruct p as [|d p]; cbn [deliver].
      * destruct pl; apply pass_over.
      * destruct d; apply pass_over.
Qed.

Lemma initialize_pass_state (w : World) (schedule : list Event) :
  pass_state (fst (exec schedule (run_sync initialize w))).
Proof.
  assert (pass_state (fst (run_sync initialize w))) as H.
  { rewrite initialize_started. apply join_pass_state. }
  revert H. generalize (run_sync initialize w).
  induction schedule as [|ev schedule IH]; intros st H; [exact H|].
  cbn [exec fold_left]. apply IH. unfold handle. apply pass_step, H.
Qed.

Lemma pass_state_outcome (t : Async JSValue) :
  pass_state t -> outcome t = None \/ outcome t = Some (Normal JUndefined).
Proof.
  intros [cs|cs r Hr|cs r Hr|cs]; cbn [outcome]; auto.
  left. destruct r; reflexivity.
Qed.

(** X9: however a pass goes, [initialize] never ends with an exception: as long
    as it has not ended it is pending, and when it ends it returns
    [undefined]. *)
Theorem initialize_never_rejects (w : World) (schedule : list Event) :
  outcome (fst (exec schedule (run_sync initialize w))) = None \/
  outcome (fst (exec schedule (run_sync initialize w))) =
    Some (Normal JUndefined).
Proof. apply pass_state_outcome, initialize_pass_state. Qed.

(** X10: at the event with which [initialize] ends, it logs nothing if every
    update has returned, and otherwise logs the one entry "Error
    initializing CSE data:" with the exception of an update that has thrown
    it. *)
Theorem initialize_logs_rejection (w : World) (schedule : list Event)
  (ev : Event) :
  outcome (fst (exec schedule (run_sync initialize w))) = None ->
  outcome (fst (exec (schedule ++ [ev]) (run_sync initialize w))) <> None ->
  (exists vs,
     all_fulfilled
       (children (fst (exec schedule (run_sync initialize w)))) = Some vs /\
     console (snd (exec (schedule ++ [ev]) (run_sync initialize w))) =
       console (snd (exec schedule (run_sync initialize w)))) \/
  (exists e i c,
     children (fst (exec schedule (run_sync initialize w))) !! i = Some c /\
     outcome c = Some (Abrupt e) /\
     console (snd (exec (schedule ++ [ev]) (run_sync initialize w))) =
       console (snd (exec schedule (run_sync initialize w))) ++
         [{| log_message := "Error initializing CSE data:";
             log_error := Some e |}]).
Proof.
  rewrite exec_app. cbn [exec fold_left]. unfold handle.
  pose proof (initialize_pass_state w schedule) as Hst.
  destruct (exec schedule (run_sync initialize w)) as [t w1].
  cbn [fst snd] in *. intros Hnone Hend.
  destruct (pass_step t (set_clock (at_time ev) w1) (target ev) (payload ev)
              Hst) as [_ H].
  destruct (H Hnone Hend) as (r & Hr & Hlog). rewrite Hlog.
  destruct r as [vs|e]; cbn [settled_with pass_log] in *.
  - left. exists vs. split; [exact Hr|]. cbn. apply app_nil_r.
  - right. destruct Hr as (i & c & Hi & Ho). exists e, i, c.
    split; [exact Hi|]. split; [exact Ho | reflexivity].
Qed.

End PassEnd.

Lemma initialize_logs_rejection_witness :
  last (console (snd (exec (odd_pass ++ [event [Main] Tick 1021])
                        (run_sync (@initialize sample_host) sample_page)))) =
    Some {| log_message := "Error initializing CSE data:";
            log_error := Some (TypeError "toFixed is not a function") |}.
Proof.
  destruct (@initialize_logs_rejection sample_host sample_page odd_pass
              (event [Main] Tick 1021))
    as [(vs & Hvs & _)|(e & i & c & Hi & Ho & Hlog)].
  - vm_compute. reflexivity.
  - vm_compute. discriminate.
  - vm_compute in Hvs. discriminate Hvs.
  - vm_compute. reflexivity.
Defined.

(** ** The requests of a pass *)

Section PassRequests.
Context {host : Host}.

Lemma requests_join {A : Type} (cs : list (Async JSValue))
  (k : Completion (list JSValue) -> Async A) :
  requests (join cs k) = flat_map (@requests JSValue) cs.
Proof.
  unfold join. destruct (first_rejection cs); [apply app_nil_r|].
  destruct (all_fulfilled cs); [apply app_nil_r | reflexivity].
Qed.

Lemma requests_cached_getter (key endpoint : string) (w : World) :
  requests (fst (run_sync (cached_getter key endpoint) w)) =
    request_of key endpoint w.
Proof.
  unfold request_of.
  destruct (ToBoolean (cached_value key w)) eqn:Hv.
  - rewrite (cached_getter_hit key endpoint w Hv). reflexivity.
  - destruct (cached_getter_miss_start key endpoint w Hv) as [k ->].
    reflexivity.
Qed.

(** A caller that awaits has the requests of its callee. *)
Lemma requests_resume {A B : Type} (t : Async A)
  (f : Completion A -> Async B) (w : World) :
  suspended t -> (forall c, requests (fst (run_sync (f c) w)) = []) ->
  requests (fst (resume t f w)) = requests t.
Proof.
  revert A t f.
  apply (Async_nested_ind (fun A t =>
           forall f : Completion A -> Async B,
           suspended t -> (forall c, requests (fst (run_sync (f c) w)) = []) ->
           requests (fst (resume t f w)) = requests t)).
  - intros A a f _ Hf. apply Hf.
  - intros A e f _ Hf. apply Hf.
  - intros A X op k _ f Hs. contradiction.
  - intros A t _ f _ _. reflexivity.
  - intros A url method headers k _ f _ _. reflexivity.
  - intros A resp k _ f _ _. reflexivity.
  - intros A cs k _ _ f Hs. contradiction.
  - intros A cs k _ _ f _ _. reflexivity.
  - intros A cs main _ IH f Hs Hf. cbn [resume].
    specialize (IH f Hs Hf).
    destruct (resume main f w) as [main' w']. cbn [fst requests] in *.
    rewrite IH. reflexivity.
Qed.

Lemma requests_awaiting {A B : Type} (p : Async A)
  (f : Completion A -> Async B) (w : World) :
  code p -> snd (run_sync p w) = w ->
  requests (fst (run_sync (on_completion (await p) f) w)) =
    requests (fst (run_sync p w)).
Proof.
  intros Hc Hw.
  rewrite (run_sync_on_completion (await p) f (code_await p Hc)).
  unfold await at 1 2.
  rewrite (run_sync_on_completion p _ Hc), Hw.
  assert (suspended (fst (run_sync p w))) as Hs
    by (apply suspended_run_sync, Hc).
  assert (requests (fst (resume (fst (run_sync p w))
                           (fun c => Yield (complete c)) w)) =
          requests (fst (run_sync p w))) as E1
    by (apply requests_resume; [exact Hs | reflexivity]).
  assert (snd (resume (fst (run_sync p w))
                 (fun c : Completion A => Yield (complete c)) w) = w /\
          suspended (fst (resume (fst (run_sync p w))
                            (fun c : Completion A => Yield (complete c)) w)) /\
          outcome (fst (resume (fst (run_sync p w))
                          (fun c : Completion A => Yield (complete c)) w))
            = None) as (E2 & E3 & E4).
  { clear E1. revert Hs. generalize (fst (run_sync p w)). clear.
    intros t. revert A t.
    apply (Async_nested_ind (fun A t => suspended t ->
             snd (resume t (fun c : Completion A => Yield (complete c)) w) = w /\
             suspended (fst (resume t
                               (fun c : Completion A => Yield (complete c)) w)) /\
             outcome (fst (resume t
                             (fun c : Completion A => Yield (complete c)) w))
               = None));
      try contradiction.
    - intros A a _. cbn. repeat split.
    - intros A e _. cbn. repeat split.
    - intros A t _ Hs. cbn. split; [reflexivity|]. split; [|reflexivity].
      apply code_on_completion; [exact Hs|]. intros c. apply code_complete.
    - intros A url method headers k _ Hs. cbn.
      split; [reflexivity|]. split; [|reflexivity].
      intros r. apply code_on_completion; [apply Hs|].
      intros c. apply code_complete.
    - intros A resp k _ Hs. cbn.
      split; [reflexivity|]. split; [|reflexivity].
      intros r. apply code_on_completion; [apply Hs|].
      intros c. apply code_complete.
    - intros A cs k _ _ Hs. cbn.
      split; [reflexivity|]. split; [|reflexivity].
      intros r. apply code_on_completion; [apply Hs|].
      intros c. apply code_complete.
    - intros A cs main _ IH Hs. cbn [resume].
      destruct (IH Hs) as (I1 & I2 & I3).
      destruct (resume main _ w) as [main' w']. cbn [fst snd] in *.
      subst w'. repeat split; assumption. }
  rewrite E2. rewrite (resume_pending _ f w E4). cbn [fst].
  rewrite <- E1.
  generalize (fst (resume (fst (run_sync p w))
                     (fun c : Completion A => Yield (complete c)) w)) E4.
  clear. intros t. revert A t f.
  apply (Async_nested_ind (fun A t =>
           forall f : Completion A -> Async B,
           outcome t = None ->
           requests (on_completion t f) = requests t));
    try discriminate; try reflexivity.
  intros A cs main _ IH f Ho. cbn [on_completion requests].
  rewrite (IH f Ho). reflexivity.
Qed.

Lemma requests_update (key endpoint : string)
  (body : Completion JSValue -> Async JSValue) (w : World) :
  requests (fst (run_sync (on_completion (await (cached_getter key endpoint))
                             body) w)) =
    request_of key endpoint w.
Proof.
  rewrite requests_awaiting.
  - apply requests_cached_getter.
  - apply code_cached_getter.
  - apply (run_sync_read_only caches_truthy (fun _ => False)),
      cached_getter_discipline.
Qed.

Lemma requests_ticker (w : World) :
  requests (fst (run_sync updateTicker w)) =
    match document w !! "ticker-content" with
    | Some _ =>
        request_of "topGainers" "/topGainers" w ++
        request_of "topLosers" "/topLosers" w
    | None => []
    end.
Proof.
  unfold updateTicker. unfold bind at 1. unfold act at 1.
  cbn [on_completion]. rewrite run_sync_Act. cbn [perform fst snd].
  destruct (document w !! "ticker-content") as [el|]; [|reflexivity].
  cbn [on_completion]. unfold bind at 1.
  rewrite requests_awaiting;
    [|exact code_createTickerContent
     |apply (run_sync_read_only _ _ _ _ createTickerContent_discipline)].
  unfold createTickerContent. unfold bind at 1.
  assert (snd (run_sync (Promise_all [getTopGainers; getTopLosers]) w) = w
          /\ requests (fst (run_sync (Promise_all [getTopGainers;
                                                     getTopLosers]) w)) =
               request_of "topGainers" "/topGainers" w ++
               request_of "topLosers" "/topLosers" w) as [Hw Hr].
  { unfold Promise_all. rewrite run_sync_All.
    rewrite (thread_read_only caches_truthy (fun _ => False));
      [|apply Forall_cons; split; [exact getTopGainers_discipline|];
        apply Forall_cons; split; [exact getTopLosers_discipline|];
        apply Forall_nil_2].
    cbn [fst snd map]. split; [reflexivity|].
    rewrite requests_join. cbn [flat_map]. rewrite app_nil_r.
    change getTopGainers with (cached_getter "topGainers" "/topGainers").
    change getTopLosers with (cached_getter "topLosers" "/topLosers").
    rewrite (requests_cached_getter "topGainers" "/topGainers" w).
    rewrite (requests_cached_getter "topLosers" "/topLosers" w).
    reflexivity. }
  rewrite requests_awaiting; [exact Hr | intros r; apply code_complete
                              | exact Hw].
Qed.

(** X11: the requests a pass sends when it is called: each update that finds no
    young truthy entry for its data sends its own request, so the summary is
    requested by [updateASPI] and again by [updateMarketSummary], and the
    gainers and the losers are requested by their updates and again by the
    ticker (when the page has the ticker element); calling [initialize]
    changes nothing else.  On an empty cache that is seven requests. *)
Theorem pass_requests (w : World) :
  snd (run_sync initialize w) = w /\
  requests (fst (run_sync initialize w)) =
    request_of "marketSummary" "/marketSummery" w ++
    request_of "topGainers" "/topGainers" w ++
    request_of "topLosers" "/topLosers" w ++
    request_of "mostActive" "/mostActive" w ++
    request_of "marketSummary" "/marketSummery" w ++
    match document w !! "ticker-content" with
    | Some _ =>
        request_of "topGainers" "/topGainers" w ++
        request_of "topLosers" "/topLosers" w
    | None => []
    end /\
  (cache w = ∅ -> is_Some (document w !! "ticker-content") ->
   requests (fst (run_sync initialize w)) =
     ["https://www.cse.lk/api/marketSummery";
      "https://www.cse.lk/api/topGainers";
      "https://www.cse.lk/api/topLosers";
      "https://www.cse.lk/api/mostActive";
      "https://www.cse.lk/api/marketSummery";
      "https://www.cse.lk/api/topGainers";
      "https://www.cse.lk/api/topLosers"]).
Proof.
  assert (requests (fst (run_sync initialize w)) =
    request_of "marketSummary" "/marketSummery" w ++
    request_of "topGainers" "/topGainers" w ++
    request_of "topLosers" "/topLosers" w ++
    request_of "mostActive" "/mostActive" w ++
    request_of "marketSummary" "/marketSummery" w ++
    match document w !! "ticker-content" with
    | Some _ =>
        request_of "topGainers" "/topGainers" w ++
        request_of "topLosers" "/topLosers" w
    | None => []
    end) as Hreq.
  { rewrite initialize_started. cbn [fst]. rewrite requests_join.
    cbn [map fst updates flat_map]. rewrite app_nil_r.
    rewrite requests_ticker.
    unfold updateASPI, updateTopGainers, updateTopLosers, updateMostActive,
      updateMarketSummary.
    change getMarketSummary
      with (cached_getter "marketSummary" "/marketSummery").
    change getTopGainers with (cached_getter "topGainers" "/topGainers").
    change getTopLosers with (cached_getter "topLosers" "/topLosers").
    change getMostActive with (cached_getter "mostActive" "/mostActive").
    unfold bind at 1.
    rewrite (requests_update "marketSummary" "/marketSummery").
    unfold bind at 1.
    rewrite (requests_update "topGainers" "/topGainers").
    unfold bind at 1.
    rewrite (requests_update "topLosers" "/topLosers").
    unfold bind at 1.
    rewrite (requests_update "mostActive" "/mostActive").
    unfold bind at 1.
    rewrite (requests_update "marketSummary" "/marketSummery").
    reflexivity. }
  split; [rewrite initialize_started; reflexivity|].
  split; [exact Hreq|].
  intros Hcold [el Hel]. rewrite Hreq, Hel.
  unfold request_of, cached_value. rewrite Hcold, !lookup_empty.
  reflexivity.
Qed.

End PassRequests.

(** ** The three tables *)

Section Tables.
Context {host : Host}.

(** What a table update does once its getter has returned a truthy value. *)
Lemma table_update_runs (u g : Async JSValue) (id title : string)
  (w : World) (schedule : list Event) (d : JSValue) (w' : World) (tm : Z) :
  In (u, g, id, title) table_updates ->
  returns g w schedule d w' -> ToBoolean d = true ->
  exec (schedule ++ [event [] Tick tm]) (run_sync u w) =
    match document w' !! id with
    | None => (Ret JUndefined, set_clock tm w')
    | Some _ =>
        match table_of d title with
        | Normal html =>
            (Ret JUndefined,
             set_document (alter (with_content (InnerHTML html)) id)
               (set_clock tm w'))
        | Abrupt e => (Throw e, set_clock tm w')
        end
    end.
Proof.
  intros Hin Hr Hd.
  assert (Hc : code g).
  { destruct Hin as [E|[E|[E|[]]]]; injection E as <- <- <- <-;
      apply code_cached_getter. }
  destruct Hin as [E|[E|[E|[]]]]; injection E as <- <- <- <-;
    unfold updateTopGainers, updateTopLosers, updateMostActive;
    unfold bind at 1;
    rewrite (update_runs _ _ w schedule d w' tm Hc Hr);
    rewrite Hd; cbn [negb];
    unfold bind at 1; unfold act at 1; cbn [on_completion];
    rewrite run_sync_Act; cbn [perform fst snd];
    change (document (set_clock tm w')) with (document w');
    (destruct (document w' !! _) as [el|]; [|reflexivity]);
    cbn [on_completion]; unfold table_of;
    (destruct (call_slice d 5) as [rows|e]; [|reflexivity]);
    cbn [complete bind_completion]; unfold bind at 1; cbn [on_completion];
    (destruct (createStocksTable rows _) as [html|e]; [|reflexivity]);
    reflexivity.
Qed.

(** X13: with a truthy result that has no [slice] (an object, a number, [true]),
    a table update whose element is on the page throws a [TypeError]: the
    page shows neither a table nor the error fragment, and nothing is
    logged by the update. *)
Theorem table_update_malformed (u g : Async JSValue) (id title : string)
  (w : World) (schedule : list Event) (d : JSValue) (w' : World) (tm : Z) :
  In (u, g, id, title) table_updates ->
  returns g w schedule d w' ->
  ToBoolean d = true ->
  (forall items, d <> JArr items) -> (forall s, d <> JStr s) ->
  is_Some (document w' !! id) ->
  fst (exec (schedule ++ [event [] Tick tm]) (run_sync u w)) =
    Throw (TypeError "slice is not a function") /\
  document (snd (exec (schedule ++ [event [] Tick tm]) (run_sync u w))) =
    document w' /\
  console (snd (exec (schedule ++ [event [] Tick tm]) (run_sync u w))) =
    console w'.
Proof.
  intros Hin Hr Hd Harr Hstr [el Hel].
  rewrite (table_update_runs u g id title w schedule d w' tm Hin Hr Hd).
  rewrite Hel. unfold table_of, call_slice.
  destruct d; try discriminate; cbn [bind_completion];
    try (repeat split; reflexivity).
  - exfalso. eapply Hstr. reflexivity.
  - exfalso. eapply Harr. reflexivity.
Qed.

End Tables.

(** The same update receives an object instead of an array. *)
Lemma table_update_malformed_witness :
  fst (exec ((delivery_events [] (Body ok_response (JObj [])) 1010 1020
                ++ [event [] Tick 1021]) ++ [event [] Tick 1022])
         (run_sync (@updateTopGainers sample_host) sample_page)) =
    Throw (TypeError "slice is not a function").
Proof.
  apply (@table_update_malformed sample_host (@updateTopGainers sample_host)
           getTopGainers
           "top-gainers" "Gainers" sample_page
           (delivery_events [] (Body ok_response (JObj [])) 1010 1020
              ++ [event [] Tick 1021])
           (JObj [])
           (stored "topGainers" (JObj [])
              (set_clock 1021
                 (after_delivery "/topGainers" (Body ok_response (JObj []))
                    1010 1020 sample_page)))
           1022).
  - left. reflexivity.
  - split; vm_compute; [repeat split | reflexivity].
  - reflexivity.
  - discriminate.
  - discriminate.
  - vm_compute. eexists. reflexivity.
Defined.

(** ** The markup of a table *)

Section TableMarkup.
Context {host : Host}.

Lemma table_row_markup (html : string) (stock : JSValue) :
  is_row stock = true ->
  table_row html stock = Normal (html +:+ row_markup stock).
Proof.
  intros Hrow. unfold table_row, row_markup, row_change, field.
  destruct stock; try discriminate; reflexivity.
Qed.

Lemma table_row_no_row (html : string) (stock : JSValue) :
  is_row stock = false ->
  table_row html stock =
    Abrupt (TypeError ("Cannot read properties of " +:+ ToString stock)).
Proof. destruct stock; try discriminate; reflexivity. Qed.



Lemma length_not_strictly_zero (n : nat) :
  Z.of_nat n < 2 ^ 53 ->
  feq (of_Z (Z.of_nat n)) (of_Z 0) = Nat.eqb n 0.
Proof.
  intros Hn. destruct n as [|n]; [reflexivity|].
  rewrite Nat2Z.inj_succ, <- Z.add_1_r in *.
  destruct (Z.of_nat n + 1) as [|p|p] eqn:E; try lia.
  destruct (of_Z_positive p Hn) as (m & e & ->). reflexivity.
Qed.


(** X15: an array with an entry that is [null] has no table: reading the first
    such entry throws a [TypeError]. *)
Theorem createStocksTable_null_row (title : string) (before after : list JSValue)
  (bad : JSValue) :
  Z.of_nat (List.length (before ++ bad :: after)) < 2 ^ 32 ->
  Forall (fun r => is_row r = true) before ->
  bad = JNull \/ bad = JUndefined ->
  createStocksTable (JArr (before ++ bad :: after)) title =
    Abrupt (TypeError ("Cannot read properties of " +:+ ToString bad)).
Proof.
  intros Hlen Hrows Hbad. unfold createStocksTable, get_prop.
  cbn [ToBoolean negb bind_completion].
  change (String.eqb "length" "length") with true. cbv iota.
  cbn [bind_completion is_strictly_zero].
  rewrite length_not_strictly_zero by lia.
  replace (Nat.eqb (List.length (before ++ bad :: after)) 0) with false
    by (destruct before; reflexivity).
  unfold forEach.
  assert (forall html,
            forEach_items (before ++ bad :: after) table_row html =
              Abrupt (TypeError ("Cannot read properties of "
                                   +:+ ToString bad))) as H.
  { induction Hrows as [|r rows Hr _ IH]; intros html;
      cbn [app forEach_items].
    - rewrite table_row_no_row by (destruct Hbad; subst; reflexivity).
      reflexivity.
    - rewrite (table_row_markup _ _ Hr). cbn [bind_completion].
      apply IH. cbn [app List.length] in Hlen. lia. }
  rewrite H. reflexivity.
Qed.

End TableMarkup.


Lemma createStocksTable_null_row_witness :
  @createStocksTable sample_host (JArr [stock "ABC" 10 2; JNull]) "Gainers" =
    Abrupt (TypeError "Cannot read properties of null").
Proof.
  apply (@createStocksTable_null_row sample_host "Gainers"
           [stock "ABC" 10 2] [] JNull).
  - reflexivity.
  - repeat constructor.
  - left. reflexivity.
Defined.

(** ** The tables on the page *)

Section TableShown.
Context {host : Host}.




End TableShown.


(** ** Where a failure is shown *)

Section FailureShown.
Context {host : Host}.


End FailureShown.



(** ** The text of the ticker *)

Section TickerText.
Context {host : Host}.

(** What [updateTicker] does with the two results, once [Promise.all] has
    settled and [createTickerContent] and [updateTicker] have had their
    turns. *)
Lemma updateTicker_runs (w : World) (el : Element)
  (schedule : list Event) (t' : Async (list JSValue)) (w' : World)
  (g l : JSValue) (t1 t2 : Z) :
  document w !! "ticker-content" = Some el ->
  reaches (Promise_all [getTopGainers; getTopLosers]) w schedule t' w' ->
  outcome t' = Some (Normal [g; l]) ->
  let final :=
    exec (schedule ++ [event (main_path t') Tick t1;
                       event (main_path t') Tick t2])
      (run_sync updateTicker w) in
  match ticker_text g l with
  | Normal content =>
      outcome (fst final) = Some (Normal JUndefined) /\
      document (snd final) =
        alter (with_content
                 (TextContent (if String.eqb content EmptyString
                               then ticker_placeholder else content)))
          "ticker-content" (document w')
  | Abrupt e =>
      outcome (fst final) = Some (Abrupt e) /\
      document (snd final) = document w'
  end.
Proof.
  intros Hel Hr Hout final.
  assert (code (Promise_all [getTopGainers; getTopLosers])) as Hcp
    by (intros r; apply code_complete).
  pose proof (exec_await_then _
                (fun c : Completion (list JSValue) =>
                   match c with
                   | Normal results =>
                       complete (ticker_text (nth 0 results JUndefined)
                                   (nth 1 results JUndefined))
                   | Abrupt e => Throw e
                   end)
                w schedule t' w' t1 Hcp Hr
                (ltac:(rewrite Hout; eexists; reflexivity))) as Hc.
  match type of Hc with
  | reaches _ _ _ (fst (resume _ ?f ?w0)) _ =>
      destruct (resume_outcome t' f w0 _ Hout) as (Ho1 & Hw1 & Hp1)
  end.
  cbv beta iota in Ho1, Hw1, Hp1.
  change (nth 0 [g; l] JUndefined) with g in Ho1, Hw1, Hp1.
  change (nth 1 [g; l] JUndefined) with l in Ho1, Hw1, Hp1.
  assert (outcome (fst (run_sync (complete (ticker_text g l))
                          (set_clock t1 w'))) = Some (ticker_text g l) /\
          snd (run_sync (complete (ticker_text g l)) (set_clock t1 w')) =
            set_clock t1 w' /\
          main_path (fst (run_sync (complete (ticker_text g l))
                            (set_clock t1 w'))) = []) as (E1 & E2 & E3)
    by (destruct (ticker_text g l); repeat split).
  rewrite E1 in Ho1. rewrite E2 in Hw1. rewrite E3, app_nil_r in Hp1.
  pose proof (exec_await_then createTickerContent
                (fun c : Completion string =>
                   match c with
                   | Normal content =>
                       if negb (String.eqb content EmptyString)
                       then (act (SetTextContent "ticker-content" content);;
                             Ret JUndefined)%async
                       else (act (SetTextContent "ticker-content"
                                    ticker_placeholder);;
                             Ret JUndefined)%async
                   | Abrupt e => Throw e
                   end)
                w _ _ _ t2 code_createTickerContent Hc
                (ltac:(rewrite Ho1; eexists; reflexivity))) as [_ Hu].
  rewrite Hp1, Hw1, <- app_assoc in Hu. cbn [app] in Hu.
  match type of Hu with
  | _ = (fst (resume ?t ?f ?w0), _) =>
      destruct (resume_outcome t f w0 _ Ho1) as (Ho2 & Hw2 & _)
  end.
  assert (run_sync updateTicker w =
          run_sync (on_completion (await createTickerContent)
            (fun c : Completion string =>
                   match c with
                   | Normal content =>
                       if negb (String.eqb content EmptyString)
                       then (act (SetTextContent "ticker-content" content);;
                             Ret JUndefined)%async
                       else (act (SetTextContent "ticker-content"
                                    ticker_placeholder);;
                             Ret JUndefined)%async
                   | Abrupt e => Throw e
                   end)) w) as Hstart.
  { unfold updateTicker. unfold bind at 1. unfold act at 1.
    cbn [on_completion]. rewrite run_sync_Act. cbn [perform fst snd].
    rewrite Hel. reflexivity. }
  subst final. rewrite Hstart, Hu. cbn [fst snd].
  rewrite Ho2, Hw2.
  destruct (ticker_text g l) as [content|e]; [|split; reflexivity].
  destruct (String.eqb content EmptyString); split; reflexivity.
Qed.




(** X17: when a result is a non-empty string, [forEach] is not a function of its
    first three characters: the ticker update throws and the element keeps
    its content. *)
Theorem updateTicker_malformed (w : World) (el : Element)
  (schedule : list Event) (t' : Async (list JSValue)) (w' : World)
  (s : string) (l : JSValue) (t1 t2 : Z) :
  document w !! "ticker-content" = Some el ->
  reaches (Promise_all [getTopGainers; getTopLosers]) w schedule t' w' ->
  outcome t' = Some (Normal [JStr s; l]) ->
  s <> EmptyString -> Z.of_nat (String.length s) < 2 ^ 32 ->
  outcome (fst (exec (schedule ++ [event (main_path t') Tick t1;
                                   event (main_path t') Tick t2])
                  (run_sync updateTicker w))) =
    Some (Abrupt (TypeError "forEach is not a function")) /\
  document (snd (exec (schedule ++ [event (main_path t') Tick t1;
                                    event (main_path t') Tick t2])
                   (run_sync updateTicker w))) = document w'.
Proof.
  intros Hel Hr Hout Hs Hlen.
  pose proof (updateTicker_runs w el schedule t' w' (JStr s) l t1 t2
                Hel Hr Hout) as H.
  cbv zeta in H.
  assert (ticker_text (JStr s) l =
            Abrupt (TypeError "forEach is not a function")) as E.
  { unfold ticker_text, get_prop, call_slice.
    cbn [ToBoolean]. destruct s as [|c s]; [contradiction|].
    cbn [String.eqb negb bind_completion].
    change (String.eqb "length" "length") with true. cbv iota.
    cbn [bind_completion]. unfold is_greater_than_zero. cbn [ToNumber].
    rewrite length_greater_than_zero by lia. reflexivity. }
  rewrite E in H. exact H.
Qed.

End TickerText.


Lemma updateTicker_malformed_witness :
  outcome
    (fst (exec (both_arrive (JStr "none today") sample_losers
                  ++ [event [Main] Tick 1031; event [Main] Tick 1032])
            (run_sync (@updateTicker sample_host) sample_page)))
  = Some (Abrupt (TypeError "forEach is not a function")).
Proof.
  pose proof (@updateTicker_malformed sample_host sample_page blank
                (both_arrive (JStr "none today") sample_losers)
                (fst (exec (both_arrive (JStr "none today") sample_losers)
                        (run_sync (Promise_all [getTopGainers; getTopLosers])
                           sample_page)))
                (snd (exec (both_arrive (JStr "none today") sample_losers)
                        (run_sync (Promise_all [getTopGainers; getTopLosers])
                           sample_page)))
                "none today" sample_losers 1031 1032) as H.
  change (main_path _) with [Main] in H.
  apply H.
  - vm_compute. reflexivity.
  - split; [vm_compute; tauto | apply surjective_pairing].
  - vm_compute. reflexivity.
  - discriminate.
  - reflexivity.
Defined.

(** ** The summary on the page *)


Lemma run_sync_bind_throw {A B : Type} (p : Async A) (k : A -> Async B)
  (w : World) (e : JSError) (w1 : World) :
  code p -> run_sync p w = (Throw e, w1) ->
  run_sync (bind p k) w = (Throw e, w1).
Proof.
  intros Hc H. unfold bind. rewrite (run_sync_on_completion p _ Hc), H.
  reflexivity.
Qed.



Section SummaryShown.
Context {host : Host}.








Lemma truthy_not_number (v : JSValue) :
  ToBoolean v = true -> (forall x, v <> JNum x) ->
  call_toFixed v 2 = Abrupt (TypeError "toFixed is not a function").
Proof.
  intros Hv Hn. destruct v; try discriminate; try reflexivity.
  exfalso. eapply Hn. reflexivity.
Qed.

(** X20: with a summary whose index is truthy and not a number (a string, say),
    [toFixed] is not a function: [updateASPI] and [updateMarketSummary] throw
    a [TypeError] as soon as the element of the index is on the page, having
    written nothing, not even the fields that are in order. *)
Theorem summary_index_not_a_number (w : World) (schedule : list Event)
  (d : JSValue) (w' : World) (tm : Z) :
  returns getMarketSummary w schedule d w' -> ToBoolean d = true ->
  ToBoolean (field d "ASPI") = true -> (forall x, field d "ASPI" <> JNum x) ->
  (is_Some (document w !! "aspi-index") ->
   exec (schedule ++ [event [] Tick tm]) (run_sync updateASPI w) =
     (Throw (TypeError "toFixed is not a function"), set_clock tm w')) /\
  (is_Some (document w !! "market-aspi") ->
   exec (schedule ++ [event [] Tick tm]) (run_sync updateMarketSummary w) =
     (Throw (TypeError "toFixed is not a function"), set_clock tm w')).
Proof.
  intros Hr Hd Ht Hn.
  pose proof (truthy_not_number _ Ht Hn) as Hfix.
  rewrite <- (summary_keeps_page w schedule d w' Hr).
  split; intros [el Hel].
  - unfold updateASPI. unfold bind at 1.
    rewrite (update_runs getMarketSummary _ w schedule d w' tm
               code_getMarketSummary Hr).
    rewrite Hd. cbn [negb].
    unfold bind at 1. unfold act at 1. cbn [on_completion].
    rewrite run_sync_Act. cbn [perform fst snd on_completion].
    unfold bind at 1. unfold act at 1. cbn [on_completion].
    rewrite run_sync_Act. cbn [perform fst snd on_completion].
    change (document (set_clock tm w')) with (document w'). rewrite Hel.
    apply run_sync_bind_throw; [code_tac|].
    rewrite (get_prop_truthy d "ASPI" Hd). cbn [complete].
    unfold bind at 1. cbn [on_completion]. rewrite Ht, Hfix. reflexivity.
  - unfold updateMarketSummary. unfold bind at 1.
    rewrite (update_runs getMarketSummary _ w schedule d w' tm
               code_getMarketSummary Hr).
    rewrite Hd. cbn [negb].
    unfold bind at 1. unfold act at 1. cbn [on_completion].
    rewrite run_sync_Act. cbn [perform fst snd on_completion].
    change (document (set_clock tm w')) with (document w'). rewrite Hel.
    apply run_sync_bind_throw; [code_tac|].
    rewrite (get_prop_truthy d "ASPI" Hd). cbn [complete].
    unfold bind at 1. cbn [on_completion]. rewrite Ht, Hfix. reflexivity.
Qed.

End SummaryShown.



Lemma summary_index_not_a_number_witness :
  fst (exec (summary_events odd_summary ++ [event [] Tick 1022])
         (run_sync (@updateMarketSummary sample_host) sample_page)) =
    Throw (TypeError "toFixed is not a function").
Proof.
  destruct (@summary_index_not_a_number sample_host sample_page
              (summary_events odd_summary) odd_summary
              (summary_arrived odd_summary) 1022) as [_ H].
  - split; vm_compute; [repeat split | reflexivity].
  - reflexivity.
  - reflexivity.
  - discriminate.
  - rewrite H; [reflexivity | vm_compute; eexists; reflexivity].
Defined.

(** ** How the percentage is rounded *)

Lemma round_scaled_nearest (f : nat) (m : positive) (e : Z) :
  (0 <= e -> round_scaled f m e = Z.pos m * 10 ^ Z.of_nat f * 2 ^ e) /\
  (e < 0 ->
   (2 * round_scaled f m e - 1) * 2 ^ (- e)
     <= 2 * (Z.pos m * 10 ^ Z.of_nat f)
     < (2 * round_scaled f m e + 1) * 2 ^ (- e)).
Proof.
  unfold round_scaled. split; intros He.
  - apply Z.leb_le in He. rewrite He. reflexivity.
  - assert ((0 <=? e) = false) as -> by (apply Z.leb_gt; exact He).
    set (n := Z.pos m * 10 ^ Z.of_nat f).
    replace (1 - e) with (Z.succ (- e)) by lia.
    rewrite Z.pow_succ_r by lia.
    assert (0 < 2 ^ (- e)) as Hp by (apply Z.pow_pos_nonneg; lia).
    set (p := 2 ^ (- e)) in *.
    assert (2 * p <> 0) as Hnz by lia.
    assert (0 < 2 * p) as Hpos by lia.
    pose proof (Z.div_mod (2 * n + p) (2 * p) Hnz) as Hdm.
    pose proof (Z.mod_pos_bound (2 * n + p) (2 * p) Hpos) as Hmod.
    nia.
Qed.

Section Rounding.
Context {host : Host}.

(** X21: [formatPercentageChange] prints the hundredths nearest to the exact
    value of the double, the larger magnitude when two are equally near
    (half away from zero), behind the sign: [n] hundredths with
    [n - 1/2 <= |x| * 100 < n + 1/2].  So -3.456 gives -3.46, 0.125 gives
    0.13 and -0.125 gives -0.13, while 1.005, whose double lies below it,
    gives 1.00.  A change that is not a number is printed NaN and
    classified negative. *)
Theorem formatPercentageChange_rounding :
  (forall (s : bool) (m : positive) (e : Z),
     mag_ge m e (10 ^ 21) = false ->
     value (formatPercentageChange (JNum (S754_finite s m e))) =
       (if s then "-" else EmptyString)
         +:+ fixed_digits 2 (round_scaled 2 m e) /\
     (0 <= e -> round_scaled 2 m e = Z.pos m * 100 * 2 ^ e) /\
     (e < 0 ->
      (2 * round_scaled 2 m e - 1) * 2 ^ (- e)
        <= 2 * (Z.pos m * 100)
        < (2 * round_scaled 2 m e + 1) * 2 ^ (- e))) /\
  value (formatPercentageChange
           (JNum (fdiv (of_Z (-3456)) (of_Z 1000)))) = "-3.46" /\
  value (formatPercentageChange (JNum (fdiv (of_Z 1) (of_Z 8)))) = "0.13" /\
  value (formatPercentageChange (JNum (fdiv (of_Z (-1)) (of_Z 8)))) = "-0.13" /\
  value (formatPercentageChange
           (JNum (fdiv (of_Z 1005) (of_Z 1000)))) = "1.00" /\
  (forall v, parseFloat v = S754_nan ->
     formatPercentageChange v =
       {| value := "NaN"; isPositive := false; color := "negative" |}).
Proof.
  split.
  { intros s m e Hmag. split.
    - unfold formatPercentageChange. cbn [parseFloat value].
      unfold toFixed. rewrite Hmag. reflexivity.
    - exact (round_scaled_nearest 2 m e). }
  split; [vm_compute; reflexivity|].
  split; [vm_compute; reflexivity|].
  split; [vm_compute; reflexivity|].
  split; [vm_compute; reflexivity|].
  intros v Hv. unfold formatPercentageChange. rewrite Hv. reflexivity.
Qed.

End Rounding.
